(** * mongodet: schema-driven validation data and document transcoding

    A shallow embedding of the JavaScript sources

    - [errors.js]                      (class [MongolError]),
    - [types.js]                       (the type registry and its built-in codecs),
    - [conversion.js]                  (the document transcoder),
    - [Collection/validateDocument.js] (the validator front end and the
                                        derivation of the insert/update schemas),
    - [connexion.js]                   (the connection and its status),
    - [Collection.js]                  (the method [validateDocument]),

    followed by the definitions the statements are phrased with (the
    renderings the specification speaks of, and the schemas and documents
    of the worked examples) and by the properties established.

    Modelling conventions.

    - JavaScript values are the inductive type [value].  Numbers are the
      integer-valued ones ([VNum]) and [VNaN]; fractional numbers are not
      represented.  Objects are association lists in enumeration order.
      Instances of library classes (ObjectID, Int32, Long, Decimal128,
      Binary, MongolError) are [VInst] with the class name and the own
      fields; a Node [Buffer] is [VBuffer].
    - [x.constructor.name] is [ctorName]: an own property [constructor]
      is read first, then the constructor the value inherits.  An object
      whose own [constructor] answers ['Array'] for a name is walked by
      the array loops, with what it holds under [length] and under its
      index keys.  Where the embedding does not follow the code it
      answers [Err (NotModelled _)]: a [length] that is a string or an
      object or exceeds 2^53, a number of 22 digits or more given to
      [parseInt], a function inherited from [Object.prototype] called as
      a codec.  A key [__proto__], which sets the prototype when written
      in a literal, is not represented, and a master schema is taken to
      have no key [constructor] under [items].
    - Two distinct object literals are never [===]; the tree model has no
      aliasing, so [strict_eq] is false on objects.
    - A [throw] is the [Err] branch of [result].  Stack traces are omitted.
    - The functions of the mongodb driver and of Node that the sources call
      ([new ObjectId], [Long.fromString], [Decimal128.fromString],
      [Buffer.from], [new Date], ...) are fields of the record [Driver];
      the properties hold for every driver, and the worked examples run
      with the driver [bson1].
    - [ajv.compile] is a parameter of [getValidationData]; a compiled
      validator is a function from a document to a verdict and the
      violations found.
    - [updateSubSchema] follows [$ref] links and so is not structurally
      recursive; it takes a recursion budget ([fuel]) and answers
      [Err OutOfFuel] when the budget is spent.
    - The asynchronous functions of [connexion.js] are run to the end of
      the promise they return, one call after the other; the state of the
      driver and of the server is the parameter [World]. *)

From Stdlib Require Import ZArith NArith List String Ascii Bool Lia.
From stdpp Require Import base option list strings gmap pretty.

Import ListNotations.
Local Open Scope string_scope.
Local Open Scope Z_scope.

(** ** JavaScript values *)

Module JS.

#[warnings="-register-all"]
Inductive value : Type :=
| VUndef
| VNull
| VBool (b : bool)
| VNum (n : Z)
| VNaN
| VStr (s : string)
| VArr (xs : list value)
| VObj (kvs : list (string * value))
| VDate (t : option Z)                 (* [None]: an invalid date *)
| VBuffer (bs : list Byte.byte)
| VInst (cls : string) (fields : list (string * value)).

(** What a [throw] carries. *)
Inductive error : Type :=
| TypeError (what : string)          (* raised by the language itself *)
| RangeError (what : string)
| JsError (msg : string)             (* [throw new Error(msg)] *)
| Thrown (v : value)                 (* [throw v], e.g. a string or a MongolError *)
| OutOfFuel                          (* the recursion budget of the model is spent *)
| NotModelled (what : string).       (* the model does not follow the code here *)

Inductive result (A : Type) : Type :=
| Ok (a : A)
| Err (e : error).
Arguments Ok {A} a.
Arguments Err {A} e.

Definition bind {A B : Type} (m : result A) (k : A -> result B) : result B :=
  match m with
  | Ok a => k a
  | Err e => Err e
  end.

Definition isOk {A : Type} (m : result A) : bool :=
  match m with Ok _ => true | Err _ => false end.

Definition isErr {A : Type} (m : result A) : bool := negb (isOk m).

End JS.
Export JS.

Notation "'let*' x ':=' m 'in' k" := (bind m (fun x => k))
  (at level 10, x name, m at level 100, k at level 200).

Module JSOps.

(** [!!v] *)
Definition truthy (v : value) : bool :=
  match v with
  | VUndef | VNull | VNaN => false
  | VBool b => b
  | VNum n => negb (n =? 0)
  | VStr s => negb (String.eqb s EmptyString)
  | _ => true
  end.

(** [v instanceof Array], [v instanceof Object] *)
Definition instanceofArray (v : value) : bool :=
  match v with VArr _ => true | _ => false end.

Definition instanceofObject (v : value) : bool :=
  match v with
  | VArr _ | VObj _ | VDate _ | VBuffer _ | VInst _ _ => true
  | _ => false
  end.

(** [a === b] on the values of the model. *)
Definition strict_eq (a b : value) : bool :=
  match a, b with
  | VUndef, VUndef => true
  | VNull, VNull => true
  | VBool x, VBool y => Bool.eqb x y
  | VNum x, VNum y => x =? y
  | VStr x, VStr y => String.eqb x y
  | _, _ => false
  end.

(** [xs.indexOf(x) >= 0] *)
Definition includes (xs : list value) (x : value) : bool :=
  existsb (strict_eq x) xs.

(** Association lists as objects. *)
Fixpoint assoc {A : Type} (k : string) (kvs : list (string * A)) : option A :=
  match kvs with
  | [] => None
  | (k', v) :: rest => if String.eqb k k' then Some v else assoc k rest
  end.

Definition charsOf (s : string) : list ascii := list_ascii_of_string s.

Definition isDigit (c : ascii) : bool :=
  let n := nat_of_ascii c in (48 <=? n)%nat && (n <=? 57)%nat.

Definition digitVal (c : ascii) : N := N.of_nat (nat_of_ascii c - 48).

(** The array index a key denotes, if any: the key is a decimal numeral
    without sign or leading zero, of a number below 2^32 - 1.  Any other
    key, a longer numeral included, is an ordinary name. *)
Definition indexOfKey (k : string) : option nat :=
  match charsOf k with
  | [] => None
  | c :: cs =>
      let n := fold_left (fun acc d => (acc * 10 + digitVal d)%N) (c :: cs) 0%N in
      if forallb isDigit (c :: cs)
         && (negb (Ascii.eqb c "0"%char) || match cs with [] => true | _ => false end)
         && (n <? 2 ^ 32 - 1)%N
      then Some (N.to_nat n)
      else None
  end.

(** [ret[k] = v] on an object: an existing key keeps its place, an index
    key is entered among the index keys in ascending order, any other new
    key goes last. *)
Fixpoint insertIndexKey (i : nat) (k : string) (v : value)
    (kvs : list (string * value)) : list (string * value) :=
  match kvs with
  | [] => [(k, v)]
  | (k', v') :: rest =>
      match indexOfKey k' with
      | Some j => if (j <? i)%nat then (k', v') :: insertIndexKey i k v rest
                  else (k, v) :: (k', v') :: rest
      | None => (k, v) :: (k', v') :: rest
      end
  end.

Fixpoint replaceKey (k : string) (v : value)
    (kvs : list (string * value)) : list (string * value) :=
  match kvs with
  | [] => []
  | (k', v') :: rest =>
      if String.eqb k k' then (k, v) :: rest else (k', v') :: replaceKey k v rest
  end.

Definition setKey (k : string) (v : value)
    (kvs : list (string * value)) : list (string * value) :=
  match assoc k kvs with
  | Some _ => replaceKey k v kvs
  | None =>
      match indexOfKey k with
      | Some i => insertIndexKey i k v kvs
      | None => (kvs ++ [(k, v)])%list
      end
  end.

(** [delete obj[k]] *)
Definition deleteKey (k : string) (kvs : list (string * value)) : list (string * value) :=
  List.filter (fun kv => negb (String.eqb k (fst kv))) kvs.

(** The elements of an array-like value under their index keys, from
    index [i] on. *)
Fixpoint indexed {A : Type} (i : nat) (xs : list A) : list (string * A) :=
  match xs with
  | [] => []
  | x :: rest => (pretty i, x) :: indexed (S i) rest
  end.

(** An element of a Buffer, and a character of a string, as values. *)
Definition byteNum (b : Byte.byte) : value := VNum (Z.of_N (Byte.to_N b)).

Definition charStr (c : ascii) : value := VStr (String c EmptyString).

(** The own enumerable properties of a value, in enumeration order: what
    [for (k in v)] guarded by [hasOwnProperty], [Object.keys(v)] and the
    spread [{...v}] see. *)
Definition ownEntries (v : value) : list (string * value) :=
  match v with
  | VObj kvs => kvs
  | VInst _ fields => fields
  | VArr xs => indexed 0 xs
  | VStr s => indexed 0 (List.map charStr (charsOf s))
  | VBuffer bs => indexed 0 (List.map byteNum bs)
  | _ => []
  end.

Definition ownKeys (v : value) : list string := List.map fst (ownEntries v).

Definition lengthOf {A : Type} (xs : list A) : value := VNum (Z.of_nat (List.length xs)).

(** [v[k]] where [v] is neither [undefined] nor [null]: own properties,
    and [length] and the elements of arrays, strings and Buffers. *)
Definition getP (v : value) (k : string) : value :=
  match v with
  | VObj kvs | VInst _ kvs => default VUndef (assoc k kvs)
  | VArr xs =>
      if String.eqb k "length" then lengthOf xs
      else default VUndef (i ← indexOfKey k; xs !! i)
  | VStr s =>
      if String.eqb k "length" then lengthOf (charsOf s)
      else default VUndef (i ← indexOfKey k; charStr <$> charsOf s !! i)
  | VBuffer bs =>
      if String.eqb k "length" then lengthOf bs
      else default VUndef (i ← indexOfKey k; byteNum <$> bs !! i)
  | _ => VUndef
  end.

(** [v.k] or [v[k]] for an arbitrary [v]. *)
Definition getProp (v : value) (k : string) : result value :=
  match v with
  | VUndef => Err (TypeError ("Cannot read property '" ++ k ++ "' of undefined"))
  | VNull => Err (TypeError ("Cannot read property '" ++ k ++ "' of null"))
  | _ => Ok (getP v k)
  end.

(** The name of the constructor a value inherits from its prototype. *)
Definition className (v : value) : string :=
  match v with
  | VBool _ => "Boolean"
  | VNum _ | VNaN => "Number"
  | VStr _ => "String"
  | VArr _ => "Array"
  | VObj _ => "Object"
  | VDate _ => "Date"
  | VBuffer _ => "Buffer"
  | VInst cls _ => cls
  | VUndef | VNull => EmptyString
  end.

(** [v.constructor.name].  An own property [constructor] is read before
    the constructor the value inherits, and [name] is then whatever that
    property holds under [name].  Reading [constructor] of [undefined] or
    [null], or [name] of such a [constructor], is a TypeError. *)
Definition ctorName (v : value) : result value :=
  match v with
  | VUndef => Err (TypeError "Cannot read property 'constructor' of undefined")
  | VNull => Err (TypeError "Cannot read property 'constructor' of null")
  | VObj kvs | VInst _ kvs =>
      match assoc "constructor" kvs with
      | Some c => getProp c "name"
      | None => Ok (VStr (className v))
      end
  | _ => Ok (VStr (className v))
  end.

(** [cn === 'Name'] *)
Definition named (cn : value) (name : string) : bool := strict_eq cn (VStr name).

(** How often [for (let i = 0; i < len; i++)] goes round.  The counter
    does not pass 2^53, and a [len] that is a string or an object is
    first converted to a number: neither is followed. *)
Definition rounds (len : value) : result nat :=
  match len with
  | VNum n =>
      if n <=? 2 ^ 53 then Ok (Z.to_nat n)
      else Err (NotModelled "a loop whose counter stops at 2^53")
  | VBool true => Ok 1%nat
  | VBool false | VUndef | VNull | VNaN => Ok 0%nat
  | _ => Err (NotModelled "a length that is a string or an object")
  end.

(** The values [data[0]], [data[1]], ... that a loop
    [for (let i = 0; i < data.length; i++)] reads: the elements of an
    array, and for an object that passes for one what it holds under
    [length] and under its index keys. *)
Definition arrayItems (data : value) : result (list value) :=
  match data with
  | VArr xs => Ok xs
  | _ =>
      let* n := rounds (getP data "length") in
      Ok (List.map (fun i => getP data (pretty i)) (seq 0 n))
  end.

(** [a && b] and the conditional test [schema && schema.properties &&
    schema.properties[v]] of the transcoder. *)
Definition andThen (a : value) (b : value -> value) : value :=
  if truthy a then b a else a.

End JSOps.
Export JSOps.

(** ** The string methods the sources use *)

Module Str.

(** [s.slice(n)] for [n] inside the string. *)
Fixpoint dropStr (n : nat) (s : string) : string :=
  match n, s with
  | O, _ => s
  | S n', EmptyString => EmptyString
  | S n', String _ s' => dropStr n' s'
  end.

(** [s.startsWith(p)] *)
Definition startsWith (s p : string) : bool := String.prefix p s.

(** [s.replace(pat, rep)] for a string pattern: the first occurrence only. *)
Fixpoint replaceFirst (pat rep s : string) : string :=
  if String.prefix pat s then rep ++ dropStr (String.length pat) s
  else match s with
       | EmptyString => EmptyString
       | String c s' => String c (replaceFirst pat rep s')
       end.

(** [s.split(sep)] for a one-character separator. *)
Fixpoint splitOn (sep : ascii) (s : string) : list string :=
  match s with
  | EmptyString => [EmptyString]
  | String c s' =>
      let r := splitOn sep s' in
      if Ascii.eqb c sep then EmptyString :: r
      else match r with
           | h :: t => String c h :: t
           | [] => [String c EmptyString]
           end
  end.

(** The double quote, for the messages that contain one. *)
Definition dq : string := String (ascii_of_nat 34) EmptyString.

(** [`${v}`] for a primitive [v].  The derivation interpolates only names
    on which [===] has succeeded, and those are primitives. *)
Definition primStr (v : value) : string :=
  match v with
  | VUndef => "undefined"
  | VNull => "null"
  | VBool true => "true"
  | VBool false => "false"
  | VNum n => pretty n
  | VNaN => "NaN"
  | VStr s => s
  | _ => EmptyString
  end.

End Str.
Export Str.

(** ** errors.js *)

Module Errors.

(** [new MongolError(error)]: the fields of a plain object are copied into
    the instance, anything else is stored under [error]. *)
Definition MongolError (error : value) : result value :=
  let* cn := ctorName error in
  if named cn "Object" then
    Ok (VInst "MongolError"
          (fold_left (fun acc kv => setKey (fst kv) (snd kv) acc)
                     (ownEntries error) [("errorType", VStr "MongolError")]))
  else
    Ok (VInst "MongolError" [("errorType", VStr "MongolError"); ("error", error)]).

(** [throw new MongolError(error)] *)
Definition throwMongolError {A : Type} (error : value) : result A :=
  let* e := MongolError error in Err (Thrown e).

End Errors.
Export Errors.

(** ** Collection/validateDocument.js *)

Module ValidateDocument.

(** [clone(obj)].  The final [throw] of the source needs an object that is
    not an [instanceof Object]; no value of the model is one. *)
Fixpoint clone (obj : value) : value :=
  match obj with
  | VDate t => VDate t
  | VArr xs => VArr (List.map clone xs)
  | VObj kvs | VInst _ kvs =>
      VObj ((fix copyAttrs (kvs : list (string * value)) (copy : list (string * value)) :=
               match kvs with
               | [] => copy
               | (attr, v) :: rest => copyAttrs rest (setKey attr (clone v) copy)
               end) kvs [])
  | VBuffer bs =>
      VObj (fold_left (fun copy kv => setKey (fst kv) (snd kv) copy)
                      (indexed 0 (List.map byteNum bs)) [])
  | _ => obj
  end.

(** A compiled Ajv validator: called on a document it answers whether the
    document is valid and leaves the violations in its [errors] property. *)
Definition validator : Type := value -> bool * value.

Fixpoint validateEach (v : validator) (i : nat) (docs : list value) : result unit :=
  match docs with
  | [] => Ok tt
  | d :: rest =>
      if fst (v d) then validateEach v (S i) rest
      else throwMongolError
             (VObj [("error", snd (v d)); ("document", d); ("index", VNum (Z.of_nat i))])
  end.

Definition validateDocument (data : value) (validator : option validator) : result value :=
  let* cn := ctorName data in
  if named cn "Array" then
    let* items := arrayItems data in
    match validator with
    | Some v =>
        let* _ := validateEach v 0 items in
        Ok (VArr [])
    | None => Ok (VArr [])
    end
  else
    match validator with
    | Some v =>
        if fst (v data) then Ok VUndef
        else throwMongolError (VObj [("error", snd (v data)); ("document", data)])
    | None => Ok VUndef
    end.

(** *** getValidationData *)

(** The walk of a [$ref] such as ['#/definitions/address'] from the root;
    the same statements stand in [updateSubSchema] and in [convertElement]. *)
Definition followRef (root : value) (ref : string) : value :=
  fold_left (fun r p => if truthy r then getP r p else r)
            (splitOn "/" (replaceFirst "#/" EmptyString ref)) root.

(** [schema.$ref.replace(...)]: only a string has the method. *)
Definition refString (r : value) : result string :=
  match r with
  | VStr s => Ok s
  | _ => Err (TypeError "schema.$ref.replace is not a function")
  end.

(** [{ ...a, ...b }] *)
Definition spread (a b : value) : list (string * value) :=
  fold_left (fun acc kv => setKey (fst kv) (snd kv) acc)
            (ownEntries a ++ ownEntries b)%list [].

(** Lines 104-116: the [$ref] branch of [updateSubSchema]. *)
Definition resolveRef (refSchema schema : value) : result value :=
  let* r := getProp schema "$ref" in
  if truthy r then
    let schema := clone schema in
    let* s := refString (getP schema "$ref") in
    let ref := followRef refSchema s in
    Ok (VObj (deleteKey "$ref" (spread schema ref)))
  else Ok schema.

(** [xs.concat(x)] appends the elements of an array and any other value
    as one element. *)
Definition concatItems (x : value) : list value :=
  match x with
  | VArr xs => xs
  | _ => [x]
  end.

Definition modeBranches (mode : string) (spec : value) : list value :=
  let l : list value := [] in
  let l := if truthy (getP spec "upsert") then (l ++ concatItems (getP spec "upsert"))%list else l in
  let l := if truthy (getP spec mode) then (l ++ concatItems (getP spec mode))%list else l in
  l.

(** Lines 122-134: [required], left [undefined] ([None]) when the node has
    no truthy [required]. *)
Definition requiredFor (mode : string) (schema : value) : option (list value) :=
  let r := getP schema "required" in
  if truthy r then
    Some (if instanceofArray r then concatItems r
          else if instanceofObject r then modeBranches mode r
          else [r])
  else None.

(** Lines 139-160: the unmodifiable names of a truthy
    [unmodifiableProperties]. *)
Definition unmodifiableFor (mode : string) (u : value) : list value :=
  if instanceofArray u then ([] ++ concatItems u)%list
  else if instanceofObject u then modeBranches mode u
  else ([] ++ concatItems u)%list.

Definition conflictMessage (r : value) (path mode : string) : string :=
  "Property " ++ dq ++ primStr r ++ dq ++ " in " ++ dq ++ path ++ dq
  ++ ", can not be declared as unmodifiable and required. Current mode: "
  ++ dq ++ mode ++ dq ++ ".".

Definition policyMessage (path : string) : string :=
  "Error in " ++ dq ++ path ++ dq ++ ": if the parameter " ++ dq
  ++ "unmodifiableProperties" ++ dq ++ " is set, the " ++ dq
  ++ "additionalProperties" ++ dq
  ++ " parameter must be set to false on the same level.".

(** Lines 171-176: [required.map(r => ...)]; [required] may be
    [undefined] here. *)
Definition checkRequired (required : option (list value)) (unmodifiable : list value)
    (path mode : string) : result unit :=
  match required with
  | None => Err (TypeError "Cannot read property 'map' of undefined")
  | Some rs =>
      match List.find (includes unmodifiable) rs with
      | Some r => throwMongolError (VStr (conflictMessage r path mode))
      | None => Ok tt
      end
  end.

(** Lines 136-182: the working list [properties]. *)
Definition workingProperties (mode : string) (schema : value)
    (required : option (list value)) (path : string) : result (list string) :=
  if truthy (getP schema "properties") then
    let properties := ownKeys (getP schema "properties") in
    if truthy (getP schema "unmodifiableProperties") then
      let unmodifiableProperties :=
        unmodifiableFor mode (getP schema "unmodifiableProperties") in
      let properties :=
        List.filter (fun p => negb (includes unmodifiableProperties (VStr p))) properties in
      let* _ := checkRequired required unmodifiableProperties path mode in
      if strict_eq (getP schema "additionalProperties") (VBool false)
      then Ok properties
      else throwMongolError (VStr (policyMessage path))
    else Ok properties
  else Ok [].

Fixpoint foldM {A B : Type} (f : B -> A -> result B) (xs : list A) (acc : B) : result B :=
  match xs with
  | [] => Ok acc
  | x :: rest => let* acc' := f acc x in foldM f rest acc'
  end.

Fixpoint mapiM {A B : Type} (f : nat -> A -> result B) (i : nat) (xs : list A)
    : result (list B) :=
  match xs with
  | [] => Ok []
  | x :: rest =>
      let* y := f i x in
      let* ys := mapiM f (S i) rest in
      Ok (y :: ys)
  end.

Definition elementsOf (v : value) : list value :=
  match v with VArr xs => xs | _ => [] end.

(** Lines 184-261: the body of the loop over the keys of the node.
    [self] is the recursive call [updateSubSchema]. *)
Definition deriveKey (self : value -> string -> result value) (schema : value)
    (path : string) (required : option (list value)) (properties : list string)
    (ret : list (string * value)) (key : string) : result (list (string * value)) :=
  if String.eqb key "properties" then
    let* props :=
      foldM (fun props property =>
        if existsb (String.eqb property) properties then
          let* sub :=
            self (getP (getP schema "properties") property)
                 (path ++ ".properties." ++ property) in
          Ok (setKey property sub props)
        else Ok props)
        (ownKeys (getP schema "properties")) [] in
    Ok (setKey "properties" (VObj props) ret)
  else if String.eqb key "items" then
    if instanceofArray (getP schema "items") then
      let* items :=
        mapiM (fun i item => self item (path ++ ".items[" ++ pretty i ++ "]"))
              0%nat (elementsOf (getP schema "items")) in
      Ok (setKey "items" (VArr items) ret)
    else
      let* items := self (getP schema "items") (path ++ ".items") in
      Ok (setKey "items" items ret)
  else if String.eqb key "required" then
    match required with
    | Some rs => Ok (setKey "required" (VArr rs) ret)
    | None => Ok ret
    end
  else if String.eqb key "definitions" || String.eqb key "unmodifiableProperties" then
    Ok ret
  else Ok (setKey key (clone (getP schema key)) ret).

(** [updateSubSchema(schema, path, level)] inside [getSchema(schema, mode)];
    [level] only feeds the disabled debug output and is left out. *)
Fixpoint updateSubSchema (fuel : nat) (refSchema : value) (mode : string)
    (schema : value) (path : string) : result value :=
  match fuel with
  | O => Err OutOfFuel
  | S fuel =>
      let* schema := resolveRef refSchema schema in
      let required := requiredFor mode schema in
      let* properties := workingProperties mode schema required path in
      let* ret :=
        foldM (deriveKey (updateSubSchema fuel refSchema mode) schema path
                 required properties)
              (ownKeys schema) [] in
      Ok (VObj ret)
  end.

Definition getSchema (fuel : nat) (schema : value) (mode : string) : result value :=
  updateSubSchema fuel schema mode schema "schema".

Record modeData : Type := { schema : value; validator_of : validator }.

Record validationData : Type := { insert : modeData; update : modeData }.

(** [getValidationData(schema)]; [compile] is [ajv.compile] of a fresh
    [new Ajv()]. *)
Definition getValidationData (compile : value -> result validator) (fuel : nat)
    (schema : value) : result validationData :=
  let* insertSchema := getSchema fuel schema "insert" in
  let* updateSchema := getSchema fuel schema "update" in
  let* vi := compile insertSchema in
  let* vu := compile updateSchema in
  Ok {| insert := {| schema := insertSchema; validator_of := vi |};
        update := {| schema := updateSchema; validator_of := vu |} |}.

End ValidateDocument.
Export ValidateDocument.

(** ** types.js *)

Module Types.

(** The library functions the codecs call.  Each field is the named
    JavaScript expression; nothing is assumed about them. *)
Record Driver : Type := {
  new_ObjectId : value -> result value;            (* [new ObjectId(data)] *)
  new_Int32 : value -> result value;               (* [new Int32(n)] *)
  Long_fromString : string -> Z -> result value;   (* [Long.fromString(s, radix)] *)
  Long_fromNumber : value -> result value;         (* [Long.fromNumber(data)] *)
  new_Decimal128 : value -> result value;          (* [new Decimal128(buf)] *)
  Decimal128_fromString : string -> result value;  (* [Decimal128.fromString(s)] *)
  new_Binary : value -> result value;              (* [new Binary(buf)] *)
  Buffer_from : value -> value -> result value;    (* [Buffer.from(data, encoding)] *)
  new_Date : value -> result value;                (* [new Date(data)] *)
  Date_now : value;                                (* [new Date()] *)
  call_toString : value -> list value -> result value;  (* [x.toString(...)], [x] not nullish *)
  call_toInt : value -> result value;              (* [x.toInt()], [x] not nullish *)
  stringOf : value -> string;                      (* [String(x)] for an object [x] *)
  bytesOther : value -> result value               (* the int128 reader on a [bytes] that is no Buffer *)
}.

(** A codec [(data, encoding) => ...]. *)
Definition codec : Type := value -> value -> result value.

(** The two module variables [toDbFunctions] and [fromDbFunctions]. *)
Record Registry : Type := {
  toDbFunctions : gmap string codec;
  fromDbFunctions : gmap string codec
}.

Definition emptyRegistry : Registry :=
  {| toDbFunctions := ∅; fromDbFunctions := ∅ |}.

Definition addType (type : string) (toDb fromDb : codec) (reg : Registry) : Registry :=
  {| toDbFunctions := <[type := toDb]> (toDbFunctions reg);
     fromDbFunctions := <[type := fromDb]> (fromDbFunctions reg) |}.

(** The property key a value denotes in [obj[type]]. *)
Definition toKey (drv : Driver) (type : value) : string :=
  match type with
  | VArr _ | VObj _ | VDate _ | VBuffer _ | VInst _ _ => stringOf drv type
  | _ => primStr type
  end.

(** The names under which every object finds a function of
    [Object.prototype]. *)
Definition inheritedFunctions : list string :=
  ["constructor"; "hasOwnProperty"; "isPrototypeOf"; "propertyIsEnumerable";
   "toLocaleString"; "toString"; "valueOf";
   "__defineGetter__"; "__defineSetter__"; "__lookupGetter__"; "__lookupSetter__"].

(** [typeof table[key] === 'function'] and the call [table[key](value,
    encoding)]: a registered codec is called; under a name that is not
    registered and names an inherited function, that function is called
    with the registry for [this], which is not followed; under any other
    name the value is handed back. *)
Definition dispatch (table : gmap string codec) (key : string)
    (value encoding : value) : result JS.value :=
  match table !! key with
  | Some f => f value encoding
  | None =>
      if existsb (String.eqb key) inheritedFunctions
      then Err (NotModelled "a function of Object.prototype called as a codec")
      else Ok value
  end.

Definition valueToDbFormat (drv : Driver) (reg : Registry)
    (value type encoding : value) : result JS.value :=
  dispatch (toDbFunctions reg) (toKey drv type) value encoding.

Definition dbFormatToValue (drv : Driver) (reg : Registry)
    (value type encoding : value) : result JS.value :=
  dispatch (fromDbFunctions reg) (toKey drv type) value encoding.

(** *** Language built-ins used by the codecs *)

Definition isSpace (c : ascii) : bool :=
  let n := nat_of_ascii c in ((9 <=? n) && (n <=? 13) || (n =? 32))%nat.

Fixpoint trimStart (s : string) : string :=
  match s with
  | String c s' => if isSpace c then trimStart s' else s
  | EmptyString => s
  end.

(** The value of a character as a digit, for radices up to 36. *)
Definition digitOf (c : ascii) : option Z :=
  let n := Z.of_nat (nat_of_ascii c) in
  if (48 <=? n) && (n <=? 57) then Some (n - 48)
  else if (97 <=? n) && (n <=? 122) then Some (n - 87)
  else if (65 <=? n) && (n <=? 90) then Some (n - 55)
  else None.

Fixpoint parseDigits (radix : Z) (s : string) (acc : option Z) : option Z :=
  match s with
  | EmptyString => acc
  | String c s' =>
      match digitOf c with
      | Some d => if d <? radix then parseDigits radix s' (Some (default 0 acc * radix + d))
                  else acc
      | None => acc
      end
  end.

(** [parseInt(s, radix)] on a string; [radix = None] is the one-argument
    call.  The result is exact, where JavaScript rounds beyond 2^53. *)
Definition parseIntStr (s : string) (radix : option Z) : value :=
  let s := trimStart s in
  let '(neg, s) :=
    match s with
    | String "-" s' => (true, s')
    | String "+" s' => (false, s')
    | _ => (false, s)
    end in
  let hex := startsWith s "0x" || startsWith s "0X" in
  let '(r, s) :=
    match radix with
    | Some r => if (r =? 16) && hex then (r, dropStr 2 s) else (r, s)
    | None => if hex then (16, dropStr 2 s) else (10, s)
    end in
  match parseDigits r s None with
  | Some n => VNum (if neg then - n else n)
  | None => VNaN
  end.

(** [parseInt(data)] on the values a leaf can be.  A number is first
    printed: an integer below 1e21 prints as its decimal numeral and is
    read back as it is; from 1e21 on it prints with an exponent, which is
    not followed. *)
Definition parseInt (drv : Driver) (data : value) : result value :=
  match data with
  | VStr s => Ok (parseIntStr s None)
  | VNum n =>
      if Z.abs n <? 10 ^ 21 then Ok (VNum n)
      else Err (NotModelled "parseInt of a number that prints with an exponent")
  | VArr _ | VObj _ | VDate _ | VBuffer _ | VInst _ _ =>
      Ok (parseIntStr (stringOf drv data) None)
  | _ => Ok VNaN
  end.

(** [s.slice(from, to)] with the negative positions counted from the end. *)
Definition clampPos (len i : Z) : nat :=
  Z.to_nat (if i <? 0 then Z.max (len + i) 0 else Z.min i len).

Definition sliceStr (s : string) (from : Z) (to : option Z) : string :=
  let len := Z.of_nat (String.length s) in
  let a := clampPos len from in
  let b := match to with Some t => clampPos len t | None => Z.to_nat len end in
  String.substring a (b - a) s.

(** [s.toLocaleLowerCase()] on the ASCII letters. *)
Definition lowerChar (c : ascii) : ascii :=
  let n := nat_of_ascii c in
  if ((65 <=? n) && (n <=? 90))%nat then ascii_of_nat (n + 32) else c.

Fixpoint toLowerCase (s : string) : string :=
  match s with
  | EmptyString => EmptyString
  | String c s' => String (lowerChar c) (toLowerCase s')
  end.

(** [n.toString(16)] for a natural number. *)
Definition hexChar (d : N) : ascii :=
  ascii_of_N (if (d <? 10)%N then 48 + d else 87 + d)%N.

Fixpoint hexDigits (fuel : nat) (n : N) (acc : string) : string :=
  match fuel with
  | O => acc
  | S fuel =>
      let acc := String (hexChar (n mod 16)%N) acc in
      if (n <? 16)%N then acc else hexDigits fuel (n / 16)%N acc
  end.

Definition toString16 (n : N) : string := hexDigits (S (N.to_nat (N.log2 n))) n EmptyString.

Fixpoint repeatTo (fuel : nat) (pad : string) (n : nat) : string :=
  match fuel with
  | O => EmptyString
  | S fuel =>
      if (String.length pad <? n)%nat
      then pad ++ repeatTo fuel pad (n - String.length pad)
      else String.substring 0 n pad
  end.

(** [s.padStart(target, pad)] *)
Definition padStart (s : string) (target : nat) (pad : string) : string :=
  if (target <=? String.length s)%nat || String.eqb pad EmptyString then s
  else repeatTo (target - String.length s) pad (target - String.length s) ++ s.

(** [buffer[i] = v] on a Buffer: the value is reduced to a byte and a
    position outside the buffer is ignored. *)
Definition toUint8 (v : value) : Byte.byte :=
  match v with
  | VNum n => default Byte.x00 (Byte.of_N (Z.to_N (n mod 256)))
  | _ => Byte.x00
  end.

Definition bufferSet (buffer : list Byte.byte) (i : nat) (v : value) : list Byte.byte :=
  <[i := toUint8 v]> buffer.

(** [Buffer.alloc(n)] *)
Definition Buffer_alloc (n : nat) : list Byte.byte := List.repeat Byte.x00 n.

(** *** Conversion functions *)

(** The [for] loop of [numericStringToBuffer]; the string length bounds
    the number of rounds. *)
Fixpoint fillBuffer (fuel : nat) (str : string) (radix : Z) (nb i cnt : nat)
    (buffer : list Byte.byte) : list Byte.byte :=
  match fuel with
  | O => buffer
  | S fuel =>
      if (i <? String.length str)%nat then
        fillBuffer fuel str radix nb (i + nb) (S cnt)
          (bufferSet buffer cnt
             (parseIntStr (sliceStr str (- (Z.of_nat nb + Z.of_nat i)) (Some (- Z.of_nat i)))
                          (Some radix)))
      else buffer
  end.

(** [numericStringToBuffer(str)]; [Buffer.alloc] drops the fraction of
    the size it is given. *)
Definition numericStringToBuffer (str : string) : result (list Byte.byte) :=
  let* p :=
    if startsWith str "0x" then Ok (dropStr 2 str, 16, 2%nat)
    else if startsWith str "b" then Ok (dropStr 1 str, 2, 8%nat)
    else Err (Thrown (VStr ("Invalid value " ++ str
           ++ ". Only hexadecimal and decimal values are managed by this function"))) in
  let '(str, radix, nb) := p in
  let buffer := Buffer_alloc ((String.length str + nb - 1) / nb)%nat in
  let buffer := bufferSet buffer 0 (parseIntStr (sliceStr str (- Z.of_nat nb) None) (Some radix)) in
  Ok (fillBuffer (String.length str) str radix nb nb 1 buffer).

(** *** Adding conversion functions *)

Definition nullish (v : value) : bool :=
  match v with VUndef | VNull => true | _ => false end.

(** [x.toString(args)] and [x.toInt()] as method calls. *)
Definition invoke_toString (drv : Driver) (x : value) (args : list value) : result value :=
  if nullish x then Err (TypeError "Cannot read property 'toString' of undefined")
  else call_toString drv x args.

Definition invoke_toInt (drv : Driver) (x : value) : result value :=
  if nullish x then Err (TypeError "Cannot read property 'toInt' of undefined")
  else call_toInt drv x.

Definition objectId_toDb (drv : Driver) : codec := fun data _ => new_ObjectId drv data.
Definition objectId_fromDb (drv : Driver) : codec := fun data _ => invoke_toString drv data [].

Definition int32_toDb (drv : Driver) : codec := fun data _ =>
  let* n := parseInt drv data in new_Int32 drv n.
Definition int32_fromDb : codec := fun data _ => getProp data "value".

Definition int64_toDb (drv : Driver) : codec := fun data _ =>
  match data with
  | VStr s =>
      let i64 := toLowerCase s in
      if startsWith i64 "0x" then Long_fromString drv (dropStr 2 i64) 16
      else if startsWith s "b" then Long_fromString drv (dropStr 1 i64) 2
      else Long_fromString drv i64 10
  | _ => Long_fromNumber drv data
  end.

Definition int64_fromDb (drv : Driver) : codec := fun data _ => invoke_toInt drv data.

(** [buf.writeBigInt64LE(BigInt(n))] on a fresh 16-byte buffer. *)
Fixpoint littleEndian (count : nat) (n : Z) : list Byte.byte :=
  match count with
  | O => []
  | S count => toUint8 (VNum n) :: littleEndian count (n / 256)
  end.

(** The digits of a numeral in groups of three, as the message of a
    RangeError prints a large number: [12_345_678]. *)
Fixpoint separate (digits : string) (n : nat) : string :=
  match digits with
  | EmptyString => EmptyString
  | String c rest =>
      String c (if ((1 <? n) && ((n - 1) mod 3 =? 0))%nat
                then String "_" (separate rest (n - 1))
                else separate rest (n - 1))
  end.

Definition addNumericalSeparator (val : string) : string :=
  match val with
  | String "-" body => String "-" (separate body (String.length body))
  | _ => separate val (String.length val)
  end.

(** The message of the RangeError [ERR_OUT_OF_RANGE] that
    [writeBigInt64LE] throws for a value outside the 64-bit range. *)
Definition outOfRangeMessage (n : Z) : string :=
  "The value of " ++ dq ++ "value" ++ dq
  ++ " is out of range. It must be >= -(2n ** 63n) and < 2n ** 63n. Received "
  ++ addNumericalSeparator (pretty n) ++ "n".

Definition writeBigInt64LE (data : value) : result (list Byte.byte) :=
  match data with
  | VNum n =>
      if (- 2 ^ 63 <=? n) && (n <? 2 ^ 63)
      then Ok (littleEndian 8 n ++ Buffer_alloc 8)%list
      else Err (RangeError (outOfRangeMessage n))
  | _ =>
      Err (RangeError
             "The number NaN cannot be converted to a BigInt because it is not an integer")
  end.

Definition int128_toDb (drv : Driver) : codec := fun data _ =>
  match data with
  | VStr s =>
      let i128 := toLowerCase s in
      if startsWith i128 "0x" || startsWith i128 "b" then
        let* buf := numericStringToBuffer s in
        new_Decimal128 drv (VBuffer buf)
      else Decimal128_fromString drv i128
  | VNum _ | VNaN =>
      let* buf := writeBigInt64LE data in
      new_Decimal128 drv (VBuffer buf)
  | _ =>
      let* cn := ctorName data in
      if named cn "Buffer" then new_Decimal128 drv data
      else Err (Thrown (VStr "Unable to convert to 128bit"))
  end.

(** The first [while] of the int128 reader, with [n = i + 1]: the
    high-order zero bytes are passed over. *)
Fixpoint skipZeros (bytes : list Byte.byte) (n : nat) : nat :=
  match n with
  | O => O
  | S i =>
      match bytes !! i with
      | Some b => if Byte.eqb b Byte.x00 then skipZeros bytes i else n
      | None => skipZeros bytes i
      end
  end.

(** The second [while], again with [n = i + 1]. *)
Fixpoint hexDown (bytes : list Byte.byte) (n : nat) (str : string) : result string :=
  match n with
  | O => Ok str
  | S i =>
      match bytes !! i with
      | Some b => hexDown bytes i (str ++ padStart (toString16 (Byte.to_N b)) 2 "00")
      | None => Err (TypeError "Cannot read property 'toString' of undefined")
      end
  end.

Definition int128_fromDb (drv : Driver) : codec := fun data _ =>
  let* bytes := getProp data "bytes" in
  match bytes with
  | VUndef | VNull => Err (TypeError "Cannot read property 'length' of undefined")
  | VBuffer bs =>
      let n := skipZeros bs (List.length bs) in
      match n with
      | O => Ok (VStr "0x00")
      | _ => let* str := hexDown bs n "0x" in Ok (VStr str)
      end
  | _ => bytesOther drv data
  end.

Definition binary_toDb (drv : Driver) : codec := fun data encoding =>
  let* buf := Buffer_from drv data encoding in new_Binary drv buf.

Definition binary_fromDb (drv : Driver) : codec := fun data encoding =>
  let* buffer := getProp data "buffer" in invoke_toString drv buffer [encoding].

Definition date_toDb (drv : Driver) : codec := fun data _ =>
  if truthy data then new_Date drv data else Ok (Date_now drv).

Definition date_fromDb : codec := fun data _ => Ok data.

(** The registry after the module body has run. *)
Definition builtins (drv : Driver) : Registry :=
  addType "date" (date_toDb drv) date_fromDb
    (addType "binary" (binary_toDb drv) (binary_fromDb drv)
       (addType "int128" (int128_toDb drv) (int128_fromDb drv)
          (addType "int64" (int64_toDb drv) (int64_fromDb drv)
             (addType "int32" (int32_toDb drv) int32_fromDb
                (addType "objectId" (objectId_toDb drv) (objectId_fromDb drv)
                   emptyRegistry))))).

End Types.
Export Types.

(** ** conversion.js *)

Module Conversion.

Fixpoint mapM {A B : Type} (f : A -> result B) (xs : list A) : result (list B) :=
  match xs with
  | [] => Ok []
  | x :: rest =>
      let* y := f x in
      let* ys := mapM f rest in
      Ok (y :: ys)
  end.

Section ConvertDocument.

(** [convertValue] is [valueToDbFormat] or [dbFormatToValue];
    [originalSchema] is the schema [convertDocument] was called with. *)
Variable convertValue : value -> value -> value -> result value.
Variable originalSchema : value.

(** Lines 7-17: the [$ref] branch of [convertElement]. *)
Definition resolveSchema (schema : value) : result value :=
  let* r := getProp schema "$ref" in
  if truthy r then
    let* s := refString r in
    Ok (followRef originalSchema s)
  else Ok schema.

(** [schema && schema.properties && schema.properties[v]] *)
Definition propertyTest (schema : value) (v : string) : value :=
  andThen schema (fun s => andThen (getP s "properties") (fun ps => getP ps v)).

(** Lines 61-69: [schemaI] for position [i].  [schema.items] is a schema
    or a list of schemas, and which of the two [schema.items.constructor]
    names is read off the kind of value: a master schema is taken to have
    no key [constructor] under [items]. *)
Definition itemSchema (schema : value) (i : nat) : value :=
  if truthy (andThen schema (fun s => getP s "items")) then
    let items := getP schema "items" in
    match items with
    | VObj _ => items
    | VArr xs => if (i <? List.length xs)%nat then default VUndef (xs !! i)
                 else getP schema "additionalItems"
    | _ => VUndef
    end
  else VUndef.

(** The two cases of the [switch] that recurse. *)
Definition isComposite (cn : value) : bool := named cn "Object" || named cn "Array".

(** [convertElement(schema, data)].  Only an object or an instance has own
    properties besides its elements, so only they can answer
    [data.constructor.name] with a name of their own; an array answers
    ['Array'] and every other value the name of its class.  An object that
    passes for an array runs through the array loop with what it holds
    under [length] and under its index keys; the nested fixpoint [field]
    is the recursive call on [data[i]]. *)
Fixpoint convertElement (schema data : value) {struct data} : result value :=
  let* schema := resolveSchema schema in
  let* cn := ctorName data in
  match data with
  | VObj kvs | VInst _ kvs =>
      if named cn "Object" then
        let* ret :=
          (fix forIn (kvs : list (string * value)) (ret : list (string * value))
             : result (list (string * value)) :=
             match kvs with
             | [] => Ok ret
             | (v, dv) :: rest =>
                 let* cn := ctorName dv in
                 let* x :=
                   if isComposite cn then
                     convertElement
                       (if truthy (propertyTest schema v)
                        then getP (getP schema "properties") v else VNull) dv
                   else
                     let encoding :=
                       if truthy (propertyTest schema v)
                       then getP (getP (getP schema "properties") v) "encoding"
                       else VStr EmptyString in
                     let mongoType :=
                       if truthy (propertyTest schema v)
                       then getP (getP (getP schema "properties") v) "mongoType"
                       else VStr EmptyString in
                     convertValue dv mongoType encoding in
                 forIn rest (setKey v x ret)
             end) kvs [] in
        Ok (VObj ret)
      else if named cn "Array" then
        let* n := rounds (default VUndef (assoc "length" kvs)) in
        let* ret :=
          mapM (fun i =>
                  let di := default VUndef (assoc (pretty i) kvs) in
                  let schemaI := itemSchema schema i in
                  let* cn := ctorName di in
                  if isComposite cn then
                    (fix field (kvs : list (string * value)) : result value :=
                       match kvs with
                       | [] => Ok VUndef
                       | (k, dv) :: rest =>
                           if String.eqb (pretty i) k then convertElement schemaI dv
                           else field rest
                       end) kvs
                  else
                    let encoding :=
                      if truthy schemaI then getP schemaI "encoding" else VStr EmptyString in
                    let mongoType :=
                      if truthy schemaI then getP schemaI "mongoType" else VStr EmptyString in
                    convertValue di mongoType encoding)
               (seq 0 n) in
        Ok (VArr ret)
      else Err (JsError "This function manages directly only objects and arrays")
  | VArr xs =>
      let* ret :=
        (fix loop (xs : list value) (i : nat) (ret : list value) : result (list value) :=
           match xs with
           | [] => Ok ret
           | di :: rest =>
               let schemaI := itemSchema schema i in
               let* cn := ctorName di in
               let* x :=
                 if isComposite cn then convertElement schemaI di
                 else
                   let encoding :=
                     if truthy schemaI then getP schemaI "encoding" else VStr EmptyString in
                   let mongoType :=
                     if truthy schemaI then getP schemaI "mongoType" else VStr EmptyString in
                   convertValue di mongoType encoding in
               loop rest (S i) (ret ++ [x])%list
           end) xs 0%nat [] in
      Ok (VArr ret)
  | _ => Err (JsError "This function manages directly only objects and arrays")
  end.

End ConvertDocument.

Definition convertDocument (data schema : value)
    (convertValue : value -> value -> value -> result value) : result value :=
  if negb (truthy schema) then Ok data
  else if negb (truthy data) then Ok data
  else
    let originalSchema := schema in
    let* cn := ctorName data in
    if named cn "Array" then
      let* items := arrayItems data in
      let* ret := mapM (convertElement convertValue originalSchema schema) items in
      Ok (VArr ret)
    else convertElement convertValue originalSchema schema data.

Definition documentToDbFormat (drv : Driver) (reg : Registry) (data schema : value)
    : result value :=
  convertDocument data schema (valueToDbFormat drv reg).

Definition dbFormatToDocument (drv : Driver) (reg : Registry) (data schema : value)
    : result value :=
  convertDocument data schema (dbFormatToValue drv reg).

End Conversion.
Export Conversion.

(** ** connexion.js *)

Module Connexion.

(** The mongodb client as the module uses it.  [World] is the state of
    the driver and of the server behind it; nothing is assumed about
    the three functions. *)
Record Client (World : Type) : Type := {
  (* the own fields of [new MongoClient(url, options)] *)
  new_MongoClient : value -> value -> list (string * value);
  (* [await client.connect()] *)
  client_connect : value -> World -> result value * World;
  (* [await client.close()] *)
  client_close : value -> World -> result value * World
}.
Arguments new_MongoClient {World} _ _ _.
Arguments client_connect {World} _ _ _.
Arguments client_close {World} _ _ _.

(** The module variables [client] and [connectionStatus], the events
    [connectionEmitter] has emitted so far, and the world. *)
Record State (World : Type) : Type := {
  client : value;
  connectionStatus : string;
  emitted : list string;
  world : World
}.
Arguments client {World} _.
Arguments connectionStatus {World} _.
Arguments emitted {World} _.
Arguments world {World} _.

Section Functions.

Context {World : Type}.
Variable drv : Client World.

(** The state after the module body has run. *)
Definition loaded (w : World) : State World :=
  {| client := VInst "MongoClient" (new_MongoClient drv VUndef VUndef);
     connectionStatus := EmptyString;
     emitted := [];
     world := w |}.

(** [connect(url, options)], run to the end of the promise it returns:
    [client] is assigned before the [await], the status and the event
    follow only when [client.connect()] resolves. *)
Definition connect (url options : value) (st : State World) : result value * State World :=
  let client := VInst "MongoClient" (new_MongoClient drv url options) in
  match client_connect drv client (world st) with
  | (Ok r, w) =>
      (Ok r, {| client := client;
                connectionStatus := "connected";
                emitted := (emitted st ++ ["connected"])%list;
                world := w |})
  | (Err e, w) =>
      (Err e, {| client := client;
                 connectionStatus := connectionStatus st;
                 emitted := emitted st;
                 world := w |})
  end.

(** [disconnect()], run to the end of the promise it returns. *)
Definition disconnect (st : State World) : result value * State World :=
  match client st with
  | VUndef => (Err (TypeError "Cannot read property 'close' of undefined"), st)
  | VNull => (Err (TypeError "Cannot read property 'close' of null"), st)
  | c =>
      match client_close drv c (world st) with
      | (Ok _, w) =>
          (Ok VUndef, {| client := VNull;
                         connectionStatus := "disconnected";
                         emitted := (emitted st ++ ["disconnected"])%list;
                         world := w |})
      | (Err e, w) =>
          (Err e, {| client := client st;
                     connectionStatus := connectionStatus st;
                     emitted := emitted st;
                     world := w |})
      end
  end.

Definition getClient (st : State World) : value := client st.

Definition getConnectionStatus (st : State World) : string := connectionStatus st.

End Functions.

End Connexion.

(** ** Collection.js: the method [validateDocument] (lines 216-218) *)

Module Collection.

(** The property names every object inherits from [Object.prototype]. *)
Definition inheritedKeys : list string :=
  ["constructor"; "hasOwnProperty"; "isPrototypeOf"; "propertyIsEnumerable";
   "toLocaleString"; "toString"; "valueOf"; "__proto__";
   "__defineGetter__"; "__defineSetter__"; "__lookupGetter__"; "__lookupSetter__"].

(** [this.validationData[mode].validator]: the validator under an own
    key, [undefined] under an inherited name, and a TypeError for any
    other name, for which [this.validationData[mode]] is [undefined]. *)
Definition validatorFor (validationData : validationData) (mode : string)
    : result (option validator) :=
  if String.eqb mode "insert" then Ok (Some (validator_of (insert validationData)))
  else if String.eqb mode "update" then Ok (Some (validator_of (update validationData)))
  else if existsb (String.eqb mode) inheritedKeys then Ok None
  else Err (TypeError "Cannot read property 'validator' of undefined").

(** [validateDocument(data, mode = 'update')] of an instance whose
    [validationData] is given; [mode] is a string or left out. *)
Definition validateDocument (validationData : validationData) (data : value)
    (mode : option string) : result value :=
  let mode := default "update" mode in
  let* validator := validatorFor validationData mode in
  ValidateDocument.validateDocument data validator.

End Collection.

(** * Specification-side definitions and worked examples

    What the statements below are phrased with: the renderings and
    relations the specification speaks of, and the schemas and documents
    of the worked examples. *)

(** ** A driver to run the codecs with

    [bson1] stands in for the bson 1.x classes of the mongodb 3.5 driver
    in the worked examples: a constructor stores its argument in the
    instance ([new Int32(n)] keeps [n] in [value], [new Decimal128(buf)]
    keeps [buf] in [bytes], a [Long] keeps its low and high words), and
    [toInt] answers the low word of a [Long].  The parsers of the library
    are reduced to what the examples need. *)
Definition wrap32 (n : Z) : Z := (n + 2 ^ 31) mod 2 ^ 32 - 2 ^ 31.

Definition mkLong (n : Z) : value :=
  VInst "Long" [("_bsontype", VStr "Long"); ("low_", VNum (wrap32 n));
                ("high_", VNum (wrap32 (n / 2 ^ 32)))].

Definition bson1 : Driver := {|
  new_ObjectId := fun data =>
    match data with
    | VStr s =>
        if (String.length s =? 24)%nat
        then Ok (VInst "ObjectID" [("_bsontype", VStr "ObjectID"); ("id", VStr (toLowerCase s))])
        else Err (JsError "Argument passed in must be a string of 24 hex characters")
    | _ => Err (JsError "Argument passed in must be a string of 24 hex characters")
    end;
  new_Int32 := fun n => Ok (VInst "Int32" [("_bsontype", VStr "Int32"); ("value", n)]);
  Long_fromString := fun s radix =>
    match parseIntStr s (Some radix) with
    | VNum n => Ok (mkLong n)
    | _ => Err (JsError "number format error")
    end;
  Long_fromNumber := fun data =>
    match data with
    | VNum n => Ok (mkLong n)
    | _ => Ok (mkLong 0)
    end;
  new_Decimal128 := fun buf =>
    Ok (VInst "Decimal128" [("_bsontype", VStr "Decimal128"); ("bytes", buf)]);
  Decimal128_fromString := fun s => Err (TypeError (s ++ " not a valid Decimal128 string"));
  new_Binary := fun buf =>
    Ok (VInst "Binary" [("_bsontype", VStr "Binary"); ("buffer", buf)]);
  Buffer_from := fun data _ =>
    match data with
    | VStr s => Ok (VBuffer (list_byte_of_string s))
    | _ => Err (TypeError "The first argument must be of type string")
    end;
  new_Date := fun data =>
    match data with
    | VNum t => Ok (VDate (Some t))
    | VDate t => Ok (VDate t)
    | _ => Ok (VDate None)
    end;
  Date_now := VDate (Some 0);
  call_toString := fun x _ =>
    match x with
    | VInst "ObjectID" fields => Ok (default VUndef (assoc "id" fields))
    | VBuffer bs => Ok (VStr (string_of_list_byte bs))
    | VStr _ => Ok x
    | _ => Ok (VStr (primStr x))
    end;
  call_toInt := fun x =>
    match x with
    | VInst "Long" fields => Ok (default VUndef (assoc "low_" fields))
    | _ => Err (TypeError "data.toInt is not a function")
    end;
  stringOf := fun _ => "[object Object]";
  bytesOther := fun _ => Err (TypeError "data.bytes[i].toString is not a function")
|}.

(** ** The int128 text *)

(** The two hexadecimal digits of a byte, high nibble first. *)
Definition hexPair (b : Byte.byte) : string :=
  String (hexChar (Byte.to_N b / 16)%N)
         (String (hexChar (Byte.to_N b mod 16)%N) EmptyString).

(** A list of bytes without its leading zero bytes. *)
Fixpoint dropZeros (bs : list Byte.byte) : list Byte.byte :=
  match bs with
  | b :: rest => if Byte.eqb b Byte.x00 then dropZeros rest else bs
  | [] => []
  end.

(** The bytes of a little-endian buffer from the highest non-zero one
    down to the lowest. *)
Definition significant (bs : list Byte.byte) : list Byte.byte := dropZeros (rev bs).

(** The pairs of the bytes, one after the other. *)
Definition hexOf (bs : list Byte.byte) : string :=
  fold_right String.append EmptyString (List.map hexPair bs).

(** The rendering the specification asks for. *)
Definition int128Text (bs : list Byte.byte) : string :=
  "0x" ++ match significant bs with
          | [] => "00"
          | l => hexOf l
          end.

(** Two sixteen-byte buffers: zero, and 0x07001a2b. *)
Definition zero16 : list Byte.byte := List.repeat Byte.x00 16.

Definition sample16 : list Byte.byte :=
  [Byte.x2b; Byte.x1a; Byte.x00; Byte.x07] ++ List.repeat Byte.x00 12.

(** ** The transcoder *)

(** What the body of the [for ... in] loop stores under key [v]. *)
Definition convertField (convertValue : value -> value -> value -> result value)
    (originalSchema schema : value) (v : string) (dv : value) : result value :=
  let* cn := ctorName dv in
  if isComposite cn then
    convertElement convertValue originalSchema
      (if truthy (propertyTest schema v) then getP (getP schema "properties") v else VNull) dv
  else
    convertValue dv
      (if truthy (propertyTest schema v)
       then getP (getP (getP schema "properties") v) "mongoType" else VStr EmptyString)
      (if truthy (propertyTest schema v)
       then getP (getP (getP schema "properties") v) "encoding" else VStr EmptyString).

(** What the body of the array loop stores at a position whose item
    schema is [schemaI]. *)
Definition convertItem (convertValue : value -> value -> value -> result value)
    (originalSchema schemaI di : value) : result value :=
  let* cn := ctorName di in
  if isComposite cn then convertElement convertValue originalSchema schemaI di
  else
    convertValue di
      (if truthy schemaI then getP schemaI "mongoType" else VStr EmptyString)
      (if truthy schemaI then getP schemaI "encoding" else VStr EmptyString).





(** ** The validator front end *)



(** ** The derivation of the mode schemas *)

(** The MongolError raised with a message. *)
Definition mongolError (msg : string) : error :=
  Thrown (VInst "MongolError" [("errorType", VStr "MongolError"); ("error", VStr msg)]).


Definition policyError (path : string) : error := mongolError (policyMessage path).

(** A stand-in for [ajv.compile] in the worked examples: every schema
    compiles, to a validator that accepts every document. *)
Definition compileAny : value -> result validator :=
  fun _ => Ok (fun _ => (true, VNull)).








(** A node that declares [properties] and [required], sets
    [unmodifiableProperties] and leaves [additionalProperties] open; and
    master schemas that have it as a property and under [anyOf]. *)
Definition policyExample : value :=
  VObj [("type", VStr "object");
        ("properties", VObj [("_id", VObj [("type", VStr "string")]);
                             ("name", VObj [("type", VStr "string")])]);
        ("required", VArr [VStr "name"]);
        ("unmodifiableProperties", VStr "_id")].

Definition nestedPolicyExample : value :=
  VObj [("type", VStr "object");
        ("properties", VObj [("owner", policyExample)])].


(** The keys the loop does not copy: it rebuilds or drops them. *)
Definition rebuiltKey (key : string) : bool :=
  String.eqb key "properties" || String.eqb key "items" || String.eqb key "required"
  || String.eqb key "definitions" || String.eqb key "unmodifiableProperties".

(** What one branch of the map form contributes: its names if it is a
    list, itself if it is one name, nothing if it is absent. *)
Definition branchNames (spec : value) (branch : string) : list value :=
  if truthy (getP spec branch) then concatItems (getP spec branch) else [].

(** No name occurs twice. *)
Fixpoint uniqueNames (names : list value) : bool :=
  match names with
  | [] => true
  | x :: rest => negb (includes rest x) && uniqueNames rest
  end.

(** The example of the specification, and a specification that names
    [a] in two branches. *)
Definition requiredByMode : value :=
  VObj [("type", VStr "object");
        ("required", VObj [("upsert", VStr "a"); ("insert", VArr [VStr "b"]);
                           ("update", VArr [VStr "c"])])].

Definition requiredTwice : value :=
  VObj [("type", VStr "object");
        ("required", VObj [("upsert", VStr "a"); ("insert", VArr [VStr "a"; VStr "b"])])].

(** The example of the documentation: [_id] is unmodifiable, no
    [required] is declared. *)
Definition unmodifiableOnly : value :=
  VObj [("type", VStr "object");
        ("properties", VObj [("_id", VObj [("type", VStr "string")]);
                             ("name", VObj [("type", VStr "string")])]);
        ("unmodifiableProperties", VStr "_id");
        ("additionalProperties", VBool false)].

(** The same node with a [required] list. *)
Definition unmodifiableAndRequired : value :=
  VObj [("type", VStr "object");
        ("properties", VObj [("_id", VObj [("type", VStr "string")]);
                             ("name", VObj [("type", VStr "string")])]);
        ("required", VArr [VStr "name"]);
        ("unmodifiableProperties", VStr "_id");
        ("additionalProperties", VBool false)].

(** ** [$ref] *)

(** [clone] of an object, as a run of assignments. *)
Definition cloneEntry (kv : string * value) : string * value := (fst kv, clone (snd kv)).

(** A path of key names, joined with ['/']. *)
Fixpoint joinPath (segments : list string) : string :=
  match segments with
  | [] => EmptyString
  | [seg] => seg
  | seg :: rest => seg ++ "/" ++ joinPath rest
  end.

(** The string has no ['/']. *)
Fixpoint noSlash (s : string) : bool :=
  match s with
  | EmptyString => true
  | String c s' => negb (Ascii.eqb c "/") && noSlash s'
  end.

(** The resolution as the specification words it: the keys of the
    resolved node are merged under the node, the node's own keys win, and
    [$ref] is dropped. *)
Definition resolveOwnKeysWin (root schema : value) (ref : string) : value :=
  VObj (deleteKey "$ref" (spread (followRef root ref) schema)).

(** A master schema with a reference: the node [owner] has keys of its
    own beside [$ref]. *)
Definition refRoot : value :=
  VObj [("type", VStr "object");
        ("properties",
         VObj [("owner", VObj [("$ref", VStr "#/definitions/person");
                               ("description", VStr "the owner");
                               ("properties",
                                VObj [("age", VObj [("mongoType", VStr "int64")])])])]);
        ("definitions",
         VObj [("person",
                VObj [("type", VStr "object");
                      ("properties",
                       VObj [("age", VObj [("mongoType", VStr "int32")])])])])].

Definition refNode : value := getP (getP refRoot "properties") "owner".

(** ** The round trip *)

(** [dbFormatToDocument(documentToDbFormat(d, s), s)] *)
Definition roundTrip (drv : Driver) (d s : value) : result value :=
  let* stored := documentToDbFormat drv (builtins drv) d s in
  dbFormatToDocument drv (builtins drv) stored s.

(** The schema of the two examples of the specification. *)
Definition taggedSchema : value :=
  VObj [("type", VStr "object");
        ("properties", VObj [("id", VObj [("type", VStr "string");
                                          ("mongoType", VStr "int128")]);
                             ("n", VObj [("mongoType", VStr "int32")])])].

(** The two examples of the specification in one document. *)
Definition tagged : value := VObj [("id", VStr "0x1a2b"); ("n", VStr "42")].

(** The same document with a sub-document the schema does not describe. *)
Definition taggedWithExtra : value :=
  VObj [("id", VStr "0x1a2b"); ("n", VStr "42"); ("meta", VObj [("note", VStr "x")])].

(** The same document with the hexadecimal prefix in upper case. *)
Definition taggedUpperCase : value := VObj [("id", VStr "0X1A2B"); ("n", VStr "42")].

(** ** The nodes a derivation visits, and its budget *)

(** The names [properties.indexOf(property) >= 0] lets through: the keys
    of [properties], without the unmodifiable ones. *)
Definition retainedProperties (mode : string) (schema : value) : list string :=
  if truthy (getP schema "properties") then
    if truthy (getP schema "unmodifiableProperties") then
      List.filter
        (fun p => negb (includes
                          (unmodifiableFor mode (getP schema "unmodifiableProperties"))
                          (VStr p)))
        (ownKeys (getP schema "properties"))
    else ownKeys (getP schema "properties")
  else [].

(** [visits root mode a b]: deriving the node [a] for [mode] derives the
    node [b] on the way, unless an error stops the derivation before.  The
    derivation goes from a node, once resolved, into its retained
    properties and into its items. *)
Inductive visits (root : value) (mode : string) : value -> value -> Prop :=
| visits_self (a : value) : visits root mode a a
| visits_property (a s b : value) (p : string) :
    resolveRef root a = Ok s ->
    In "properties" (ownKeys s) ->
    In p (ownKeys (getP s "properties")) ->
    existsb (String.eqb p) (retainedProperties mode s) = true ->
    visits root mode (getP (getP s "properties") p) b ->
    visits root mode a b
| visits_tuple_item (a s b item : value) :
    resolveRef root a = Ok s ->
    In "items" (ownKeys s) ->
    In item (elementsOf (getP s "items")) ->
    visits root mode item b ->
    visits root mode a b
| visits_items (a s b : value) :
    resolveRef root a = Ok s ->
    In "items" (ownKeys s) ->
    instanceofArray (getP s "items") = false ->
    visits root mode (getP s "items") b ->
    visits root mode a b.



(** [below r1 r2]: [r1] is the answer for a smaller budget than [r2];
    either the budget was spent or the answers agree. *)
Definition below {A : Type} (r1 r2 : result A) : Prop :=
  r1 = Err OutOfFuel \/ r1 = r2.

(** The bytes whose pairs the text consists of, highest first. *)
Definition textBytes (bs : list Byte.byte) : list Byte.byte :=
  match significant bs with
  | [] => [Byte.x00]
  | l => l
  end.

(** ** Enumeration order and plain data *)

(** [k] is enumerated after the keys [seen] when it is assigned to an
    object that has them: it is new, and if it is an index key every key
    before it is a smaller index. *)
Definition entersLast (seen : list string) (k : string) : bool :=
  negb (existsb (String.eqb k) seen)
  && match indexOfKey k with
     | Some i => forallb (fun k' => match indexOfKey k' with
                                    | Some j => (j <? i)%nat
                                    | None => false
                                    end) seen
     | None => true
     end.

(** The keys are in the order in which JavaScript enumerates the own
    keys of an object: no key twice, the index keys first and ascending.
    The keys of every object of a running program are. *)
Fixpoint enumerationOrder (seen keys : list string) : bool :=
  match keys with
  | [] => true
  | k :: rest => entersLast seen k && enumerationOrder (seen ++ [k]) rest
  end.

(** Every object inside the value has its keys in enumeration order. *)
Fixpoint orderedKeys (v : value) : bool :=
  match v with
  | VArr xs => forallb orderedKeys xs
  | VObj kvs =>
      enumerationOrder [] (List.map fst kvs)
      && forallb (fun kv => orderedKeys (snd kv)) kvs
  | _ => true
  end.

(** Plain data: primitives, dates, and arrays and objects of plain data
    with their keys in enumeration order; no instance of a class and no
    Buffer. *)
Fixpoint plainData (v : value) : bool :=
  match v with
  | VArr xs => forallb plainData xs
  | VObj kvs =>
      enumerationOrder [] (List.map fst kvs)
      && forallb (fun kv => plainData (snd kv)) kvs
  | VBuffer _ | VInst _ _ => false
  | _ => true
  end.

(** ** Keys that reach into the workings of an object *)

(** An own property [constructor] is what [x.constructor] reads, and an
    assignment to [__proto__] replaces the prototype of an object instead
    of adding a key. *)
Definition reservedKey (k : string) : bool :=
  String.eqb k "constructor" || String.eqb k "__proto__".

(** No field of the object has such a name. *)
Definition plainKeys (kvs : list (string * value)) : bool :=
  forallb (fun kv => negb (reservedKey (fst kv))) kvs.

(** ** The leaves of a document *)

(** What the [switch] of the transcoder sends to [convertValue]: a value
    that has a constructor, other than [Object] and [Array]. *)
Definition isLeaf (v : value) : bool :=
  match ctorName v with
  | Ok cn => negb (isComposite cn)
  | Err _ => false
  end.

(** A regular document: no object inside it has a field [constructor] or
    [__proto__], and every instance of a class inside it is a leaf. *)
Fixpoint regular (v : value) : bool :=
  match v with
  | VArr xs => forallb regular xs
  | VObj kvs => forallb (fun kv => negb (reservedKey (fst kv)) && regular (snd kv)) kvs
  | VInst _ _ => isLeaf v
  | _ => true
  end.

(** [rewritesLeaves convertValue data out]: [out] is [data] with every
    leaf replaced by what [convertValue] answered for it, under some type
    and encoding; the keys, their order, the array lengths and the
    nesting are those of [data]. *)
#[warnings="-register-all"]
Inductive rewritesLeaves (convertValue : value -> value -> value -> result value)
    : value -> value -> Prop :=
| rewrites_leaf (d y mongoType encoding : value) :
    isLeaf d = true ->
    convertValue d mongoType encoding = Ok y ->
    rewritesLeaves convertValue d y
| rewrites_object (kvs : list (string * value)) (ys : list value) :
    Forall2 (rewritesLeaves convertValue) (List.map snd kvs) ys ->
    rewritesLeaves convertValue (VObj kvs) (VObj (combine (List.map fst kvs) ys))
| rewrites_array (xs ys : list value) :
    Forall2 (rewritesLeaves convertValue) xs ys ->
    rewritesLeaves convertValue (VArr xs) (VArr ys).

(** ** Numerals *)

(** The eight binary digits of a byte, highest bit first. *)
Definition bitChar (b : bool) : ascii := if b then "1"%char else "0"%char.

Definition binOctet (b : Byte.byte) : string :=
  string_of_list_ascii
    (List.map (fun i => bitChar (N.testbit (Byte.to_N b) i)) [7; 6; 5; 4; 3; 2; 1; 0]%N).

(** The renderings of the bytes, one after the other; [hexOf] is
    [textOf hexPair]. *)
Definition textOf (render : Byte.byte -> string) (bs : list Byte.byte) : string :=
  fold_right String.append EmptyString (List.map render bs).

Definition binOf (bs : list Byte.byte) : string := textOf binOctet bs.


Definition beValue (bs : list Byte.byte) : Z :=
  fold_left (fun acc b => 256 * acc + Z.of_N (Byte.to_N b)) bs 0.

(** The first digit of the decimal numeral of a positive number. *)
Definition leading (c : ascii) : Prop :=
  In c ["1"; "2"; "3"; "4"; "5"; "6"; "7"; "8"; "9"]%char.

(** A schema whose one property [k] is a date. *)
Definition dateSchema (k : string) : value :=
  VObj [("type", VStr "object");
        ("properties", VObj [(k, VObj [("mongoType", VStr "date")])])].

(** ** Schemas without references, and a recursive one *)

(** No object inside the value has a [$ref] key. *)
Fixpoint refFree (v : value) : bool :=
  match v with
  | VArr xs => forallb refFree xs
  | VObj kvs | VInst _ kvs =>
      forallb (fun kv => negb (String.eqb (fst kv) "$ref") && refFree (snd kv)) kvs
  | _ => true
  end.

(** How deep the values that have own properties are nested: an object
    or an array counts one level above its deepest member, a string or a
    Buffer one level. *)
Fixpoint depth (v : value) : nat :=
  match v with
  | VArr xs => S (fold_right (fun x d => Nat.max (depth x) d) 0%nat xs)
  | VObj kvs | VInst _ kvs =>
      S (fold_right (fun kv d => Nat.max (depth (snd kv)) d) 0%nat kvs)
  | VStr _ | VBuffer _ => 1%nat
  | _ => 0%nat
  end.

(** A linked list: the node [definitions.node] has a property [next]
    that refers to the node again. *)
Definition linkedList : value :=
  VObj [("$ref", VStr "#/definitions/node");
        ("definitions",
         VObj [("node",
                VObj [("type", VStr "object");
                      ("properties",
                       VObj [("value", VObj [("type", VStr "number")]);
                             ("next", VObj [("$ref", VStr "#/definitions/node")])])])])].

(** A node whose [$ref] names a definition the master schema does not
    have. *)
Definition danglingNode : value :=
  VObj [("type", VStr "string"); ("$ref", VStr "#/definitions/missing")].

(** ** Schemas without extensions *)

(** The keys with which the derivation extends JSON Schema, and [$ref]. *)
Definition extensionKey (k : string) : bool :=
  String.eqb k "$ref" || String.eqb k "definitions"
  || String.eqb k "unmodifiableProperties".

(** A schema that uses none of the extensions: an object with its keys in
    enumeration order, without [$ref], [definitions] and
    [unmodifiableProperties], whose [required] is a list, whose
    [properties] is an object of such schemas, whose [items] is such a
    schema or a list of them, and whose other keys hold plain data. *)
Fixpoint plainSchema (v : value) : bool :=
  match v with
  | VObj kvs =>
      enumerationOrder [] (List.map fst kvs)
      && forallb
           (fun kv =>
              if String.eqb (fst kv) "properties" then
                match snd kv with
                | VObj ps =>
                    enumerationOrder [] (List.map fst ps)
                    && forallb (fun q => plainSchema (snd q)) ps
                | _ => false
                end
              else if String.eqb (fst kv) "items" then
                match snd kv with
                | VArr xs => forallb plainSchema xs
                | _ => plainSchema (snd kv)
                end
              else if String.eqb (fst kv) "required" then
                match snd kv with
                | VArr _ => true
                | _ => false
                end
              else negb (extensionKey (fst kv)) && plainData (snd kv))
           kvs
  | _ => false
  end.

(** What [plainSchema] asks of one entry of a node. *)
Definition plainEntry (kv : string * value) : bool :=
  if String.eqb (fst kv) "properties" then
    match snd kv with
    | VObj ps =>
        enumerationOrder [] (List.map fst ps)
        && forallb (fun q => plainSchema (snd q)) ps
    | _ => false
    end
  else if String.eqb (fst kv) "items" then
    match snd kv with
    | VArr xs => forallb plainSchema xs
    | _ => plainSchema (snd kv)
    end
  else if String.eqb (fst kv) "required" then
    match snd kv with
    | VArr _ => true
    | _ => false
    end
  else negb (extensionKey (fst kv)) && plainData (snd kv).

(** ** Runs of [connexion.js] *)

(** The calls a program makes to the module, and the state they leave
    when each promise is awaited before the next call. *)
Inductive request : Type :=
| Connect (url options : value)
| Disconnect.

Definition serve {World : Type} (drv : Connexion.Client World)
    (st : Connexion.State World) (r : request) : Connexion.State World :=
  match r with
  | Connect url options => snd (Connexion.connect drv url options st)
  | Disconnect => snd (Connexion.disconnect drv st)
  end.

Definition reached {World : Type} (drv : Connexion.Client World)
    (requests : list request) (w : World) : Connexion.State World :=
  fold_left (serve drv) requests (Connexion.loaded drv w).

(** What every reachable state satisfies. *)
Definition settled {World : Type} (st : Connexion.State World) : Prop :=
  Connexion.connectionStatus st = List.last (Connexion.emitted st) EmptyString
  /\ Connexion.client st <> VUndef
  /\ (Connexion.client st = VNull -> Connexion.connectionStatus st = "disconnected").



(** * Properties *)

(** ** Objects as association lists *)

Module ObjectFacts.

Lemma eqb_sym_str (a b : string) : String.eqb a b = String.eqb b a.
Proof. apply String.eqb_sym. Qed.

Lemma assoc_app {A : Type} (k : string) (l1 l2 : list (string * A)) :
  assoc k (l1 ++ l2) = match assoc k l1 with Some v => Some v | None => assoc k l2 end.
Proof.
  induction l1 as [|[k' v'] l1 IH]; [reflexivity|].
  simpl. destruct (String.eqb k k'); [reflexivity | exact IH].
Qed.

Lemma assoc_replaceKey (k k' : string) (v : value) (l : list (string * value)) :
  assoc k l <> None ->
  assoc k' (replaceKey k v l) = if String.eqb k' k then Some v else assoc k' l.
Proof.
  induction l as [|[k0 v0] l IH]; intros H; [now destruct H|].
  simpl in *. destruct (String.eqb k k0) eqn:E.
  - apply String.eqb_eq in E. subst k0. simpl.
    destruct (String.eqb k' k); reflexivity.
  - simpl. destruct (String.eqb k' k0) eqn:E0.
    + apply String.eqb_eq in E0. subst k0.
      rewrite eqb_sym_str, E. reflexivity.
    + now apply IH.
Qed.

(** Reading a key back after [obj[k] = v] entered a new index key. *)
Lemma assoc_insertIndexKey_fresh (i : nat) (k k' : string) (v : value)
    (l : list (string * value)) :
  assoc k l = None ->
  assoc k' (insertIndexKey i k v l) = if String.eqb k' k then Some v else assoc k' l.
Proof.
  induction l as [|[k0 v0] l IH]; intros Hfresh; [simpl; now destruct (String.eqb k' k)|].
  simpl in Hfresh. destruct (String.eqb k k0) eqn:Ek; [discriminate|].
  simpl. destruct (indexOfKey k0) as [j|]; [destruct (j <? i)%nat|]; simpl;
    try (destruct (String.eqb k' k); reflexivity).
  destruct (String.eqb k' k0) eqn:E0.
  - destruct (String.eqb k' k) eqn:E; [|reflexivity].
    apply String.eqb_eq in E, E0. subst. now rewrite String.eqb_refl in Ek.
  - now apply IH.
Qed.

Lemma assoc_setKey (k k' : string) (v : value) (l : list (string * value)) :
  assoc k' (setKey k v l) = if String.eqb k' k then Some v else assoc k' l.
Proof.
  unfold setKey. destruct (assoc k l) as [v0|] eqn:E.
  - apply assoc_replaceKey. now rewrite E.
  - destruct (indexOfKey k) as [i|].
    + now apply assoc_insertIndexKey_fresh.
    + rewrite assoc_app. simpl.
      destruct (String.eqb k' k) eqn:E'.
      * apply String.eqb_eq in E'. subst k'. now rewrite E.
      * now destruct (assoc k' l).
Qed.

Lemma assoc_deleteKey (d k : string) (l : list (string * value)) :
  assoc k (deleteKey d l) = if String.eqb k d then None else assoc k l.
Proof.
  induction l as [|[k0 v0] l IH]; [simpl; now destruct (String.eqb k d)|].
  unfold deleteKey in *. simpl. destruct (String.eqb d k0) eqn:E; simpl.
  - apply String.eqb_eq in E. subst k0. rewrite IH.
    destruct (String.eqb k d); reflexivity.
  - destruct (String.eqb k k0) eqn:E0.
    + apply String.eqb_eq in E0. subst k0. rewrite eqb_sym_str, E. reflexivity.
    + exact IH.
Qed.

(** The value a run of assignments leaves under a key: the last one
    assigned, or what was there before. *)
Lemma assoc_fold_setKey (k : string) (entries : list (string * value)) :
  forall acc,
    assoc k (fold_left (fun acc kv => setKey (fst kv) (snd kv) acc) entries acc)
    = match assoc k (rev entries) with Some v => Some v | None => assoc k acc end.
Proof.
  induction entries as [|[k0 v0] entries IH]; intros acc; [reflexivity|].
  simpl. rewrite IH, assoc_app, assoc_setKey. simpl.
  destruct (assoc k (rev entries)); [reflexivity|].
  destruct (String.eqb k k0); reflexivity.
Qed.

Lemma assoc_None_notin {A : Type} (k : string) (l : list (string * A)) :
  ~ In k (List.map fst l) -> assoc k l = None.
Proof.
  induction l as [|[k0 v0] l IH]; intros H; [reflexivity|].
  simpl in *. destruct (String.eqb k k0) eqn:E.
  - apply String.eqb_eq in E. subst. exfalso. apply H. now left.
  - apply IH. intros Hin. apply H. now right.
Qed.

Lemma assoc_Some_in {A : Type} (k : string) (v : A) (l : list (string * A)) :
  assoc k l = Some v -> In (k, v) l.
Proof.
  induction l as [|[k0 v0] l IH]; [discriminate|].
  simpl. destruct (String.eqb k k0) eqn:E.
  - apply String.eqb_eq in E. intros H. inversion H. subst. now left.
  - intros H. right. now apply IH.
Qed.

(** With distinct keys the last binding of a key is the first one. *)
Lemma assoc_rev {A : Type} (k : string) (l : list (string * A)) :
  List.NoDup (List.map fst l) -> assoc k (rev l) = assoc k l.
Proof.
  induction l as [|[k0 v0] l IH]; intros H; [reflexivity|].
  inversion H as [|? ? Hnotin Hnodup]; subst.
  simpl. rewrite assoc_app, IH by exact Hnodup. simpl.
  destruct (String.eqb k k0) eqn:E.
  - apply String.eqb_eq in E. subst k0. now rewrite assoc_None_notin.
  - now destruct (assoc k l).
Qed.

End ObjectFacts.
Import ObjectFacts.

(** ** The int128 reader ([types.js], lines 151-165) *)

Module Int128Spec.

Lemma padStart_hexPair (b : Byte.byte) :
  padStart (toString16 (Byte.to_N b)) 2 "00" = hexPair b.
Proof. destruct b; vm_compute; reflexivity. Qed.

Lemma append_cons (c : ascii) (a b : string) :
  (String c a ++ b)%string = String c (a ++ b).
Proof. reflexivity. Qed.

Lemma append_nil_r (s : string) : (s ++ EmptyString)%string = s.
Proof. induction s as [|c s IH]; [reflexivity | now rewrite append_cons, IH]. Qed.

Lemma append_assoc (a b c : string) : ((a ++ b) ++ c = a ++ (b ++ c))%string.
Proof.
  induction a as [|ch a IH]; [reflexivity|].
  now rewrite !append_cons, IH.
Qed.

Lemma hexOf_cons (b : Byte.byte) (l : list Byte.byte) :
  hexOf (b :: l) = (hexPair b ++ hexOf l)%string.
Proof. reflexivity. Qed.

Lemma hexDown_take (bs : list Byte.byte) (n : nat) :
  (n <= List.length bs)%nat ->
  forall str, hexDown bs n str = Ok (str ++ hexOf (rev (take n bs))).
Proof.
  induction n as [|i IH]; intros Hn str.
  - rewrite take_0. simpl. change (hexOf []) with EmptyString.
    now rewrite append_nil_r.
  - destruct (lookup_lt_is_Some_2 bs i) as [b Hb]; [lia|].
    simpl. rewrite Hb. rewrite IH by lia.
    rewrite (take_S_r _ _ _ Hb), rev_app_distr. simpl rev. simpl app.
    rewrite padStart_hexPair, hexOf_cons.
    now rewrite append_assoc.
Qed.

Lemma skipZeros_take (bs : list Byte.byte) (n : nat) :
  (n <= List.length bs)%nat ->
  rev (take (skipZeros bs n) bs) = dropZeros (rev (take n bs))
  /\ (skipZeros bs n <= n)%nat.
Proof.
  induction n as [|i IH]; intros Hn.
  - simpl. split; [reflexivity | lia].
  - destruct (lookup_lt_is_Some_2 bs i) as [b Hb]; [lia|].
    destruct IH as [IH1 IH2]; [lia|].
    simpl. rewrite Hb.
    rewrite (take_S_r _ _ _ Hb), rev_app_distr. simpl.
    destruct (Byte.eqb b Byte.x00) eqn:E.
    + split; [exact IH1 | lia].
    + rewrite (take_S_r _ _ _ Hb), rev_app_distr. simpl. split; [reflexivity | lia].
Qed.

Lemma append_length (a b : string) :
  String.length (a ++ b) = (String.length a + String.length b)%nat.
Proof.
  induction a as [|c a IH]; [reflexivity|].
  rewrite append_cons. simpl. now rewrite IH.
Qed.

Lemma hexOf_length (l : list Byte.byte) :
  String.length (hexOf l) = (2 * List.length l)%nat.
Proof.
  induction l as [|b l IH]; [reflexivity|].
  rewrite hexOf_cons, append_length, IH. simpl. lia.
Qed.

End Int128Spec.
Import Int128Spec.

Lemma int128_fromDb_buffer (drv : Driver) (data encoding : value) (bs : list Byte.byte) :
  getP data "bytes" = VBuffer bs ->
  int128_fromDb drv data encoding = Ok (VStr (int128Text bs)).
Proof.
  intros Hbytes.
  assert (Hdata : getProp data "bytes" = Ok (VBuffer bs)).
  { destruct data; simpl in *; try discriminate; now rewrite <- Hbytes. }
  unfold int128_fromDb. rewrite Hdata. simpl bind.
  destruct (skipZeros_take bs (List.length bs)) as [H1 H2]; [lia|].
  rewrite firstn_all in H1.
  unfold int128Text, significant. rewrite <- H1.
  destruct (skipZeros bs (List.length bs)) as [|k] eqn:Ek.
  - rewrite take_0. reflexivity.
  - rewrite hexDown_take by lia. simpl bind.
    destruct (lookup_lt_is_Some_2 bs k) as [b Hb]; [lia|].
    rewrite (take_S_r _ _ _ Hb), rev_app_distr. reflexivity.
Qed.

Lemma significant_zero (bs : list Byte.byte) :
  Forall (fun b => b = Byte.x00) bs -> significant bs = [].
Proof.
  intros Hz. unfold significant. apply Forall_rev in Hz.
  induction Hz as [|b l Hb _ IH]; [reflexivity|].
  simpl. subst b. exact IH.
Qed.

(** C7.  On a storage value whose [bytes] are a buffer [bs] (sixteen bytes
    for a Decimal128; the statement holds at every length), the int128 reader
    answers ["0x"] followed by the two-digit hexadecimal rendering of the
    bytes from the highest non-zero byte down to byte 0; when every byte
    is zero it answers exactly ["0x00"].  So the high-order zero bytes are
    stripped and at least one byte pair is always emitted: the text has
    [2 + 2 * max 1 k] characters, [k] the number of bytes kept. *)
Theorem int128_fromDb_renders (drv : Driver) (data encoding : value) (bs : list Byte.byte) :
  getP data "bytes" = VBuffer bs ->
  int128_fromDb drv data encoding = Ok (VStr (int128Text bs))
  /\ (Forall (fun b => b = Byte.x00) bs ->
      int128_fromDb drv data encoding = Ok (VStr "0x00"))
  /\ String.length (int128Text bs)
     = (2 + 2 * Nat.max 1 (List.length (significant bs)))%nat.
Proof.
  intros Hbytes. split; [|split].
  - now apply int128_fromDb_buffer.
  - intros Hz. rewrite (int128_fromDb_buffer _ _ _ _ Hbytes).
    unfold int128Text. now rewrite significant_zero.
  - unfold int128Text. destruct (significant bs) as [|b l] eqn:E.
    + reflexivity.
    + rewrite append_length, hexOf_length. simpl. lia.
Qed.

Lemma int128_fromDb_renders_witness :
  (int128_fromDb bson1
     (VInst "Decimal128" [("_bsontype", VStr "Decimal128"); ("bytes", VBuffer zero16)])
     VUndef = Ok (VStr "0x00"))
  /\ (int128_fromDb bson1
        (VInst "Decimal128" [("_bsontype", VStr "Decimal128"); ("bytes", VBuffer sample16)])
        VUndef = Ok (VStr "0x07001a2b")).
Proof.
  split.
  - exact (proj1 (int128_fromDb_renders bson1
             (VInst "Decimal128" [("_bsontype", VStr "Decimal128"); ("bytes", VBuffer zero16)])
             VUndef zero16 eq_refl)).
  - exact (proj1 (int128_fromDb_renders bson1
             (VInst "Decimal128" [("_bsontype", VStr "Decimal128"); ("bytes", VBuffer sample16)])
             VUndef sample16 eq_refl)).
Defined.

(** ** Reading the int128 text back *)

Module Int128Text.

Lemma hexOf_app (l1 l2 : list Byte.byte) :
  hexOf (l1 ++ l2)%list = (hexOf l1 ++ hexOf l2)%string.
Proof.
  induction l1 as [|b l1 IH]; [reflexivity|].
  simpl app. now rewrite !hexOf_cons, IH, append_assoc.
Qed.

Lemma substring_pair (l1 l2 : list Byte.byte) (b : Byte.byte) :
  String.substring (2 * List.length l1) 2 (hexOf (l1 ++ b :: l2)%list) = hexPair b.
Proof.
  induction l1 as [|a l1 IH].
  - simpl app. rewrite hexOf_cons. unfold hexPair. rewrite !append_cons. simpl.
    now destruct (EmptyString ++ hexOf l2)%string.
  - simpl app. rewrite hexOf_cons. unfold hexPair at 1. rewrite !append_cons.
    replace (2 * List.length (a :: l1))%nat with (S (S (2 * List.length l1))) by (simpl; lia).
    simpl String.substring. exact IH.
Qed.

Lemma byte_of_pair (b : Byte.byte) : toUint8 (parseIntStr (hexPair b) (Some 16)) = b.
Proof. destruct b; vm_compute; reflexivity. Qed.

(** The two characters that [str.slice(-(2 + 2k), -2k)] cuts out of the
    text of the bytes [r], written from the highest byte down: those of
    byte [k]. *)
Lemma slice_pair (r : list Byte.byte) (k : nat) (b : Byte.byte) :
  r !! k = Some b ->
  sliceStr (hexOf (rev r)) (- (Z.of_nat 2 + Z.of_nat (2 * k)))
           (if (k =? 0)%nat then None else Some (- Z.of_nat (2 * k)))
  = hexPair b.
Proof.
  intros Hk.
  pose proof (lookup_lt_Some _ _ _ Hk) as Hlt.
  assert (Hr : rev r = (rev (drop (S k) r) ++ b :: rev (take k r))%list).
  { rewrite <- (take_drop_middle r k b Hk) at 1.
    rewrite rev_app_distr. simpl. now rewrite <- app_assoc. }
  assert (Hlen : List.length (rev (drop (S k) r)) = (List.length r - S k)%nat).
  { now rewrite length_rev, length_drop. }
  unfold sliceStr. rewrite hexOf_length, length_rev.
  assert (Ha : clampPos (Z.of_nat (2 * List.length r)) (- (Z.of_nat 2 + Z.of_nat (2 * k)))
               = (2 * (List.length r - S k))%nat).
  { unfold clampPos.
    destruct (Z.ltb_spec (- (Z.of_nat 2 + Z.of_nat (2 * k))) 0); lia. }
  rewrite Ha.
  assert (Hb : (match (if (k =? 0)%nat then None else Some (- Z.of_nat (2 * k))) with
                | Some t => clampPos (Z.of_nat (2 * List.length r)) t
                | None => Z.to_nat (Z.of_nat (2 * List.length r))
                end - 2 * (List.length r - S k))%nat = 2%nat).
  { destruct (Nat.eqb_spec k 0) as [->|Hk0].
    - lia.
    - unfold clampPos. destruct (Z.ltb_spec (- Z.of_nat (2 * k)) 0); lia. }
  rewrite Hb, Hr, <- Hlen. apply substring_pair.
Qed.

Lemma fillBuffer_round (fuel : nat) (str : string) (radix : Z) (nb i cnt : nat)
    (buffer : list Byte.byte) :
  fillBuffer (S fuel) str radix nb i cnt buffer
  = if (i <? String.length str)%nat then
      fillBuffer fuel str radix nb (i + nb) (S cnt)
        (bufferSet buffer cnt
           (parseIntStr (sliceStr str (- (Z.of_nat nb + Z.of_nat i)) (Some (- Z.of_nat i)))
                        (Some radix)))
    else buffer.
Proof. reflexivity. Qed.

Lemma fillBuffer_reads (r : list Byte.byte) :
  forall fuel k,
    (1 <= k <= List.length r)%nat -> (List.length r - k <= fuel)%nat ->
    fillBuffer fuel (hexOf (rev r)) 16 2 (2 * k) k
               (take k r ++ List.repeat Byte.x00 (List.length r - k))%list
    = r.
Proof.
  assert (Hdone : (take (List.length r) r
                    ++ List.repeat Byte.x00 (List.length r - List.length r))%list = r).
  { rewrite Nat.sub_diag, firstn_all. apply app_nil_r. }
  induction fuel as [|fuel IH]; intros k Hk Hfuel.
  - assert (k = List.length r) by lia. subst k. exact Hdone.
  - rewrite fillBuffer_round, hexOf_length, length_rev.
    destruct (Nat.ltb_spec (2 * k) (2 * List.length r)) as [Hlt|Hge].
    + destruct (lookup_lt_is_Some_2 r k) as [b Hb]; [lia|].
      pose proof (slice_pair r k b Hb) as Hslice.
      destruct (Nat.eqb_spec k 0) as [->|_]; [lia|].
      rewrite Hslice. unfold bufferSet. rewrite byte_of_pair.
      replace (2 * k + 2)%nat with (2 * S k)%nat by lia.
      rewrite insert_app_r_alt by (rewrite length_take; lia).
      rewrite length_take, Nat.min_l, Nat.sub_diag by lia.
      replace (List.length r - k)%nat with (S (List.length r - S k)) by lia.
      simpl List.repeat.
      replace (take k r ++ <[0%nat:=b]> (Byte.x00 :: List.repeat Byte.x00 (List.length r - S k)))%list
        with (take (S k) r ++ List.repeat Byte.x00 (List.length r - S k))%list.
      * apply IH; lia.
      * rewrite (take_S_r _ _ _ Hb), <- app_assoc. reflexivity.
    + assert (k = List.length r) by lia. subst k. exact Hdone.
Qed.

Lemma startsWith_0x (body : string) : startsWith ("0x" ++ body) "0x" = true.
Proof. destruct body; reflexivity. Qed.

Lemma numericStringToBuffer_hex (body : string) :
  numericStringToBuffer ("0x" ++ body)
  = Ok (fillBuffer (String.length body) body 16 2 2 1
          (bufferSet (Buffer_alloc ((String.length body + 2 - 1) / 2)) 0
             (parseIntStr (sliceStr body (- Z.of_nat 2) None) (Some 16)))).
Proof. unfold numericStringToBuffer. rewrite startsWith_0x. reflexivity. Qed.

(** The text of the bytes [r], highest byte first, parses to [r]. *)
Lemma numericStringToBuffer_hexOf (r : list Byte.byte) :
  r <> [] -> numericStringToBuffer ("0x" ++ hexOf (rev r)) = Ok r.
Proof.
  intros Hne. rewrite numericStringToBuffer_hex, hexOf_length, length_rev.
  destruct r as [|b r']; [now destruct Hne|].
  set (r := b :: r') in *.
  assert (Hdiv : ((2 * List.length r + 2 - 1) / 2)%nat = List.length r).
  { symmetry. apply (Nat.div_unique _ 2 _ 1); lia. }
  rewrite Hdiv. f_equal.
  pose proof (slice_pair r 0 b eq_refl) as Hslice. simpl Nat.eqb in Hslice. cbv iota in Hslice.
  change (- (Z.of_nat 2 + Z.of_nat (2 * 0))) with (- Z.of_nat 2) in Hslice.
  rewrite Hslice. unfold bufferSet. rewrite byte_of_pair.
  replace (<[0%nat:=b]> (Buffer_alloc (List.length r)))
    with (take 1 r ++ List.repeat Byte.x00 (List.length r - 1))%list
    by (subst r; simpl; now rewrite Nat.sub_0_r).
  apply (fillBuffer_reads r (2 * List.length r) 1); simpl; lia.
Qed.

Lemma dropZeros_head (xs : list Byte.byte) (b : Byte.byte) (t : list Byte.byte) :
  dropZeros xs = b :: t -> Byte.eqb b Byte.x00 = false.
Proof.
  induction xs as [|x xs IH]; [discriminate|].
  simpl. destruct (Byte.eqb x Byte.x00) eqn:E; [exact IH|].
  intros H. inversion H. now subst.
Qed.

Lemma int128Text_body (bs : list Byte.byte) :
  int128Text bs = ("0x" ++ hexOf (textBytes bs))%string.
Proof. unfold int128Text, textBytes. now destruct (significant bs). Qed.

End Int128Text.
Import Int128Text.

(** The text the int128 reader produces is a fixed point of the round
    trip: written back as an int128 and read again it is the same text.
    [new Decimal128(buf)] is taken to keep [buf] under [bytes]. *)
Lemma int128_text_is_stable (drv : Driver) (data encoding : value) (bs : list Byte.byte) :
  (forall buf, exists stored,
      new_Decimal128 drv (VBuffer buf) = Ok stored /\ getP stored "bytes" = VBuffer buf) ->
  getP data "bytes" = VBuffer bs ->
  exists text stored,
    int128_fromDb drv data encoding = Ok (VStr text)
    /\ int128_toDb drv (VStr text) encoding = Ok stored
    /\ int128_fromDb drv stored encoding = Ok (VStr text).
Proof.
  intros Hdrv Hbytes.
  pose proof (int128_fromDb_buffer drv data encoding bs Hbytes) as Hread.
  destruct (Hdrv (rev (textBytes bs))) as (stored & Hnew & Hstored).
  exists (int128Text bs), stored. split; [exact Hread|].
  assert (Hparse : numericStringToBuffer (int128Text bs) = Ok (rev (textBytes bs))).
  { rewrite int128Text_body.
    rewrite <- (rev_involutive (textBytes bs)) at 1.
    apply numericStringToBuffer_hexOf.
    unfold textBytes. destruct (significant bs); simpl; [discriminate|].
    intros H. apply app_eq_nil in H. destruct H; discriminate. }
  split.
  - unfold int128_toDb.
    assert (Hpre : startsWith (toLowerCase (int128Text bs)) "0x" = true).
    { rewrite int128Text_body.
      change (toLowerCase ("0x" ++ hexOf (textBytes bs)))
        with ("0x" ++ toLowerCase (hexOf (textBytes bs)))%string.
      apply startsWith_0x. }
    rewrite Hpre. simpl orb. cbv iota. rewrite Hparse. simpl bind. exact Hnew.
  - rewrite (int128_fromDb_buffer drv stored encoding _ Hstored). do 2 f_equal.
    unfold int128Text at 1, significant. rewrite rev_involutive.
    rewrite int128Text_body. unfold textBytes.
    destruct (significant bs) as [|b t] eqn:E; [reflexivity|].
    apply dropZeros_head in E as Hb. simpl. now rewrite Hb.
Qed.

(** ** The transcoder ([conversion.js]) *)

Module ConversionFacts.

Lemma bind_Ok {A B : Type} (a : A) (k : A -> result B) : bind (Ok a) k = k a.
Proof. reflexivity. Qed.

Lemma isErr_bind {A B : Type} (m : result A) (k : A -> result B) :
  isErr m = true -> isErr (bind m k) = true.
Proof. destruct m; [discriminate | reflexivity]. Qed.

Lemma isErr_bind_all {A B : Type} (m : result A) (k : A -> result B) :
  (forall a, isErr (k a) = true) -> isErr (bind m k) = true.
Proof. intros H. destruct m; [apply H | reflexivity]. Qed.

Section Loops.

Variable convertValue : value -> value -> value -> result value.
Variable originalSchema : value.

(** The [for ... in] loop is a left fold over the entries. *)
Lemma forIn_foldM (s : value) (kvs : list (string * value)) :
  forall ret,
    (fix forIn (kvs : list (string * value)) (ret : list (string * value))
       : result (list (string * value)) :=
       match kvs with
       | [] => Ok ret
       | (v, dv) :: rest =>
           let* cn := ctorName dv in
           let* x :=
             if isComposite cn then
               convertElement convertValue originalSchema
                 (if truthy (propertyTest s v)
                  then getP (getP s "properties") v else VNull) dv
             else
               let encoding :=
                 if truthy (propertyTest s v)
                 then getP (getP (getP s "properties") v) "encoding"
                 else VStr EmptyString in
               let mongoType :=
                 if truthy (propertyTest s v)
                 then getP (getP (getP s "properties") v) "mongoType"
                 else VStr EmptyString in
               convertValue dv mongoType encoding in
           forIn rest (setKey v x ret)
       end) kvs ret
    = foldM (fun ret kv =>
               let* x := convertField convertValue originalSchema s (fst kv) (snd kv) in
               Ok (setKey (fst kv) x ret)) kvs ret.
Proof.
  induction kvs as [|[v dv] rest IH]; intros ret; [reflexivity|].
  simpl foldM. unfold convertField at 1. simpl fst. simpl snd.
  destruct (ctorName dv) as [cn|e]; [|reflexivity]. simpl bind.
  destruct (isComposite cn).
  - destruct (convertElement _ _ _ dv); [|reflexivity]. simpl bind. apply IH.
  - destruct (convertValue dv _ _); [|reflexivity]. simpl bind. apply IH.
Qed.

(** What [convertElement] does with an object, by the name its
    constructor answers. *)
Lemma convertElement_object (schema : value) (kvs : list (string * value)) :
  ctorName (VObj kvs) = Ok (VStr "Object") ->
  convertElement convertValue originalSchema schema (VObj kvs)
  = (let* schema := resolveSchema originalSchema schema in
     let* ret :=
       foldM (fun ret kv =>
                let* x := convertField convertValue originalSchema schema
                            (fst kv) (snd kv) in
                Ok (setKey (fst kv) x ret)) kvs [] in
     Ok (VObj ret)).
Proof.
  intros Hcn. simpl in Hcn. simpl.
  destruct (resolveSchema originalSchema schema) as [s|e]; [|reflexivity].
  simpl bind. rewrite Hcn. simpl bind.
  change (named (VStr "Object") "Object") with true. cbv iota.
  f_equal. apply forIn_foldM.
Qed.

(** A value that answers neither ['Object'] nor ['Array'] is refused. *)
Lemma convertElement_leaf (schema data : value) :
  isLeaf data = true ->
  convertElement convertValue originalSchema schema data
  = (let* _ := resolveSchema originalSchema schema in
     Err (JsError "This function manages directly only objects and arrays")).
Proof.
  unfold isLeaf. intros Hleaf.
  destruct (ctorName data) as [cn|] eqn:Hcn; [|discriminate].
  apply negb_true_iff in Hleaf.
  assert (Hnames : named cn "Object" = false /\ named cn "Array" = false).
  { unfold isComposite in Hleaf. now apply orb_false_elim in Hleaf. }
  destruct Hnames as [Ho Ha].
  destruct data; simpl in Hcn; try discriminate; simpl;
    destruct (resolveSchema originalSchema schema) as [sc|e]; try reflexivity; simpl bind.
  - inversion Hcn; subst cn. discriminate.
  - rewrite Hcn. simpl bind. now rewrite Ho, Ha.
  - rewrite Hcn. simpl bind. now rewrite Ho, Ha.
Qed.

Lemma convertElement_array (schema : value) (xs : list value) :
  convertElement convertValue originalSchema schema (VArr xs)
  = (let* schema := resolveSchema originalSchema schema in
     let* ret :=
       mapiM (fun i di => convertItem convertValue originalSchema (itemSchema schema i) di)
             0%nat xs in
     Ok (VArr ret)).
Proof.
  simpl. destruct (resolveSchema originalSchema schema) as [s|e]; [|reflexivity].
  simpl.
  match goal with
  | |- bind (?F xs 0%nat []) _ = _ =>
      assert (H : forall (i : nat) (acc : list value),
                bind (F xs i acc) (fun ret => Ok (VArr ret))
                = bind (mapiM (fun i di =>
                                 convertItem convertValue originalSchema (itemSchema s i) di)
                              i xs)
                       (fun ys => Ok (VArr (acc ++ ys)%list)))
  end.
  { induction xs as [|di rest IH]; intros i acc.
    - simpl. now rewrite app_nil_r.
    - simpl. unfold convertItem at 1.
      destruct (ctorName di) as [cn|e]; [|reflexivity]. simpl.
      destruct (isComposite cn).
      + destruct (convertElement _ _ _ di); [|reflexivity]. simpl.
        rewrite IH. destruct (mapiM _ _ _); [|reflexivity]. simpl.
        now rewrite <- app_assoc.
      + destruct (convertValue di _ _); [|reflexivity]. simpl.
        rewrite IH. destruct (mapiM _ _ _); [|reflexivity]. simpl.
        now rewrite <- app_assoc. }
  apply (H 0%nat []).
Qed.

End Loops.

End ConversionFacts.
Import ConversionFacts.


Lemma getP_composite_truthy (schema : value) (k : string) :
  instanceofObject (getP schema k) = true -> truthy schema = true.
Proof.
  destruct schema; simpl; try discriminate; try reflexivity.
  destruct (String.eqb k "length"); [discriminate|].
  destruct (indexOfKey k) as [i|]; simpl; [|discriminate].
  destruct (charsOf s !! i); discriminate.
Qed.





Lemma named_eq (cn : value) (name : string) : named cn name = true -> cn = VStr name.
Proof.
  destruct cn; simpl; try discriminate.
  intros H. apply String.eqb_eq in H. now subst.
Qed.

Lemma named_neq (cn : value) (name : string) : cn <> VStr name -> named cn name = false.
Proof.
  intros H. destruct (named cn name) eqn:E; [|reflexivity].
  now apply named_eq in E.
Qed.

(** An object none of whose fields is named [constructor] answers with
    the constructor it inherits. *)
Lemma assoc_plainKeys (kvs : list (string * value)) :
  plainKeys kvs = true ->
  assoc "constructor" kvs = None /\ assoc "__proto__" kvs = None.
Proof.
  induction kvs as [|[k v] kvs IH]; intros H; [now split|].
  simpl in H. apply andb_prop in H. destruct H as [Hk Hrest].
  apply negb_true_iff in Hk. unfold reservedKey in Hk.
  apply orb_false_elim in Hk. destruct Hk as [Hc Hp].
  destruct (IH Hrest) as [IHc IHp]. simpl fst in Hc, Hp.
  split.
  - change (assoc "constructor" ((k, v) :: kvs))
      with (if String.eqb "constructor" k then Some v else assoc "constructor" kvs).
    now rewrite String.eqb_sym, Hc.
  - change (assoc "__proto__" ((k, v) :: kvs))
      with (if String.eqb "__proto__" k then Some v else assoc "__proto__" kvs).
    now rewrite String.eqb_sym, Hp.
Qed.

Lemma ctorName_plainKeys (kvs : list (string * value)) :
  plainKeys kvs = true -> ctorName (VObj kvs) = Ok (VStr "Object").
Proof.
  intros H. destruct (assoc_plainKeys kvs H) as [Hc _]. simpl. now rewrite Hc.
Qed.


(** A single document goes to [convertElement] together with the schema. *)
Lemma convertDocument_single
    (convertValue : value -> value -> value -> result value)
    (schema d cn : value) :
  truthy schema = true -> truthy d = true ->
  ctorName d = Ok cn -> cn <> VStr "Array" ->
  convertDocument d schema convertValue = convertElement convertValue schema schema d.
Proof.
  intros Hs Hd Hcn Hne. unfold convertDocument. rewrite Hs, Hd, Hcn. simpl.
  now rewrite (named_neq cn "Array" Hne).
Qed.

Lemma convertDocument_object
    (convertValue : value -> value -> value -> result value)
    (schema : value) (kvs : list (string * value)) :
  truthy schema = true ->
  ctorName (VObj kvs) = Ok (VStr "Object") ->
  convertDocument (VObj kvs) schema convertValue
  = convertElement convertValue schema schema (VObj kvs).
Proof.
  intros Hs Hcn.
  apply (convertDocument_single _ _ _ (VStr "Object")); try assumption; try reflexivity.
  discriminate.
Qed.




(** ** The round trip through the storage form *)

(** A nested object or array for which the schema has no node stops the
    conversion: [convertElement] is called with [null] for a schema and
    reads [schema.$ref]. *)
Lemma convertElement_null_schema
    (convertValue : value -> value -> value -> result value)
    (originalSchema data : value) :
  convertElement convertValue originalSchema VNull data
  = Err (TypeError "Cannot read property '$ref' of null").
Proof. destruct data; reflexivity. Qed.

Lemma schemaless_subtree_throws
    (convertValue : value -> value -> value -> result value)
    (schema s : value) (kvs : list (string * value)) (k : string) (v : value) :
  truthy schema = true ->
  resolveSchema schema schema = Ok s ->
  ctorName (VObj kvs) = Ok (VStr "Object") ->
  In (k, v) kvs ->
  isErr (ctorName v) = true \/ (exists cn, ctorName v = Ok cn /\ isComposite cn = true) ->
  truthy (propertyTest s k) = false ->
  isErr (convertDocument (VObj kvs) schema convertValue) = true.
Proof.
  intros Hs Hres Hcn Hin Hv Hnone.
  rewrite convertDocument_object, convertElement_object, Hres by assumption.
  simpl bind. apply isErr_bind. clear Hcn.
  generalize (@nil (string * value)) as ret.
  induction kvs as [|[k' v'] rest IH]; intros ret; [destruct Hin|].
  simpl. destruct Hin as [E|Hin].
  - inversion E; subst k' v'. apply isErr_bind, isErr_bind.
    unfold convertField. rewrite Hnone.
    destruct Hv as [Hv|(cn & Hv & Hc)].
    + now apply isErr_bind.
    + rewrite Hv, bind_Ok, Hc. now rewrite convertElement_null_schema.
  - apply isErr_bind_all. intros acc. now apply IH.
Qed.

(** C1.  The document [tagged] and its schema are the examples of the
    specification, and they do round-trip: the first round trip turns the
    numeric string into the integer and leaves the hexadecimal string as
    it is, the second one changes nothing.  The same document with a
    sub-document the schema says nothing about conforms to the schema as
    well, and has no round trip: whatever the driver does, the conversion
    to the storage form throws, with the TypeError of reading [$ref] of
    [null] when the leaves before it convert.  The conversion also throws
    on the hexadecimal prefix in upper case, which the int128 codec
    recognises in the lower-cased copy and then parses in the original. *)
Theorem round_trip_stops_on_undescribed_subtree (drv : Driver) :
  isErr (documentToDbFormat drv (builtins drv) taggedWithExtra taggedSchema) = true
  /\ documentToDbFormat bson1 (builtins bson1) taggedWithExtra taggedSchema
     = Err (TypeError "Cannot read property '$ref' of null")
  /\ documentToDbFormat drv (builtins drv) taggedUpperCase taggedSchema
     = Err (Thrown (VStr ("Invalid value 0X1A2B. Only hexadecimal and decimal "
                          ++ "values are managed by this function")))
  /\ roundTrip bson1 tagged taggedSchema
     = Ok (VObj [("id", VStr "0x1a2b"); ("n", VNum 42)])
  /\ roundTrip bson1 (VObj [("id", VStr "0x1a2b"); ("n", VNum 42)]) taggedSchema
     = Ok (VObj [("id", VStr "0x1a2b"); ("n", VNum 42)]).
Proof.
  split; [|split; [|split; [|split]]].
  - apply (schemaless_subtree_throws _ taggedSchema taggedSchema _ "meta"
             (VObj [("note", VStr "x")])).
    + reflexivity.
    + reflexivity.
    + reflexivity.
    + right; right; left; reflexivity.
    + right. now exists (VStr "Object").
    + reflexivity.
  - vm_compute. reflexivity.
  - vm_compute. reflexivity.
  - vm_compute. reflexivity.
  - vm_compute. reflexivity.
Qed.

(** ** The validator front end ([validateDocument.js], lines 50-71) *)






(** ** The derivation of the mode schemas ([validateDocument.js], lines 101-284) *)

Module SchemaFacts.

Lemma updateSubSchema_unfold (fuel : nat) (refSchema : value) (mode : string)
    (schema0 : value) (path : string) :
  updateSubSchema (S fuel) refSchema mode schema0 path
  = (let* schema := resolveRef refSchema schema0 in
     let* properties := workingProperties mode schema (requiredFor mode schema) path in
     let* ret :=
       foldM (deriveKey (updateSubSchema fuel refSchema mode) schema path
                (requiredFor mode schema) properties)
             (ownKeys schema) [] in
     Ok (VObj ret)).
Proof. reflexivity. Qed.

Lemma updateSubSchema_working_error (fuel : nat) (refSchema : value) (mode : string)
    (schema0 schema : value) (path : string) (e : error) :
  resolveRef refSchema schema0 = Ok schema ->
  workingProperties mode schema (requiredFor mode schema) path = Err e ->
  updateSubSchema (S fuel) refSchema mode schema0 path = Err e.
Proof. intros Hres Hw. rewrite updateSubSchema_unfold, Hres. simpl. now rewrite Hw. Qed.

(** A name found by [indexOf] is a primitive: [primStr] is its text. *)
Lemma includes_primitive (xs : list value) (r : value) :
  includes xs r = true -> instanceofObject r = false.
Proof.
  unfold includes. rewrite existsb_exists. intros (x & _ & H).
  destruct r; try reflexivity; destruct x; discriminate.
Qed.


End SchemaFacts.
Import SchemaFacts.

(** *** The loop over the keys of a node *)

Module LoopFacts.

Section DeriveKey.

Variable self : value -> string -> result value.
Variable schema : value.
Variable path : string.
Variable required : option (list value).
Variable properties : list string.

(** A round of the loop writes at most the key it is at. *)
Lemma deriveKey_other_keys (ret ret' : list (string * value)) (key k : string) :
  deriveKey self schema path required properties ret key = Ok ret' ->
  k <> key -> assoc k ret' = assoc k ret.
Proof.
  intros H Hk.
  assert (Hne : String.eqb k key = false) by now apply String.eqb_neq.
  unfold deriveKey in H.
  destruct (String.eqb key "properties") eqn:E1.
  { apply String.eqb_eq in E1. subst key.
    destruct (foldM _ _ _); simpl in H; [|discriminate].
    inversion H; subst ret'. now rewrite assoc_setKey, Hne. }
  destruct (String.eqb key "items") eqn:E2.
  { apply String.eqb_eq in E2. subst key.
    destruct (instanceofArray _).
    - destruct (mapiM _ _ _); simpl in H; [|discriminate].
      inversion H; subst ret'. now rewrite assoc_setKey, Hne.
    - destruct (self _ _); simpl in H; [|discriminate].
      inversion H; subst ret'. now rewrite assoc_setKey, Hne. }
  destruct (String.eqb key "required") eqn:E3.
  { apply String.eqb_eq in E3. subst key.
    destruct required; inversion H; subst ret'; [|reflexivity].
    now rewrite assoc_setKey, Hne. }
  destruct (String.eqb key "definitions" || String.eqb key "unmodifiableProperties").
  { now inversion H. }
  inversion H; subst ret'. now rewrite assoc_setKey, Hne.
Qed.

(** What a round leaves under its own key. *)
Lemma deriveKey_required (ret ret' : list (string * value)) (rs : list value) :
  required = Some rs ->
  deriveKey self schema path required properties ret "required" = Ok ret' ->
  assoc "required" ret' = Some (VArr rs).
Proof.
  intros Hr H. unfold deriveKey in H. simpl in H. rewrite Hr in H.
  inversion H; subst ret'. now rewrite assoc_setKey.
Qed.

Lemma deriveKey_dropped (ret ret' : list (string * value)) (key : string) :
  key = "definitions" \/ key = "unmodifiableProperties" ->
  deriveKey self schema path required properties ret key = Ok ret' -> ret' = ret.
Proof. intros [->| ->] H; now inversion H. Qed.

Lemma deriveKey_copied (ret ret' : list (string * value)) (key : string) :
  rebuiltKey key = false ->
  deriveKey self schema path required properties ret key = Ok ret' ->
  assoc key ret' = Some (clone (getP schema key)).
Proof.
  unfold rebuiltKey. intros Hk H.
  repeat (apply orb_false_elim in Hk; destruct Hk as [Hk ?]).
  unfold deriveKey in H.
  repeat match goal with E : String.eqb _ _ = false |- _ => rewrite E in H; clear E end.
  simpl in H. inversion H; subst ret'. now rewrite assoc_setKey, String.eqb_refl.
Qed.

(** The loop as a whole: a key the node does not have is left as it was
    in [ret]. *)
Lemma loop_other_keys (keys : list string) (k : string) :
  ~ In k keys ->
  forall ret ret',
    foldM (deriveKey self schema path required properties) keys ret = Ok ret' ->
    assoc k ret' = assoc k ret.
Proof.
  induction keys as [|key keys IH]; intros Hk ret ret' H.
  - now inversion H.
  - simpl in H.
    destruct (deriveKey self schema path required properties ret key) as [r1|] eqn:E;
      [|discriminate].
    simpl in H. rewrite (IH (fun Hin => Hk (or_intror Hin)) _ _ H).
    apply (deriveKey_other_keys _ _ key); [exact E|].
    intros ->. apply Hk. now left.
Qed.

(** A property of the value under [k] that the round at [k] establishes
    is there when the loop ends. *)
Lemma loop_establishes (k : string) (P : option value -> Prop) (keys : list string) :
  (forall ret ret',
      deriveKey self schema path required properties ret k = Ok ret' -> P (assoc k ret')) ->
  forall ret ret',
    (In k keys \/ P (assoc k ret)) ->
    foldM (deriveKey self schema path required properties) keys ret = Ok ret' ->
    P (assoc k ret').
Proof.
  intros Hstep.
  induction keys as [|key keys IH]; intros ret ret' Hin H.
  - inversion H; subst ret'. destruct Hin as [[]|HP]; exact HP.
  - simpl in H.
    destruct (deriveKey self schema path required properties ret key) as [r1|] eqn:E;
      [|discriminate].
    simpl in H. apply (IH r1 ret'); [|exact H].
    destruct (String.eqb k key) eqn:Ek.
    + apply String.eqb_eq in Ek. subst key. right. now apply (Hstep ret).
    + apply String.eqb_neq in Ek.
      destruct Hin as [[->|Hin]|HP]; [now destruct Ek | now left |].
      right. now rewrite (deriveKey_other_keys _ _ key k E Ek).
Qed.

End DeriveKey.

Lemma own_key_of_defined (schema : value) (k : string) :
  indexOfKey k = None -> String.eqb k "length" = false ->
  getP schema k <> VUndef -> In k (ownKeys schema).
Proof.
  intros Hidx Hlen H.
  destruct schema; simpl in H; try (now destruct H);
    try (rewrite Hlen, Hidx in H; now destruct H).
  - destruct (assoc k kvs) as [v|] eqn:E; [|now destruct H].
    apply assoc_Some_in in E. unfold ownKeys. simpl.
    change k with (fst (k, v)). now apply in_map.
  - destruct (assoc k fields) as [v|] eqn:E; [|now destruct H].
    apply assoc_Some_in in E. unfold ownKeys. simpl.
    change k with (fst (k, v)). now apply in_map.
Qed.

Lemma truthy_defined (v : value) : truthy v = true -> v <> VUndef.
Proof. intros H ->. discriminate. Qed.

End LoopFacts.
Import LoopFacts.

(** ** Which nodes the derivation visits *)

Module Traversal.

Lemma workingProperties_retained (mode : string) (schema : value)
    (required : option (list value)) (path : string) (properties : list string) :
  workingProperties mode schema required path = Ok properties ->
  properties = retainedProperties mode schema.
Proof.
  unfold workingProperties, retainedProperties.
  destruct (truthy (getP schema "properties")); [|now inversion 1].
  destruct (truthy (getP schema "unmodifiableProperties")); [|now inversion 1].
  destruct (checkRequired _ _ _ _); [|discriminate]. simpl.
  destruct (strict_eq _ _); [now inversion 1 | discriminate].
Qed.

Lemma foldM_fails {A B : Type} (f : B -> A -> result B) (xs : list A) (x : A) :
  In x xs -> (forall acc, isOk (f acc x) = false) ->
  forall acc, isOk (foldM f xs acc) = false.
Proof.
  intros Hin Hx. induction xs as [|y xs IH]; intros acc; [destruct Hin|].
  simpl. destruct Hin as [->|Hin].
  - specialize (Hx acc). destruct (f acc x); [discriminate | reflexivity].
  - destruct (f acc y); [now apply IH | reflexivity].
Qed.

Lemma mapiM_fails {A B : Type} (f : nat -> A -> result B) (xs : list A) (x : A) :
  In x xs -> (forall i, isOk (f i x) = false) ->
  forall i, isOk (mapiM f i xs) = false.
Proof.
  intros Hin Hx. induction xs as [|y xs IH]; intros i; [destruct Hin|].
  simpl. destruct Hin as [->|Hin].
  - specialize (Hx i). destruct (f i x); [discriminate | reflexivity].
  - destruct (f i y); [|reflexivity]. simpl.
    specialize (IH Hin (S i)). destruct (mapiM f (S i) xs); [discriminate | reflexivity].
Qed.

Lemma isOk_bind_false {A B : Type} (m : result A) (k : A -> result B) :
  (forall a, m = Ok a -> isOk (k a) = false) -> isOk (bind m k) = false.
Proof. intros H. destruct m; [now apply H | reflexivity]. Qed.

Lemma isOk_bind_stop {A B : Type} (m : result A) (k : A -> result B) :
  isOk m = false -> isOk (bind m k) = false.
Proof. destruct m; [discriminate | reflexivity]. Qed.

(** A node whose derivation fails makes every derivation that visits it
    fail. *)
Lemma failure_surfaces (root : value) (mode : string) (a b : value) :
  visits root mode a b ->
  (forall fuel path, isOk (updateSubSchema fuel root mode b path) = false) ->
  forall fuel path, isOk (updateSubSchema fuel root mode a path) = false.
Proof.
  induction 1 as [a | a s b p Hres Hkey Hp Hret _ IH
                  | a s b item Hres Hkey Hitem _ IH
                  | a s b Hres Hkey Hitems _ IH]; intros Hb fuel path.
  - apply Hb.
  - destruct fuel as [|fuel]; [reflexivity|].
    rewrite updateSubSchema_unfold, Hres. simpl bind.
    apply isOk_bind_false. intros props Hprops.
    apply workingProperties_retained in Hprops. subst props.
    apply isOk_bind_stop.
    apply (foldM_fails _ _ "properties" Hkey). intros acc.
    unfold deriveKey. simpl String.eqb. cbv iota.
    apply isOk_bind_stop.
    apply (foldM_fails _ _ p Hp). intros acc'. rewrite Hret.
    apply isOk_bind_stop. apply (IH Hb).
  - destruct fuel as [|fuel]; [reflexivity|].
    rewrite updateSubSchema_unfold, Hres. simpl bind.
    apply isOk_bind_false. intros props _.
    apply isOk_bind_stop.
    apply (foldM_fails _ _ "items" Hkey). intros acc.
    unfold deriveKey. simpl String.eqb. cbv iota.
    destruct (getP s "items") as [| | | | | |xs| | | |] eqn:E; try (now destruct Hitem).
    simpl instanceofArray. cbv iota.
    apply isOk_bind_stop.
    apply (mapiM_fails _ _ item Hitem). intros i. apply (IH Hb).
  - destruct fuel as [|fuel]; [reflexivity|].
    rewrite updateSubSchema_unfold, Hres. simpl bind.
    apply isOk_bind_false. intros props _.
    apply isOk_bind_stop.
    apply (foldM_fails _ _ "items" Hkey). intros acc.
    unfold deriveKey. simpl String.eqb. cbv iota. rewrite Hitems.
    apply isOk_bind_stop. apply (IH Hb).
Qed.

End Traversal.
Import Traversal.

(** ** The recursion budget *)

Module Budget.

Lemma below_refl {A : Type} (r : result A) : below r r.
Proof. now right. Qed.

Lemma below_trans {A : Type} (r1 r2 r3 : result A) :
  below r1 r2 -> below r2 r3 -> below r1 r3.
Proof. intros [H1|H1] [H2|H2]; subst; auto using below_refl; now left. Qed.

Lemma bind_below {A B : Type} (m1 m2 : result A) (k1 k2 : A -> result B) :
  below m1 m2 -> (forall a, below (k1 a) (k2 a)) -> below (bind m1 k1) (bind m2 k2).
Proof.
  intros [->| ->] Hk; [now left|].
  destruct m2; simpl; [apply Hk | apply below_refl].
Qed.

Lemma foldM_below {A B : Type} (f1 f2 : B -> A -> result B) (xs : list A) :
  (forall acc x, below (f1 acc x) (f2 acc x)) ->
  forall acc, below (foldM f1 xs acc) (foldM f2 xs acc).
Proof.
  intros Hf. induction xs as [|x xs IH]; intros acc; [apply below_refl|].
  simpl. apply bind_below; [apply Hf | exact IH].
Qed.

Lemma mapiM_below {A B : Type} (f1 f2 : nat -> A -> result B) (xs : list A) :
  (forall i x, below (f1 i x) (f2 i x)) ->
  forall i, below (mapiM f1 i xs) (mapiM f2 i xs).
Proof.
  intros Hf. induction xs as [|x xs IH]; intros i; [apply below_refl|].
  simpl. apply bind_below; [apply Hf|]. intros y.
  apply bind_below; [apply IH | intros; apply below_refl].
Qed.

Lemma deriveKey_below (self1 self2 : value -> string -> result value) (schema : value)
    (path : string) (required : option (list value)) (properties : list string)
    (ret : list (string * value)) (key : string) :
  (forall s p, below (self1 s p) (self2 s p)) ->
  below (deriveKey self1 schema path required properties ret key)
        (deriveKey self2 schema path required properties ret key).
Proof.
  intros Hself. unfold deriveKey.
  destruct (String.eqb key "properties").
  { apply bind_below; [|intros; apply below_refl].
    apply foldM_below. intros acc p.
    destruct (existsb _ _); [|apply below_refl].
    apply bind_below; [apply Hself | intros; apply below_refl]. }
  destruct (String.eqb key "items").
  { destruct (instanceofArray _).
    - apply bind_below; [|intros; apply below_refl].
      apply mapiM_below. intros i x. apply Hself.
    - apply bind_below; [apply Hself | intros; apply below_refl]. }
  apply below_refl.
Qed.

Lemma updateSubSchema_step (fuel : nat) (root : value) (mode : string) :
  forall schema path,
    below (updateSubSchema fuel root mode schema path)
          (updateSubSchema (S fuel) root mode schema path).
Proof.
  induction fuel as [|fuel IH]; intros schema path; [now left|].
  rewrite (updateSubSchema_unfold (S fuel)), (updateSubSchema_unfold fuel).
  apply bind_below; [apply below_refl|]. intros s.
  apply bind_below; [apply below_refl|]. intros props.
  apply bind_below; [|intros; apply below_refl].
  apply foldM_below. intros acc key. apply deriveKey_below. exact IH.
Qed.

(** An answer other than [OutOfFuel] is the answer for every larger
    budget. *)
Lemma updateSubSchema_budget (fuel fuel' : nat) (root : value) (mode : string)
    (schema : value) (path : string) :
  (fuel <= fuel')%nat ->
  below (updateSubSchema fuel root mode schema path)
        (updateSubSchema fuel' root mode schema path).
Proof.
  induction 1 as [|fuel' _ IH]; [apply below_refl|].
  eapply below_trans; [exact IH | apply updateSubSchema_step].
Qed.

Lemma getSchema_budget (fuel fuel' : nat) (schema : value) (mode : string) (out : value) :
  (fuel <= fuel')%nat ->
  getSchema fuel schema mode = Ok out -> getSchema fuel' schema mode = Ok out.
Proof.
  intros Hle H. unfold getSchema in *.
  destruct (updateSubSchema_budget fuel fuel' schema mode schema "schema" Hle) as [E|E];
    congruence.
Qed.

Lemma getSchema_budget_error (fuel fuel' : nat) (schema : value) (mode : string) (e : error) :
  (fuel <= fuel')%nat -> e <> OutOfFuel ->
  getSchema fuel schema mode = Err e -> getSchema fuel' schema mode = Err e.
Proof.
  intros Hle Hne H. unfold getSchema in *.
  destruct (updateSubSchema_budget fuel fuel' schema mode schema "schema" Hle) as [E|E];
    congruence.
Qed.

End Budget.
Import Budget.

(** ** Where an error of the derivation comes from *)

Module ErrorOrigin.






End ErrorOrigin.
Import ErrorOrigin.

(** ** What a derived node contains *)

Module DerivedNode.

Section Loop.

Variable self : value -> string -> result value.
Variable schema : value.
Variable path : string.
Variable required : option (list value).
Variable properties : list string.

(** A property of the value under [k] that every round at [k] keeps is
    kept by the loop. *)
Lemma loop_preserves (k : string) (P : option value -> Prop) (keys : list string) :
  (forall ret ret',
      P (assoc k ret) ->
      deriveKey self schema path required properties ret k = Ok ret' ->
      P (assoc k ret')) ->
  forall ret ret',
    P (assoc k ret) ->
    foldM (deriveKey self schema path required properties) keys ret = Ok ret' ->
    P (assoc k ret').
Proof.
  intros Hstep.
  induction keys as [|key keys IH]; intros ret ret' HP H.
  - now inversion H; subst.
  - simpl in H.
    destruct (deriveKey self schema path required properties ret key) as [r1|] eqn:E;
      [|discriminate].
    simpl in H. apply (IH r1 ret'); [|exact H].
    destruct (String.eqb k key) eqn:Ek.
    + apply String.eqb_eq in Ek. subst key. now apply (Hstep ret).
    + apply String.eqb_neq in Ek.
      now rewrite (deriveKey_other_keys _ _ _ _ _ _ _ key k E Ek).
Qed.

(** The inner loop enters only retained properties. *)
Lemma properties_loop_skips (p : string) (names : list string) :
  existsb (String.eqb p) properties = false ->
  forall props props',
    foldM (fun props property =>
             if existsb (String.eqb property) properties then
               let* sub := self (getP (getP schema "properties") property)
                                (path ++ ".properties." ++ property) in
               Ok (setKey property sub props)
             else Ok props) names props = Ok props' ->
    assoc p props' = assoc p props.
Proof.
  intros Hp. induction names as [|name names IH]; intros props props' H.
  - now inversion H.
  - simpl in H. destruct (existsb (String.eqb name) properties) eqn:En.
    + destruct (self _ _) as [sub|]; [|discriminate]. simpl in H.
      rewrite (IH _ _ H), assoc_setKey.
      destruct (String.eqb p name) eqn:E; [|reflexivity].
      apply String.eqb_eq in E. subst name. congruence.
    + simpl in H. now apply IH.
Qed.

Lemma deriveKey_properties (p : string) (ret ret' : list (string * value)) :
  existsb (String.eqb p) properties = false ->
  deriveKey self schema path required properties ret "properties" = Ok ret' ->
  exists props, assoc "properties" ret' = Some (VObj props) /\ assoc p props = None.
Proof.
  intros Hp H. unfold deriveKey in H. simpl String.eqb in H. cbv iota in H.
  destruct (foldM _ _ _) as [props|] eqn:E; [|discriminate].
  simpl in H. inversion H; subst ret'.
  exists props. split; [now rewrite assoc_setKey|].
  now rewrite (properties_loop_skips p _ Hp _ _ E).
Qed.

End Loop.

Lemma existsb_filter_out (p : string) (keep : string -> bool) (names : list string) :
  keep p = false -> existsb (String.eqb p) (List.filter keep names) = false.
Proof.
  intros Hp. induction names as [|n names IH]; [reflexivity|].
  simpl. destruct (keep n) eqn:En; [|exact IH].
  simpl. rewrite IH. destruct (String.eqb p n) eqn:E; [|reflexivity].
  apply String.eqb_eq in E. subst n. congruence.
Qed.

Lemma existsb_eqb_In (k : string) (keys : list string) :
  existsb (String.eqb k) keys = true <-> In k keys.
Proof.
  rewrite existsb_exists. split.
  - intros (x & Hx & E). apply String.eqb_eq in E. now subst.
  - intros H. exists k. split; [exact H | apply String.eqb_refl].
Qed.

Lemma find_none_all {A : Type} (f : A -> bool) (l : list A) :
  List.find f l = None -> forall x, In x l -> f x = false.
Proof.
  induction l as [|a l IH]; intros H x Hin; [destruct Hin|].
  simpl in H. destruct (f a) eqn:Ea; [discriminate|].
  destruct Hin as [->|Hin]; [exact Ea | now apply IH].
Qed.

(** X18.  The node [out] derived, without error, from a node that resolves to
    [schema]: the keys [definitions] and [unmodifiableProperties] are not
    in it; a key of [schema] other than [properties], [items], [required]
    and these two is in it with a deep copy of its value, and nothing else
    is; and when [schema] declares [properties] and
    [unmodifiableProperties], no unmodifiable name is a key of
    [out.properties], the node declares [required], [out.required] is the
    normalized list and holds no unmodifiable name, and
    [additionalProperties] is [false]. *)
Lemma derived_node (fuel : nat) (root : value) (mode : string)
    (schema0 schema out : value) (path : string) :
  resolveRef root schema0 = Ok schema ->
  updateSubSchema (S fuel) root mode schema0 path = Ok out ->
  getP out "definitions" = VUndef
  /\ getP out "unmodifiableProperties" = VUndef
  /\ (forall k, rebuiltKey k = false ->
                getP out k = if existsb (String.eqb k) (ownKeys schema)
                             then clone (getP schema k) else VUndef)
  /\ (truthy (getP schema "properties") = true ->
      truthy (getP schema "unmodifiableProperties") = true ->
      (forall p,
          includes (unmodifiableFor mode (getP schema "unmodifiableProperties")) (VStr p)
            = true ->
          getP (getP out "properties") p = VUndef)
      /\ (exists names,
            requiredFor mode schema = Some names
            /\ getP out "required" = VArr names
            /\ forall r, In r names ->
                 includes (unmodifiableFor mode (getP schema "unmodifiableProperties")) r
                   = false)
      /\ getP schema "additionalProperties" = VBool false).
Proof.
  intros Hres Hout.
  rewrite updateSubSchema_unfold, Hres in Hout. simpl bind in Hout.
  destruct (workingProperties mode schema (requiredFor mode schema) path)
    as [props|] eqn:Hwork; [|discriminate].
  simpl bind in Hout.
  destruct (foldM _ _ _) as [ret|] eqn:Hloop; [|discriminate].
  simpl in Hout. inversion Hout; subst out. clear Hout.
  assert (Hdropped : forall k, k = "definitions" \/ k = "unmodifiableProperties" ->
                               assoc k ret = None).
  { intros k Hk.
    apply (loop_preserves (updateSubSchema fuel root mode) schema path
             (requiredFor mode schema) props k (fun o => o = None) (ownKeys schema))
      with (ret := []); [|reflexivity | exact Hloop].
    intros r r' Hr Hstep. now rewrite (deriveKey_dropped _ _ _ _ _ r r' k Hk Hstep). }
  split; [simpl; now rewrite Hdropped by now left|].
  split; [simpl; now rewrite Hdropped by now right|].
  split.
  - intros k Hk. simpl. destruct (existsb (String.eqb k) (ownKeys schema)) eqn:Hin.
    + apply existsb_eqb_In in Hin.
      rewrite (loop_establishes _ _ _ _ _ k
                 (fun o => o = Some (clone (getP schema k))) (ownKeys schema)
                 (fun r r' => deriveKey_copied _ _ _ _ _ r r' k Hk)
                 [] ret (or_introl Hin) Hloop).
      reflexivity.
    + assert (Hnotin : ~ In k (ownKeys schema)).
      { intros Hk'. apply existsb_eqb_In in Hk'. congruence. }
      now rewrite (loop_other_keys _ _ _ _ _ (ownKeys schema) k Hnotin [] ret Hloop).
  - intros Hprops Hunmod.
    pose proof (workingProperties_retained _ _ _ _ _ Hwork) as Hretained.
    unfold workingProperties in Hwork. rewrite Hprops, Hunmod in Hwork.
    unfold checkRequired in Hwork.
    destruct (requiredFor mode schema) as [names|] eqn:Hreq; [|discriminate].
    destruct (List.find _ names) eqn:Hfind; [discriminate|]. simpl bind in Hwork.
    destruct (strict_eq (getP schema "additionalProperties") (VBool false)) eqn:Hadd;
      [|discriminate].
    split; [|split].
    + intros p Hp.
      assert (Hkey : In "properties" (ownKeys schema)).
      { apply own_key_of_defined; [reflexivity | reflexivity |].
        now apply truthy_defined. }
      assert (Hnot : existsb (String.eqb p) props = false).
      { rewrite Hretained. unfold retainedProperties. rewrite Hprops, Hunmod.
        apply existsb_filter_out. now rewrite Hp. }
      destruct (loop_establishes _ _ _ _ _ "properties"
                  (fun o => exists ps, o = Some (VObj ps) /\ assoc p ps = None)
                  (ownKeys schema)
                  (fun r r' => deriveKey_properties _ _ _ _ _ p r r' Hnot)
                  [] ret (or_introl Hkey) Hloop) as (ps & Hps & Hp').
      simpl. rewrite Hps. simpl. now rewrite Hp'.
    + assert (Hkey : In "required" (ownKeys schema)).
      { apply own_key_of_defined; [reflexivity | reflexivity |].
        apply truthy_defined. unfold requiredFor in Hreq.
        destruct (truthy (getP schema "required")); [reflexivity | discriminate]. }
      exists names. split; [reflexivity|]. split.
      *
        simpl.
        now rewrite (loop_establishes _ _ _ _ _ "required"
                       (fun o => o = Some (VArr names)) (ownKeys schema)
                       (fun r r' => deriveKey_required _ _ _ (Some names) _ r r' names eq_refl)
                       [] ret (or_introl Hkey) Hloop).
      * now apply find_none_all.
    + destruct (getP schema "additionalProperties") as [| |[|]| | | | | | | |];
        simpl in Hadd; try discriminate. reflexivity.
Qed.

End DerivedNode.
Import DerivedNode.

(** *** The normalized [required] list *)

(** C5, counterexample.  A name given in the [upsert] branch and again in
    the [insert] branch is twice in the insert-mode list, in the derivation
    and in the derived schema: the normalized list is not one of unique
    names. *)
Lemma required_list_keeps_duplicates :
  requiredFor "insert" requiredTwice = Some [VStr "a"; VStr "a"; VStr "b"]
  /\ uniqueNames [VStr "a"; VStr "a"; VStr "b"] = false
  /\ (forall fuel,
        getSchema (S fuel) requiredTwice "insert"
        = Ok (VObj [("type", VStr "object");
                    ("required", VArr [VStr "a"; VStr "a"; VStr "b"])]))
  /\ requiredFor "insert" (VObj [("required", VArr [VStr "a"; VStr "a"])])
     = Some [VStr "a"; VStr "a"].
Proof. repeat split. Qed.

(** C5, as amended.  The [required] list of a node for a mode is: for
    the list form that list, for the single-name form the one-element
    list, for the map form the names of the [upsert] branch followed by
    those of the branch of the mode (so [requiredByMode] yields [a, b] in
    insert mode and [a, c] in update mode).  The order is kept and nothing
    is removed, duplicates included.  A node derived without error carries
    that list under [required]. *)
Theorem required_list_by_form (mode : string) (schema : value) :
  (forall names, getP schema "required" = VArr names ->
                 requiredFor mode schema = Some names)
  /\ (forall name, name <> EmptyString -> getP schema "required" = VStr name ->
                   requiredFor mode schema = Some [VStr name])
  /\ (forall branches, getP schema "required" = VObj branches ->
                       requiredFor mode schema
                       = Some (branchNames (VObj branches) "upsert"
                               ++ branchNames (VObj branches) mode)%list)
  /\ requiredFor "insert" requiredByMode = Some [VStr "a"; VStr "b"]
  /\ requiredFor "update" requiredByMode = Some [VStr "a"; VStr "c"]
  /\ (forall fuel root schema0 path names out,
        resolveRef root schema0 = Ok schema ->
        requiredFor mode schema = Some names ->
        updateSubSchema (S fuel) root mode schema0 path = Ok out ->
        getP out "required" = VArr names).
Proof.
  split; [|split; [|split; [|split; [|split]]]].
  - intros names H. unfold requiredFor. rewrite H. reflexivity.
  - intros name Hne H. unfold requiredFor. rewrite H. simpl.
    destruct (String.eqb_spec name EmptyString) as [->|_]; [now destruct Hne | reflexivity].
  - intros branches H. unfold requiredFor. rewrite H. simpl truthy. cbv iota.
    simpl instanceofArray. simpl instanceofObject. cbv iota.
    unfold modeBranches, branchNames.
    destruct (truthy (getP (VObj branches) "upsert")),
             (truthy (getP (VObj branches) mode)); simpl;
      rewrite ?app_nil_r; reflexivity.
  - reflexivity.
  - reflexivity.
  - intros fuel root schema0 path names out Hres Hreq Hout.
    rewrite updateSubSchema_unfold, Hres in Hout. simpl in Hout.
    destruct (workingProperties _ _ _ _) as [props|]; [|discriminate]. simpl in Hout.
    destruct (foldM _ _ _) as [ret|] eqn:Hloop; [|discriminate].
    inversion Hout; subst out. simpl.
    assert (Hkey : In "required" (ownKeys schema)).
    { apply own_key_of_defined; [reflexivity | reflexivity |].
      apply truthy_defined. unfold requiredFor in Hreq.
      destruct (truthy (getP schema "required")); [reflexivity | discriminate]. }
    rewrite (loop_establishes _ _ _ _ _ "required"
               (fun o => o = Some (VArr names)) (ownKeys schema)
               (fun r r' => deriveKey_required _ _ _ _ _ r r' names Hreq)
               [] ret (or_introl Hkey) Hloop).
    reflexivity.
Qed.

Lemma required_list_by_form_witness :
  getP (VObj [("type", VStr "object"); ("required", VArr [VStr "a"; VStr "c"])]) "required"
  = VArr [VStr "a"; VStr "c"]
  /\ requiredFor "update" requiredByMode
     = Some (branchNames (getP requiredByMode "required") "upsert"
             ++ branchNames (getP requiredByMode "required") "update")%list.
Proof.
  destruct (required_list_by_form "update" requiredByMode) as (_ & _ & Hmap & _ & _ & Hout).
  split.
  - apply (Hout 0%nat requiredByMode requiredByMode "schema" [VStr "a"; VStr "c"]);
      reflexivity.
  - apply (Hmap [("upsert", VStr "a"); ("insert", VArr [VStr "b"]);
                 ("update", VArr [VStr "c"])]).
    reflexivity.
Defined.

(** *** Required and unmodifiable at once *)






(** *** [unmodifiableProperties] needs [additionalProperties: false] *)






(** The nested node of [nestedPolicyExample] is reached in insert mode as
    well, and its error is what the whole derivation raises. *)
Lemma nested_policy_error_surfaces :
  getSchema 3 nestedPolicyExample "insert" = Err (policyError "schema.properties.owner").
Proof. reflexivity. Qed.

(** *** The unmodifiable filter *)

(** C4.  On [unmodifiableOnly] no mode schema is derived: [required] is
    still [undefined] when [required.map] is evaluated, and the TypeError
    of that call is what [getSchema] and [getValidationData] raise, in
    both modes.  With a [required] list declared the same node derives as
    the claim says: [_id] is gone from [properties], and
    [unmodifiableProperties] is gone from the node. *)
Theorem unmodifiable_without_required_throws
    (compile : value -> result validator) (fuel : nat) (mode : string) :
  getSchema (S fuel) unmodifiableOnly mode
  = Err (TypeError "Cannot read property 'map' of undefined")
  /\ getValidationData compile (S fuel) unmodifiableOnly
     = Err (TypeError "Cannot read property 'map' of undefined")
  /\ getSchema (S (S fuel)) unmodifiableAndRequired mode
     = Ok (VObj [("type", VStr "object");
                 ("properties", VObj [("name", VObj [("type", VStr "string")])]);
                 ("required", VArr [VStr "name"]);
                 ("additionalProperties", VBool false)]).
Proof.
  assert (H : forall m, getSchema (S fuel) unmodifiableOnly m
                        = Err (TypeError "Cannot read property 'map' of undefined")).
  { intros m. reflexivity. }
  split; [apply H|]. split.
  - unfold getValidationData. now rewrite H.
  - reflexivity.
Qed.

(** X19.  The crash does not depend on the example: a node with [properties]
    and [unmodifiableProperties] and without a truthy [required] stops the
    derivation with that TypeError. *)
Lemma unmodifiable_needs_required (fuel : nat) (root : value) (mode : string)
    (schema0 schema : value) (path : string) :
  resolveRef root schema0 = Ok schema ->
  truthy (getP schema "properties") = true ->
  truthy (getP schema "unmodifiableProperties") = true ->
  truthy (getP schema "required") = false ->
  updateSubSchema (S fuel) root mode schema0 path
  = Err (TypeError "Cannot read property 'map' of undefined").
Proof.
  intros Hres Hprops Hunmod Hreq.
  apply (updateSubSchema_working_error _ _ _ _ schema); [exact Hres|].
  unfold workingProperties, requiredFor. now rewrite Hprops, Hunmod, Hreq.
Qed.

(** ** [$ref] *)

Module RefFacts.

Lemma assoc_in_keys {A : Type} (k : string) (l : list (string * A)) :
  In k (List.map fst l) -> assoc k l <> None.
Proof.
  induction l as [|[k0 v0] l IH]; intros H; [destruct H|].
  simpl in *. destruct (String.eqb k k0) eqn:E; [discriminate|].
  destruct H as [->|H]; [now rewrite String.eqb_refl in E | now apply IH].
Qed.

Lemma keys_replaceKey (k : string) (v : value) (l : list (string * value)) :
  List.map fst (replaceKey k v l) = List.map fst l.
Proof.
  induction l as [|[k0 v0] l IH]; [reflexivity|].
  simpl. destruct (String.eqb k k0) eqn:E; simpl.
  - apply String.eqb_eq in E. now subst.
  - now rewrite IH.
Qed.

Lemma in_keys_insertIndexKey (i : nat) (k x : string) (v : value)
    (l : list (string * value)) :
  In x (List.map fst (insertIndexKey i k v l)) <-> x = k \/ In x (List.map fst l).
Proof.
  induction l as [|[k0 v0] l IH]; simpl; [intuition congruence|].
  destruct (indexOfKey k0) as [j|]; [destruct (j <? i)%nat|]; simpl;
    rewrite ?IH; intuition congruence.
Qed.

Lemma NoDup_insertIndexKey (i : nat) (k : string) (v : value) (l : list (string * value)) :
  List.NoDup (List.map fst l) -> ~ In k (List.map fst l) ->
  List.NoDup (List.map fst (insertIndexKey i k v l)).
Proof.
  induction l as [|[k0 v0] l IH]; intros Hnd Hk; simpl.
  - constructor; [intros [] | constructor].
  - simpl in Hnd, Hk. inversion Hnd as [|? ? Hk0 Hl]; subst.
    destruct (indexOfKey k0) as [j|]; [destruct (j <? i)%nat|]; simpl.
    + constructor.
      * rewrite in_keys_insertIndexKey. intros [->|Hin]; [apply Hk; now left | now apply Hk0].
      * apply IH; [exact Hl | intros Hin; apply Hk; now right].
    + constructor; [exact Hk | exact Hnd].
    + constructor; [exact Hk | exact Hnd].
Qed.

Lemma NoDup_snoc {A : Type} (l : list A) (k : A) :
  List.NoDup l -> ~ In k l -> List.NoDup (l ++ [k]).
Proof.
  induction l as [|a l IH]; intros Hnd Hk; simpl.
  - constructor; [intros [] | constructor].
  - inversion Hnd as [|? ? Ha Hl]; subst. constructor.
    + rewrite in_app_iff. intros [Hin|[->|[]]]; [now apply Ha | apply Hk; now left].
    + apply IH; [exact Hl | intros Hin; apply Hk; now right].
Qed.

Lemma NoDup_setKey (k : string) (v : value) (l : list (string * value)) :
  List.NoDup (List.map fst l) -> List.NoDup (List.map fst (setKey k v l)).
Proof.
  intros Hnd. unfold setKey. destruct (assoc k l) eqn:E.
  - now rewrite keys_replaceKey.
  - assert (Hk : ~ In k (List.map fst l)).
    { intros Hin. now apply assoc_in_keys in Hin. }
    destruct (indexOfKey k).
    + now apply NoDup_insertIndexKey.
    + rewrite map_app. simpl. now apply NoDup_snoc.
Qed.

Lemma NoDup_fold_setKey {A : Type} (f : A -> string * value) (entries : list A) :
  forall acc,
    List.NoDup (List.map fst acc) ->
    List.NoDup (List.map fst
      (fold_left (fun acc x => setKey (fst (f x)) (snd (f x)) acc) entries acc)).
Proof.
  induction entries as [|x entries IH]; intros acc H; [exact H|].
  simpl. apply IH. now apply NoDup_setKey.
Qed.

Lemma clone_fields (kvs : list (string * value)) :
  clone (VObj kvs)
  = VObj (fold_left (fun acc kv => setKey (fst (cloneEntry kv)) (snd (cloneEntry kv)) acc)
                    kvs []).
Proof.
  simpl. f_equal. generalize (@nil (string * value)) as acc.
  induction kvs as [|[k v] kvs IH]; intros acc; [reflexivity|].
  simpl. apply IH.
Qed.

Lemma fold_setKey_map {A : Type} (f : A -> string * value) (entries : list A) :
  forall acc,
    fold_left (fun acc x => setKey (fst (f x)) (snd (f x)) acc) entries acc
    = fold_left (fun acc kv => setKey (fst kv) (snd kv) acc) (List.map f entries) acc.
Proof.
  induction entries as [|x entries IH]; intros acc; [reflexivity|]. simpl. apply IH.
Qed.

Lemma assoc_map_clone (k : string) (kvs : list (string * value)) :
  assoc k (List.map cloneEntry kvs) = clone <$> assoc k kvs.
Proof.
  induction kvs as [|[k0 v0] kvs IH]; [reflexivity|].
  simpl. destruct (String.eqb k k0); [reflexivity | exact IH].
Qed.

(** Reading a key of the clone of an object whose keys are distinct. *)
Lemma getP_clone_object (kvs : list (string * value)) (k : string) :
  List.NoDup (List.map fst kvs) ->
  getP (clone (VObj kvs)) k = clone (getP (VObj kvs) k).
Proof.
  intros Hnd. rewrite clone_fields, (fold_setKey_map cloneEntry).
  unfold getP. rewrite assoc_fold_setKey, assoc_rev, assoc_map_clone.
  - simpl. destruct (assoc k kvs); reflexivity.
  - rewrite map_map. simpl. exact Hnd.
Qed.

Lemma NoDup_clone_keys (kvs : list (string * value)) :
  List.NoDup (ownKeys (clone (VObj kvs))).
Proof.
  rewrite clone_fields. unfold ownKeys, ownEntries.
  apply (NoDup_fold_setKey cloneEntry). constructor.
Qed.

Lemma splitOn_segment (seg rest : string) :
  noSlash seg = true ->
  splitOn "/" (seg ++ "/" ++ rest) = seg :: splitOn "/" rest.
Proof.
  induction seg as [|c seg IH]; intros H.
  - reflexivity.
  - simpl in H. apply andb_prop in H. destruct H as [Hc Hseg].
    rewrite append_cons. simpl. rewrite (IH Hseg).
    apply negb_true_iff in Hc. now rewrite Hc.
Qed.

Lemma splitOn_last (seg : string) :
  noSlash seg = true -> splitOn "/" seg = [seg].
Proof.
  induction seg as [|c seg IH]; intros H; [reflexivity|].
  simpl in H. apply andb_prop in H. destruct H as [Hc Hseg].
  simpl. rewrite (IH Hseg). apply negb_true_iff in Hc. now rewrite Hc.
Qed.

Lemma splitOn_joinPath (segments : list string) :
  segments <> [] -> forallb noSlash segments = true ->
  splitOn "/" (joinPath segments) = segments.
Proof.
  induction segments as [|seg rest IH]; intros Hne H; [now destruct Hne|].
  simpl in H. apply andb_prop in H. destruct H as [Hseg Hrest].
  destruct rest as [|seg' rest].
  - simpl. now apply splitOn_last.
  - change (joinPath (seg :: seg' :: rest)) with (seg ++ "/" ++ joinPath (seg' :: rest)).
    rewrite splitOn_segment by exact Hseg.
    f_equal. apply IH; [discriminate | exact Hrest].
Qed.

Lemma replaceFirst_hash (rest : string) :
  replaceFirst "#/" EmptyString ("#/" ++ rest) = rest.
Proof. destruct rest; reflexivity. Qed.

End RefFacts.
Import RefFacts.

(** What the derivation leaves under a retained property: the
    derivation of the node of that property, under the path of the
    property. *)
Lemma properties_loop_assigns (self : value -> string -> result value) (schema : value)
    (path : string) (properties : list string) (p : string) (names : list string) :
  existsb (String.eqb p) properties = true ->
  forall props props',
    foldM (fun props property =>
             if existsb (String.eqb property) properties then
               let* sub := self (getP (getP schema "properties") property)
                                (path ++ ".properties." ++ property) in
               Ok (setKey property sub props)
             else Ok props) names props = Ok props' ->
    (In p names
     \/ exists sub, self (getP (getP schema "properties") p) (path ++ ".properties." ++ p)
                     = Ok sub /\ assoc p props = Some sub) ->
    exists sub, self (getP (getP schema "properties") p) (path ++ ".properties." ++ p)
                = Ok sub /\ assoc p props' = Some sub.
Proof.
  intros Hp. induction names as [|name names IH]; intros props props' H Hin.
  - inversion H; subst props'. destruct Hin as [[]|Hsub]; exact Hsub.
  - simpl in H. destruct (String.eqb p name) eqn:E.
    + apply String.eqb_eq in E. subst name. rewrite Hp in H.
      destruct (self _ _) as [sub|] eqn:Hsub; [|discriminate]. simpl in H.
      apply (IH _ _ H). right. exists sub. split; [reflexivity|].
      now rewrite assoc_setKey, String.eqb_refl.
    + assert (Hkeep : In p names
                      \/ exists sub,
                           self (getP (getP schema "properties") p)
                                (path ++ ".properties." ++ p) = Ok sub
                           /\ assoc p props = Some sub).
      { destruct Hin as [[->|Hin]|Hsub]; [|now left | now right].
        now rewrite String.eqb_refl in E. }
      destruct (existsb (String.eqb name) properties).
      * destruct (self (getP (getP schema "properties") name) _) as [sub0|];
          [|discriminate].
        simpl in H. apply (IH _ _ H).
        destruct Hkeep as [Hin'|(sub & Hsub & Hassoc)]; [now left|].
        right. exists sub. split; [exact Hsub|]. now rewrite assoc_setKey, E.
      * simpl in H. now apply (IH _ _ H).
Qed.

Lemma derived_property (fuel : nat) (root : value) (mode : string)
    (schema0 schema out : value) (path p : string) :
  resolveRef root schema0 = Ok schema ->
  In p (ownKeys (getP schema "properties")) ->
  existsb (String.eqb p) (retainedProperties mode schema) = true ->
  updateSubSchema (S fuel) root mode schema0 path = Ok out ->
  updateSubSchema fuel root mode (getP (getP schema "properties") p)
    (path ++ ".properties." ++ p)
  = Ok (getP (getP out "properties") p).
Proof.
  intros Hres Hp Hret Hout.
  rewrite updateSubSchema_unfold, Hres in Hout. simpl bind in Hout.
  destruct (workingProperties mode schema (requiredFor mode schema) path)
    as [props|] eqn:Hwork; [|discriminate].
  simpl bind in Hout.
  apply workingProperties_retained in Hwork. subst props.
  destruct (foldM _ _ _) as [ret|] eqn:Hloop; [|discriminate].
  simpl in Hout. inversion Hout; subst out. clear Hout.
  assert (Hkey : In "properties" (ownKeys schema)).
  { apply own_key_of_defined; [reflexivity | reflexivity |].
    intros Hundef. rewrite Hundef in Hp. destruct Hp. }
  destruct (loop_establishes (updateSubSchema fuel root mode) schema path
              (requiredFor mode schema) (retainedProperties mode schema) "properties"
              (fun o => exists ps sub,
                   o = Some (VObj ps)
                   /\ updateSubSchema fuel root mode (getP (getP schema "properties") p)
                        (path ++ ".properties." ++ p) = Ok sub
                   /\ assoc p ps = Some sub)
              (ownKeys schema)) with (ret := @nil (string * value)) (ret' := ret)
    as (ps & sub & Hps & Hsub & Hassoc).
  - intros r r' Hround. unfold deriveKey in Hround.
    simpl String.eqb in Hround. cbv iota in Hround.
    destruct (foldM _ (ownKeys (getP schema "properties")) []) as [ps|] eqn:Hinner;
      [|discriminate].
    simpl in Hround. inversion Hround; subst r'.
    destruct (properties_loop_assigns _ _ _ _ p _ Hret _ _ Hinner (or_introl Hp))
      as (sub & Hsub & Hassoc).
    exists ps, sub. split; [now rewrite assoc_setKey | now split].
  - now left.
  - exact Hloop.
  - rewrite Hsub.
    change (getP (VObj ret) "properties") with (default VUndef (assoc "properties" ret)).
    rewrite Hps.
    change (getP (default VUndef (Some (VObj ps))) p) with (default VUndef (assoc p ps)).
    now rewrite Hassoc.
Qed.

(** Once the schema is resolved, [convertElement] works with the node
    reached alone. *)
Lemma convertElement_resolved
    (convertValue : value -> value -> value -> result value)
    (root schema target data : value) :
  resolveSchema root schema = Ok target ->
  resolveSchema root target = Ok target ->
  convertElement convertValue root schema data
  = convertElement convertValue root target data.
Proof. intros H1 H2. destruct data; simpl; now rewrite H1, H2. Qed.

(** C3, counterexample.  The node [refNode] has [properties] of its own,
    with [age] an int64, and refers to a definition whose [properties]
    make [age] an int32.  With the node's own keys winning, the resolved
    node would keep the int64.  The schema transformer merges the other
    way round: the derived schema has the int32 of the definition.  The
    transcoder does not merge at all: it replaces the node by the
    definition, so [age] is converted as an int32 and the node's own
    [description] is not part of the schema it works with. *)
Lemma ref_target_overrides_own_keys :
  getP (getP (getP (resolveOwnKeysWin refRoot refNode "#/definitions/person")
                   "properties") "age") "mongoType" = VStr "int64"
  /\ resolveRef refRoot refNode
     = Ok (VObj [("description", VStr "the owner");
                 ("properties", VObj [("age", VObj [("mongoType", VStr "int32")])]);
                 ("type", VStr "object")])
  /\ resolveSchema refRoot refNode
     = Ok (VObj [("type", VStr "object");
                 ("properties", VObj [("age", VObj [("mongoType", VStr "int32")])])])
  /\ documentToDbFormat bson1 (builtins bson1)
       (VObj [("owner", VObj [("age", VStr "7")])]) refRoot
     = Ok (VObj [("owner",
                  VObj [("age", VInst "Int32" [("_bsontype", VStr "Int32");
                                               ("value", VNum 7)])])]).
Proof. repeat split; vm_compute; reflexivity. Qed.

(** C3, as amended.  Let a node have the string [ref] under [$ref].
    Both the schema transformer and the transcoder walk from the root of
    the master schema along [ref], with its first ["#/"] removed and split
    at ['/']: for [ref = "#/k1/.../kn"] the walk reads [k1], ..., [kn] in
    turn, as long as the value reached is truthy.

    The transformer works with a copy of the node into which the keys of
    the node reached are merged so that the keys of the node reached win
    on conflict, and without [$ref]: deriving the node is deriving that
    merged node.  When the node is a retained property [p] of the master
    schema, what the derived schema has under [properties.p] is the
    derivation of the merged node, merged from the node reached from the
    schema [getSchema] was called with.

    The transcoder works with the node reached itself, and nothing of the
    referring node: converting data against the node is converting it
    against the node reached.  When the node is the property [v] of the
    master schema, a document [{v: child}] with a nested object or array
    for [child] is converted by converting [child] against the node
    reached from the schema [convertDocument] was called with. *)
Theorem ref_resolution (root : value) (fields : list (string * value)) (ref : string) :
  assoc "$ref" fields = Some (VStr ref) ->
  ref <> EmptyString ->
  List.NoDup (List.map fst fields) ->
  List.NoDup (ownKeys (followRef root ref)) ->
  (exists merged,
      resolveRef root (VObj fields) = Ok (VObj merged)
      /\ (forall k,
            getP (VObj merged) k
            = if String.eqb k "$ref" then VUndef
              else match assoc k (ownEntries (followRef root ref)) with
                   | Some v => v
                   | None => clone (getP (VObj fields) k)
                   end)
      /\ (forall fuel mode path,
            updateSubSchema (S fuel) root mode (VObj fields) path
            = updateSubSchema (S fuel) root mode (VObj merged) path)
      /\ (forall fuel mode p out,
            truthy (getP root "$ref") = false ->
            getP (getP root "properties") p = VObj fields ->
            In p (ownKeys (getP root "properties")) ->
            existsb (String.eqb p) (retainedProperties mode root) = true ->
            getSchema (S (S fuel)) root mode = Ok out ->
            updateSubSchema (S fuel) root mode (VObj merged) ("schema.properties." ++ p)
            = Ok (getP (getP out "properties") p)))
  /\ resolveSchema root (VObj fields) = Ok (followRef root ref)
  /\ (forall convertValue data,
        resolveSchema root (followRef root ref) = Ok (followRef root ref) ->
        convertElement convertValue root (VObj fields) data
        = convertElement convertValue root (followRef root ref) data)
  /\ (forall convertValue v child cn,
        truthy (getP root "$ref") = false ->
        getP (getP root "properties") v = VObj fields ->
        reservedKey v = false ->
        ctorName child = Ok cn -> isComposite cn = true ->
        resolveSchema root (followRef root ref) = Ok (followRef root ref) ->
        convertDocument (VObj [(v, child)]) root convertValue
        = (let* x := convertElement convertValue root (followRef root ref) child in
           Ok (VObj [(v, x)])))
  /\ (forall segments,
        segments <> [] -> forallb noSlash segments = true ->
        ref = "#/" ++ joinPath segments ->
        followRef root ref
        = fold_left (fun node p => if truthy node then getP node p else node)
                    segments root).
Proof.
  intros Href Hne Hnd Hndref.
  assert (Htruthy : truthy (VStr ref) = true).
  { simpl. destruct (String.eqb_spec ref EmptyString) as [->|_];
      [now destruct Hne | reflexivity]. }
  assert (Hget : getP (VObj fields) "$ref" = VStr ref) by (simpl; now rewrite Href).
  assert (Htrans : resolveSchema root (VObj fields) = Ok (followRef root ref)).
  { unfold resolveSchema.
    change (getProp (VObj fields) "$ref") with (@Ok value (getP (VObj fields) "$ref")).
    rewrite bind_Ok, Hget, Htruthy. reflexivity. }
  assert (Hroot : forall k, getP (getP root "properties") k = VObj fields ->
                            truthy root = true /\ truthy (getP root "properties") = true).
  { intros k Hnode.
    assert (Hp : truthy (getP root "properties") = true).
    { apply (getP_composite_truthy _ k). now rewrite Hnode. }
    split; [|exact Hp].
    destruct root; simpl in Hp |- *; try discriminate; reflexivity. }
  split; [|split; [|split; [|split]]].
  - unfold resolveRef.
    change (getProp (VObj fields) "$ref") with (@Ok value (getP (VObj fields) "$ref")).
    rewrite bind_Ok, Hget, Htruthy.
    rewrite (getP_clone_object fields "$ref" Hnd), Hget.
    change (refString (clone (VStr ref))) with (@Ok string ref). rewrite bind_Ok.
    eexists. split; [reflexivity|].
    match goal with |- (forall k, getP (VObj ?m) k = _) /\ _ => set (merged := m) end.
    assert (Hkeys : forall k,
               getP (VObj merged) k
               = if String.eqb k "$ref" then VUndef
                 else match assoc k (ownEntries (followRef root ref)) with
                      | Some v => v
                      | None => clone (getP (VObj fields) k)
                      end).
    { intros k. unfold merged, getP at 1. rewrite assoc_deleteKey.
      destruct (String.eqb k "$ref"); [reflexivity|].
      unfold spread. rewrite assoc_fold_setKey, rev_app_distr, assoc_app.
      rewrite (assoc_rev k (ownEntries (followRef root ref)) Hndref).
      destruct (assoc k (ownEntries (followRef root ref))) as [v|]; [reflexivity|].
      rewrite assoc_rev by apply NoDup_clone_keys.
      rewrite <- (getP_clone_object fields k Hnd).
      destruct (clone (VObj fields)) eqn:E; try (rewrite clone_fields in E; discriminate).
      simpl. now destruct (assoc k kvs). }
    assert (Hmerged : resolveRef root (VObj merged) = Ok (VObj merged)).
    { unfold resolveRef.
      change (getProp (VObj merged) "$ref") with (@Ok value (getP (VObj merged) "$ref")).
      now rewrite bind_Ok, (Hkeys "$ref"). }
    assert (Hnode : resolveRef root (VObj fields) = Ok (VObj merged)).
    { unfold resolveRef.
      change (getProp (VObj fields) "$ref") with (@Ok value (getP (VObj fields) "$ref")).
      rewrite bind_Ok, Hget, Htruthy.
      rewrite (getP_clone_object fields "$ref" Hnd), Hget. reflexivity. }
    assert (Hderive : forall fuel mode path,
               updateSubSchema (S fuel) root mode (VObj fields) path
               = updateSubSchema (S fuel) root mode (VObj merged) path).
    { intros fuel mode path. now rewrite !updateSubSchema_unfold, Hnode, Hmerged. }
    split; [exact Hkeys|]. split; [exact Hderive|].
    intros fuel mode p out Hnoref Hprop Hp Hret Hout.
    assert (Hself : resolveRef root root = Ok root).
    { destruct (Hroot p Hprop) as [Ht _]. unfold resolveRef.
      destruct root; try discriminate;
        change (getProp ?r "$ref") with (@Ok value (getP r "$ref"));
        now rewrite bind_Ok, Hnoref. }
    rewrite <- Hderive.
    pose proof (derived_property (S fuel) root mode root root out "schema" p
                  Hself Hp Hret Hout) as Hsub.
    now rewrite Hprop in Hsub.
  - exact Htrans.
  - intros convertValue data Htarget.
    now apply convertElement_resolved.
  - intros convertValue v child cn Hnoref Hprop Hv Hcn Hc Htarget.
    destruct (Hroot v Hprop) as [Ht Hp].
    assert (Hself : resolveSchema root root = Ok root).
    { unfold resolveSchema.
      destruct root; try discriminate;
        change (getProp ?r "$ref") with (@Ok value (getP r "$ref"));
        now rewrite bind_Ok, Hnoref. }
    assert (Hdoc : ctorName (VObj [(v, child)]) = Ok (VStr "Object")).
    { apply ctorName_plainKeys. simpl. now rewrite Hv. }
    rewrite convertDocument_object, convertElement_object, Hself by assumption.
    simpl bind. simpl foldM. unfold convertField. simpl fst. simpl snd.
    rewrite Hcn, bind_Ok, Hc.
    assert (Htest : truthy (propertyTest root v) = true).
    { unfold propertyTest, andThen. now rewrite Ht, Hp, Hprop. }
    rewrite Htest, Hprop.
    rewrite (convertElement_resolved _ _ _ _ child Htrans Htarget).
    destruct (convertElement convertValue root (followRef root ref) child); [|reflexivity].
    unfold setKey. simpl. now destruct (indexOfKey v).
  - intros segments Hseg Hslash ->. unfold followRef.
    rewrite replaceFirst_hash, splitOn_joinPath by assumption. reflexivity.
Qed.

Lemma ref_resolution_witness :
  resolveSchema refRoot refNode
  = Ok (VObj [("type", VStr "object");
              ("properties", VObj [("age", VObj [("mongoType", VStr "int32")])])])
  /\ followRef refRoot "#/definitions/person" = getP (getP refRoot "definitions") "person"
  /\ (forall convertValue,
        convertDocument (VObj [("owner", VObj [("age", VStr "7")])]) refRoot convertValue
        = (let* x := convertElement convertValue refRoot
                       (followRef refRoot "#/definitions/person")
                       (VObj [("age", VStr "7")]) in
           Ok (VObj [("owner", x)])))
  /\ (forall fuel,
        updateSubSchema (S fuel) refRoot "insert" refNode "schema.properties.owner"
        = updateSubSchema (S fuel) refRoot "insert"
            (VObj [("description", VStr "the owner");
                   ("properties", VObj [("age", VObj [("mongoType", VStr "int32")])]);
                   ("type", VStr "object")])
            "schema.properties.owner")
  /\ (forall out,
        getSchema 3 refRoot "insert" = Ok out ->
        updateSubSchema 2 refRoot "insert"
          (VObj [("description", VStr "the owner");
                 ("properties", VObj [("age", VObj [("mongoType", VStr "int32")])]);
                 ("type", VStr "object")])
          "schema.properties.owner"
        = Ok (getP (getP out "properties") "owner"))
  /\ getSchema 3 refRoot "insert"
     = Ok (VObj [("type", VStr "object");
                 ("properties",
                  VObj [("owner",
                         VObj [("description", VStr "the owner");
                               ("properties",
                                VObj [("age", VObj [("mongoType", VStr "int32")])]);
                               ("type", VStr "object")])])]).
Proof.
  destruct (ref_resolution refRoot
              [("$ref", VStr "#/definitions/person"); ("description", VStr "the owner");
               ("properties", VObj [("age", VObj [("mongoType", VStr "int64")])])]
              "#/definitions/person" eq_refl)
    as ((merged & Hmerged & _ & Hderive & Hschema) & Htrans & _ & Hdoc & Hwalk).
  - discriminate.
  - repeat constructor; simpl; intuition discriminate.
  - repeat constructor; simpl; intuition discriminate.
  - vm_compute in Hmerged. inversion Hmerged; subst merged.
    split; [exact Htrans|]. split; [|split; [|split; [|split]]].
    + apply (Hwalk ["definitions"; "person"]); [discriminate | reflexivity | reflexivity].
    + intros convertValue.
      apply (Hdoc convertValue "owner" (VObj [("age", VStr "7")]) (VStr "Object"));
        reflexivity.
    + intros fuel. apply Hderive.
    + intros out Hout.
      apply (Hschema 1%nat "insert" "owner" out);
        [reflexivity | reflexivity | left; reflexivity | reflexivity | exact Hout].
    + reflexivity.
Defined.

(** * Further properties

    What the code shows beside the claims above: the registry and the
    remaining codecs of [types.js], the transcoder of [conversion.js] as
    a whole, [clone] and the reach of the derivation in
    [Collection/validateDocument.js], [errors.js], [connexion.js] and the
    method [validateDocument] of [Collection.js]. *)

(** ** Assignments in enumeration order *)

Module EnumerationOrder.

Lemma insertIndexKey_last (i : nat) (k : string) (v : value) (acc : list (string * value)) :
  forallb (fun k' => match indexOfKey k' with
                     | Some j => (j <? i)%nat
                     | None => false
                     end) (List.map fst acc) = true ->
  insertIndexKey i k v acc = (acc ++ [(k, v)])%list.
Proof.
  induction acc as [|[k' v'] acc IH]; intros H; [reflexivity|].
  simpl in H. apply andb_prop in H. destruct H as [Hk' Hacc].
  simpl. destruct (indexOfKey k') as [j|]; [|discriminate].
  rewrite Hk'. now rewrite IH.
Qed.

Lemma existsb_eqb_false (k : string) (keys : list string) :
  existsb (String.eqb k) keys = false -> ~ In k keys.
Proof.
  intros H Hin. assert (existsb (String.eqb k) keys = true); [|congruence].
  apply existsb_exists. exists k. split; [exact Hin | apply String.eqb_refl].
Qed.

Lemma setKey_last (k : string) (v : value) (acc : list (string * value)) :
  entersLast (List.map fst acc) k = true -> setKey k v acc = (acc ++ [(k, v)])%list.
Proof.
  unfold entersLast. intros H. apply andb_prop in H. destruct H as [Hnew Hidx].
  apply negb_true_iff, existsb_eqb_false in Hnew.
  unfold setKey. rewrite (assoc_None_notin k acc Hnew).
  destruct (indexOfKey k) as [i|]; [|reflexivity].
  now apply insertIndexKey_last.
Qed.

(** A run of assignments of keys in enumeration order appends them. *)
Lemma foldM_setKey_ordered {A : Type} (f : A -> string) (g : A -> result value)
    (entries : list A) :
  forall acc,
    enumerationOrder (List.map fst acc) (List.map f entries) = true ->
    foldM (fun ret x => let* y := g x in Ok (setKey (f x) y ret)) entries acc
    = (let* ys := mapM g entries in
       Ok (acc ++ combine (List.map f entries) ys)%list).
Proof.
  induction entries as [|x entries IH]; intros acc H.
  - simpl. now rewrite app_nil_r.
  - simpl in H. apply andb_prop in H. destruct H as [Hx Hrest].
    simpl. destruct (g x) as [y|e]; [|reflexivity]. simpl.
    rewrite (setKey_last _ _ _ Hx), IH.
    + destruct (mapM g entries) as [ys|e]; [|reflexivity]. simpl.
      now rewrite <- app_assoc.
    + now rewrite map_app.
Qed.

Lemma fold_setKey_ordered {A : Type} (f : A -> string * value) (entries : list A) :
  forall acc,
    enumerationOrder (List.map fst acc) (List.map (fun x => fst (f x)) entries) = true ->
    fold_left (fun acc x => setKey (fst (f x)) (snd (f x)) acc) entries acc
    = (acc ++ List.map f entries)%list.
Proof.
  induction entries as [|x entries IH]; intros acc H.
  - simpl. now rewrite app_nil_r.
  - simpl in H. apply andb_prop in H. destruct H as [Hx Hrest].
    simpl. rewrite (setKey_last _ _ _ Hx), IH.
    + rewrite <- app_assoc. simpl. now destruct (f x).
    + now rewrite map_app.
Qed.

Lemma enumerationOrder_distinct (keys : list string) :
  forall seen,
    enumerationOrder seen keys = true ->
    List.NoDup keys /\ forall k, In k keys -> ~ In k seen.
Proof.
  induction keys as [|k0 rest IH]; intros seen H.
  - split; [constructor | intros k []].
  - simpl in H. apply andb_prop in H. destruct H as [Hk0 Hrest].
    destruct (IH _ Hrest) as [Hnd Hfresh].
    unfold entersLast in Hk0. apply andb_prop in Hk0. destruct Hk0 as [Hnew _].
    apply negb_true_iff, existsb_eqb_false in Hnew.
    split.
    + constructor; [|exact Hnd].
      intros Hin. apply (Hfresh k0 Hin). apply in_or_app. right. now left.
    + intros k [<-|Hin]; [exact Hnew|].
      intros Hseen. apply (Hfresh k Hin). apply in_or_app. now left.
Qed.

Lemma assoc_of_entry {A : Type} (k : string) (x : A) (l : list (string * A)) :
  List.NoDup (List.map fst l) -> In (k, x) l -> assoc k l = Some x.
Proof.
  induction l as [|[k0 x0] l IH]; intros Hnd Hin; [destruct Hin|].
  inversion Hnd as [|? ? Hk0 Hl]; subst. simpl.
  destruct Hin as [E|Hin].
  - inversion E; subst. now rewrite String.eqb_refl.
  - destruct (String.eqb k k0) eqn:E; [|now apply IH].
    apply String.eqb_eq in E. subst k0. exfalso. apply Hk0.
    apply in_map_iff. now exists (k, x).
Qed.

(** A loop that assigns to every key of [kvs] the value it has in [kvs]
    builds [kvs]. *)
Lemma foldM_assigns (f : list (string * value) -> string -> result (list (string * value)))
    (kvs : list (string * value)) :
  (forall k x, In (k, x) kvs -> forall ret, f ret k = Ok (setKey k x ret)) ->
  forall acc,
    enumerationOrder (List.map fst acc) (List.map fst kvs) = true ->
    foldM f (List.map fst kvs) acc = Ok (acc ++ kvs)%list.
Proof.
  induction kvs as [|[k x] kvs IH]; intros Hf acc Hord.
  - simpl. now rewrite app_nil_r.
  - simpl in Hord. apply andb_prop in Hord. destruct Hord as [Hk Hrest].
    simpl. rewrite (Hf k x (or_introl eq_refl)). simpl.
    rewrite (setKey_last _ _ _ Hk), IH.
    + now rewrite <- app_assoc.
    + intros k' x' Hin. apply Hf. now right.
    + now rewrite map_app.
Qed.

End EnumerationOrder.
Import EnumerationOrder.

Module ValueInduction.

(** Induction on a value through its elements and fields. *)
Lemma value_nested_ind (P : value -> Prop) :
  P VUndef -> P VNull -> (forall b, P (VBool b)) -> (forall n, P (VNum n)) -> P VNaN ->
  (forall s, P (VStr s)) ->
  (forall xs, Forall P xs -> P (VArr xs)) ->
  (forall kvs, Forall (fun kv => P (snd kv)) kvs -> P (VObj kvs)) ->
  (forall t, P (VDate t)) -> (forall bs, P (VBuffer bs)) ->
  (forall cls fields, Forall (fun kv => P (snd kv)) fields -> P (VInst cls fields)) ->
  forall v, P v.
Proof.
  intros Hu Hn Hb Hnum Hnan Hs Harr Hobj Hd Hbuf Hinst.
  fix self 1. intros v. destruct v as [| |b|n| |s|xs|kvs|t|bs|cls fields].
  - exact Hu.
  - exact Hn.
  - apply Hb.
  - apply Hnum.
  - exact Hnan.
  - apply Hs.
  - apply Harr. induction xs as [|x xs IH]; constructor; [apply self | exact IH].
  - apply Hobj. induction kvs as [|[k x] kvs IH]; constructor; [apply self | exact IH].
  - apply Hd.
  - apply Hbuf.
  - apply Hinst. induction fields as [|[k x] fields IH]; constructor; [apply self | exact IH].
Qed.

End ValueInduction.
Import ValueInduction.

(** ** The type registry ([types.js], lines 20-65) *)

(** X1.  [addType(type, toDb, fromDb)] registers both directions under
    [type]: afterwards [valueToDbFormat] with that type applies [toDb] and
    [dbFormatToValue] applies [fromDb], whatever was registered under the
    name before (a built-in codec is replaced in both directions), and
    every other type is dispatched as it was.  The name [__proto__] is
    left out: assigned to, it replaces the prototype of the registry
    instead of adding a key. *)
Theorem addType_registers_both_directions (drv : Driver) (reg : Registry)
    (type : string) (toDb fromDb : codec) :
  type <> "__proto__" ->
  (forall value encoding,
      valueToDbFormat drv (addType type toDb fromDb reg) value (VStr type) encoding
      = toDb value encoding
      /\ dbFormatToValue drv (addType type toDb fromDb reg) value (VStr type) encoding
         = fromDb value encoding)
  /\ (forall other value encoding,
        toKey drv other <> type ->
        valueToDbFormat drv (addType type toDb fromDb reg) value other encoding
        = valueToDbFormat drv reg value other encoding
        /\ dbFormatToValue drv (addType type toDb fromDb reg) value other encoding
           = dbFormatToValue drv reg value other encoding).
Proof.
  intros _. split.
  - intros v enc. unfold valueToDbFormat, dbFormatToValue, dispatch, addType. simpl.
    now rewrite !lookup_insert_eq.
  - intros other v enc Hne. unfold valueToDbFormat, dbFormatToValue, dispatch, addType. simpl.
    now rewrite !lookup_insert_ne by congruence.
Qed.

Lemma addType_registers_both_directions_witness :
  valueToDbFormat bson1 (addType "int32" (fun v _ => Ok v) date_fromDb (builtins bson1))
    (VStr "42") (VStr "int32") VUndef
  = Ok (VStr "42")
  /\ valueToDbFormat bson1 (addType "int32" (fun v _ => Ok v) date_fromDb (builtins bson1))
       (VStr "0x1a2b") (VStr "int128") VUndef
     = valueToDbFormat bson1 (builtins bson1) (VStr "0x1a2b") (VStr "int128") VUndef.
Proof.
  destruct (addType_registers_both_directions bson1 (builtins bson1) "int32"
              (fun v _ => Ok v) date_fromDb) as [Hown Hother].
  - discriminate.
  - split.
    + apply Hown.
    + apply Hother. discriminate.
Defined.

(** ** [numericStringToBuffer] ([types.js], lines 69-90) *)

Module BufferFacts.

Lemma bufferSet_length (buffer : list Byte.byte) (i : nat) (v : value) :
  List.length (bufferSet buffer i v) = List.length buffer.
Proof. unfold bufferSet. apply length_insert. Qed.

Lemma fillBuffer_length (fuel : nat) (str : string) (radix : Z) (nb : nat) :
  forall i cnt buffer,
    List.length (fillBuffer fuel str radix nb i cnt buffer) = List.length buffer.
Proof.
  induction fuel as [|fuel IH]; intros i cnt buffer; [reflexivity|].
  rewrite fillBuffer_round. destruct (i <? String.length str)%nat; [|reflexivity].
  now rewrite IH, bufferSet_length.
Qed.

Lemma numericStringToBuffer_bin (body : string) :
  numericStringToBuffer ("b" ++ body)
  = Ok (fillBuffer (String.length body) body 2 8 8 1
          (bufferSet (Buffer_alloc ((String.length body + 8 - 1) / 8)) 0
             (parseIntStr (sliceStr body (- Z.of_nat 8) None) (Some 2)))).
Proof.
  unfold numericStringToBuffer.
  assert (H0x : startsWith ("b" ++ body) "0x" = false) by reflexivity.
  assert (Hb : startsWith ("b" ++ body) "b" = true) by (destruct body; reflexivity).
  rewrite H0x, Hb. reflexivity.
Qed.

End BufferFacts.
Import BufferFacts.

(** X2.  [numericStringToBuffer] never throws on a string that starts
    with ['0x'] or with ['b'], whatever follows the prefix: it answers a
    buffer of half as many bytes as there are characters after ['0x'],
    and an eighth as many after ['b'], rounded up (no byte for an empty
    body).  On every other string it throws the string ['Invalid value
    ...'], decimal numerals included. *)
Theorem numericStringToBuffer_size (body : string) :
  (exists buffer,
      numericStringToBuffer ("0x" ++ body) = Ok buffer
      /\ List.length buffer = ((String.length body + 1) / 2)%nat)
  /\ (exists buffer,
      numericStringToBuffer ("b" ++ body) = Ok buffer
      /\ List.length buffer = ((String.length body + 7) / 8)%nat)
  /\ (forall str,
      startsWith str "0x" = false -> startsWith str "b" = false ->
      numericStringToBuffer str
      = Err (Thrown (VStr ("Invalid value " ++ str
               ++ ". Only hexadecimal and decimal values are managed by this function")))).
Proof.
  split; [|split].
  - eexists. split; [apply numericStringToBuffer_hex|].
    rewrite fillBuffer_length, bufferSet_length. unfold Buffer_alloc.
    rewrite repeat_length. f_equal. lia.
  - eexists. split; [apply numericStringToBuffer_bin|].
    rewrite fillBuffer_length, bufferSet_length. unfold Buffer_alloc.
    rewrite repeat_length. f_equal. lia.
  - intros str H0x Hb. unfold numericStringToBuffer. now rewrite H0x, Hb.
Qed.

Module ChunkFacts.

Lemma substring_skip (a s : string) (n m : nat) :
  String.substring (String.length a + n) m (a ++ s) = String.substring n m s.
Proof.
  induction a as [|c a IH]; [reflexivity|].
  rewrite append_cons. simpl. exact IH.
Qed.

Lemma substring_whole (a s : string) :
  String.substring 0 (String.length a) (a ++ s) = a.
Proof.
  induction a as [|c a IH].
  - simpl. now destruct (EmptyString ++ s)%string.
  - rewrite append_cons. simpl. now rewrite IH.
Qed.

Section Chunks.

Variable width : nat.
Variable radix : Z.
Variable render : Byte.byte -> string.
Hypothesis width_pos : (0 < width)%nat.
Hypothesis render_length : forall b, String.length (render b) = width.
Hypothesis render_parses : forall b, toUint8 (parseIntStr (render b) (Some radix)) = b.

Lemma textOf_length (l : list Byte.byte) :
  String.length (textOf render l) = (width * List.length l)%nat.
Proof.
  induction l as [|b l IH]; [simpl; lia|].
  unfold textOf in *. simpl. rewrite append_length, IH, render_length. lia.
Qed.

Lemma substring_chunk (l1 l2 : list Byte.byte) (b : Byte.byte) :
  String.substring (width * List.length l1) width (textOf render (l1 ++ b :: l2)%list) = render b.
Proof.
  induction l1 as [|a l1 IH].
  - rewrite Nat.mul_0_r. simpl app. unfold textOf. simpl.
    rewrite <- (render_length b) at 1. apply substring_whole.
  - simpl app. unfold textOf in *. simpl fold_right.
    replace (width * List.length (a :: l1))%nat
      with (String.length (render a) + width * List.length l1)%nat
      by (rewrite render_length; simpl; lia).
    rewrite substring_skip. exact IH.
Qed.

(** The characters that [str.slice(-(width + width * k), -(width * k))]
    cuts out of the text of the bytes [r], written from the highest byte
    down: those of byte [k]. *)
Lemma slice_chunk (r : list Byte.byte) (k : nat) (b : Byte.byte) :
  r !! k = Some b ->
  sliceStr (textOf render (rev r)) (- (Z.of_nat width + Z.of_nat (width * k)))
           (if (k =? 0)%nat then None else Some (- Z.of_nat (width * k)))
  = render b.
Proof.
  intros Hk.
  pose proof (lookup_lt_Some _ _ _ Hk) as Hlt.
  assert (Hr : rev r = (rev (drop (S k) r) ++ b :: rev (take k r))%list).
  { rewrite <- (take_drop_middle r k b Hk) at 1.
    rewrite rev_app_distr. simpl. now rewrite <- app_assoc. }
  assert (Hlen : List.length (rev (drop (S k) r)) = (List.length r - S k)%nat).
  { now rewrite length_rev, length_drop. }
  unfold sliceStr. rewrite textOf_length, length_rev.
  assert (Ha : clampPos (Z.of_nat (width * List.length r))
                        (- (Z.of_nat width + Z.of_nat (width * k)))
               = (width * (List.length r - S k))%nat).
  { unfold clampPos.
    destruct (Z.ltb_spec (- (Z.of_nat width + Z.of_nat (width * k))) 0); [|lia].
    rewrite Z.max_l by nia. nia. }
  rewrite Ha.
  assert (Hb : (match (if (k =? 0)%nat then None else Some (- Z.of_nat (width * k))) with
                | Some t => clampPos (Z.of_nat (width * List.length r)) t
                | None => Z.to_nat (Z.of_nat (width * List.length r))
                end - width * (List.length r - S k))%nat = width).
  { destruct (Nat.eqb_spec k 0) as [->|Hk0].
    - rewrite Nat2Z.id. nia.
    - unfold clampPos. destruct (Z.ltb_spec (- Z.of_nat (width * k)) 0); [|nia].
      rewrite Z.max_l by nia. nia. }
  rewrite Hb, Hr, <- Hlen. apply substring_chunk.
Qed.

Lemma fillBuffer_chunks (r : list Byte.byte) :
  forall fuel k,
    (1 <= k <= List.length r)%nat -> (List.length r - k <= fuel)%nat ->
    fillBuffer fuel (textOf render (rev r)) radix width (width * k) k
               (take k r ++ List.repeat Byte.x00 (List.length r - k))%list
    = r.
Proof.
  assert (Hdone : (take (List.length r) r
                    ++ List.repeat Byte.x00 (List.length r - List.length r))%list = r).
  { rewrite Nat.sub_diag, firstn_all. apply app_nil_r. }
  induction fuel as [|fuel IH]; intros k Hk Hfuel.
  - assert (k = List.length r) by lia. subst k. exact Hdone.
  - rewrite fillBuffer_round, textOf_length, length_rev.
    destruct (Nat.ltb_spec (width * k) (width * List.length r)) as [Hlt|Hge].
    + assert (Hkr : (k < List.length r)%nat) by nia.
      destruct (lookup_lt_is_Some_2 r k) as [b Hb]; [lia|].
      pose proof (slice_chunk r k b Hb) as Hslice.
      destruct (Nat.eqb_spec k 0) as [->|_]; [lia|].
      rewrite Hslice. unfold bufferSet. rewrite render_parses.
      replace (width * k + width)%nat with (width * S k)%nat by lia.
      rewrite insert_app_r_alt by (rewrite length_take; lia).
      rewrite length_take, Nat.min_l, Nat.sub_diag by lia.
      replace (List.length r - k)%nat with (S (List.length r - S k)) by lia.
      simpl List.repeat.
      replace (take k r ++ <[0%nat:=b]> (Byte.x00 :: List.repeat Byte.x00 (List.length r - S k)))%list
        with (take (S k) r ++ List.repeat Byte.x00 (List.length r - S k))%list.
      * apply IH; lia.
      * rewrite (take_S_r _ _ _ Hb), <- app_assoc. reflexivity.
    + assert (k = List.length r) by nia. subst k. exact Hdone.
Qed.

(** The first assignment and the loop together. *)
Lemma buffer_of_chunks (r : list Byte.byte) :
  r <> [] ->
  fillBuffer (String.length (textOf render (rev r))) (textOf render (rev r)) radix width width 1
    (bufferSet (Buffer_alloc ((String.length (textOf render (rev r)) + width - 1) / width)) 0
       (parseIntStr (sliceStr (textOf render (rev r)) (- Z.of_nat width) None) (Some radix)))
  = r.
Proof.
  intros Hne. rewrite textOf_length, length_rev.
  destruct r as [|b r']; [now destruct Hne|].
  set (r := b :: r') in *.
  assert (Hdiv : ((width * List.length r + width - 1) / width)%nat = List.length r).
  { symmetry. apply (Nat.div_unique _ width _ (width - 1)); nia. }
  rewrite Hdiv.
  pose proof (slice_chunk r 0 b eq_refl) as Hslice. simpl Nat.eqb in Hslice. cbv iota in Hslice.
  replace (- (Z.of_nat width + Z.of_nat (width * 0))) with (- Z.of_nat width) in Hslice
    by (rewrite Nat.mul_0_r; lia).
  rewrite Hslice. unfold bufferSet. rewrite render_parses.
  replace (<[0%nat:=b]> (Buffer_alloc (List.length r)))
    with (take 1 r ++ List.repeat Byte.x00 (List.length r - 1))%list
    by (subst r; simpl; now rewrite Nat.sub_0_r).
  pose proof (fillBuffer_chunks r (width * List.length r) 1) as H.
  rewrite Nat.mul_1_r in H. apply H; [simpl; lia|]. nia.
Qed.

End Chunks.

Lemma byte_of_octet (b : Byte.byte) : toUint8 (parseIntStr (binOctet b) (Some 2)) = b.
Proof. destruct b; vm_compute; reflexivity. Qed.

Lemma binOctet_length (b : Byte.byte) : String.length (binOctet b) = 8%nat.
Proof. reflexivity. Qed.

End ChunkFacts.
Import ChunkFacts.

(** X3.  A numeral of whole bytes, two hexadecimal digits or eight
    binary digits a byte with the highest byte written first, is stored
    byte by byte with the lowest byte at index 0. *)
Theorem numericStringToBuffer_is_little_endian (r : list Byte.byte) :
  r <> [] ->
  numericStringToBuffer ("0x" ++ hexOf (rev r)) = Ok r
  /\ numericStringToBuffer ("b" ++ binOf (rev r)) = Ok r.
Proof.
  intros Hne. split.
  - now apply numericStringToBuffer_hexOf.
  - rewrite numericStringToBuffer_bin. f_equal.
    apply (buffer_of_chunks 8 2 binOctet); [lia | apply binOctet_length | apply byte_of_octet
                                           | exact Hne].
Qed.

Lemma numericStringToBuffer_is_little_endian_witness :
  numericStringToBuffer "0x1a2b" = Ok [Byte.x2b; Byte.x1a]
  /\ numericStringToBuffer "b0001101000101011" = Ok [Byte.x2b; Byte.x1a].
Proof.
  apply (numericStringToBuffer_is_little_endian [Byte.x2b; Byte.x1a]). discriminate.
Defined.

(** ** The int128 codec, written and read back ([types.js], lines 130-166) *)

(** X4.  A hexadecimal text of whole bytes that is stored as an int128
    and read again comes back without its leading zero bytes, and as
    ['0x00'] when every byte is zero; a text without a leading zero byte
    comes back as it is.  [new Decimal128(buf)] is taken to keep [buf]
    under [bytes], as the class of the driver does. *)
Theorem int128_text_comes_back_without_leading_zeros
    (drv : Driver) (encoding : value) (r : list Byte.byte) :
  (forall buf, exists stored,
      new_Decimal128 drv (VBuffer buf) = Ok stored /\ getP stored "bytes" = VBuffer buf) ->
  r <> [] ->
  exists stored,
    int128_toDb drv (VStr ("0x" ++ hexOf r)) encoding = Ok stored
    /\ int128_fromDb drv stored encoding
       = Ok (VStr ("0x" ++ match dropZeros r with
                           | [] => "00"
                           | l => hexOf l
                           end)).
Proof.
  intros Hdrv Hne.
  destruct (Hdrv (rev r)) as (stored & Hnew & Hstored).
  exists stored. split.
  - unfold int128_toDb.
    assert (Hpre : startsWith (toLowerCase ("0x" ++ hexOf r)) "0x" = true).
    { change (toLowerCase ("0x" ++ hexOf r))
        with ("0x" ++ toLowerCase (hexOf r))%string.
      apply startsWith_0x. }
    rewrite Hpre. simpl orb. cbv iota.
    rewrite <- (rev_involutive r) at 1.
    rewrite numericStringToBuffer_hexOf.
    + simpl bind. exact Hnew.
    + intros H. apply (f_equal (@rev _)) in H. rewrite rev_involutive in H. now subst.
  - rewrite (int128_fromDb_buffer drv stored encoding _ Hstored).
    unfold int128Text, significant. now rewrite rev_involutive.
Qed.

Lemma int128_text_comes_back_without_leading_zeros_witness :
  exists stored,
    int128_toDb bson1 (VStr "0x00001a2b") VUndef = Ok stored
    /\ int128_fromDb bson1 stored VUndef = Ok (VStr "0x1a2b").
Proof.
  apply (int128_text_comes_back_without_leading_zeros bson1 VUndef
           [Byte.x00; Byte.x00; Byte.x1a; Byte.x2b]).
  - intros buf. eexists. split; reflexivity.
  - discriminate.
Defined.

Module NumberFacts.





Lemma beValue_from (l : list Byte.byte) :
  forall acc,
    fold_left (fun acc b => 256 * acc + Z.of_N (Byte.to_N b)) l acc
    = 256 ^ Z.of_nat (List.length l) * acc + beValue l.
Proof.
  unfold beValue. induction l as [|b l IH]; intros acc; [simpl; lia|].
  simpl fold_left. rewrite IH, (IH (256 * 0 + _)).
  rewrite length_cons, Nat2Z.inj_succ, Z.pow_succ_r by lia. lia.
Qed.




End NumberFacts.
Import NumberFacts.



(** ** The int32 and int64 codecs ([types.js], lines 102-128) *)

Module NumeralFacts.

Lemma digitOf_pretty_char (d : N) :
  (d < 10)%N -> digitOf (pretty_N_char d) = Some (Z.of_N d).
Proof.
  intros H.
  assert (d = 0 \/ d = 1 \/ d = 2 \/ d = 3 \/ d = 4 \/ d = 5 \/ d = 6 \/ d = 7
          \/ d = 8 \/ d = 9)%N as Hd by lia.
  repeat (destruct Hd as [->|Hd]; [reflexivity|]). subst d. reflexivity.
Qed.

(** Reading the digits that [pretty] wrote in front of [s]. *)
Lemma parseDigits_pretty (x : N) :
  forall s acc,
    (0 < x)%N ->
    exists m, parseDigits 10 (pretty_N_go x s) acc
              = parseDigits 10 s (Some (default 0 acc * m + Z.of_N x)).
Proof.
  induction (N.lt_wf_0 x) as [x _ IH]. intros s acc Hx.
  rewrite pretty_N_go_step by exact Hx.
  assert (Hd : (x mod 10 < 10)%N) by (apply N.mod_lt; lia).
  assert (Hstep : forall a,
             parseDigits 10 (String (pretty_N_char (x mod 10)) s) a
             = parseDigits 10 s (Some (default 0 a * 10 + Z.of_N (x mod 10)))).
  { intros a. simpl. rewrite (digitOf_pretty_char _ Hd).
    destruct (Z.ltb_spec (Z.of_N (x mod 10)) 10); [reflexivity | lia]. }
  destruct (N.eq_dec (x / 10)%N 0%N) as [E|E].
  - rewrite E, pretty_N_go_0, Hstep. exists 10. do 3 f_equal.
    rewrite (N.div_mod x 10) at 2 by lia. rewrite E. lia.
  - destruct (IH (x / 10)%N) with (s := String (pretty_N_char (x mod 10)) s) (acc := acc)
      as [m Hm].
    + apply N.div_lt; lia.
    + now apply N.neq_0_lt_0.
    + rewrite Hm, Hstep. exists (m * 10). simpl default. do 2 f_equal.
      rewrite (N.div_mod x 10) at 3 by lia. lia.
Qed.

Lemma pretty_char_leading (d : N) : (0 < d < 10)%N -> leading (pretty_N_char d).
Proof.
  intros H.
  assert (d = 1 \/ d = 2 \/ d = 3 \/ d = 4 \/ d = 5 \/ d = 6 \/ d = 7
          \/ d = 8 \/ d = 9)%N as Hd by lia.
  unfold leading.
  repeat (destruct Hd as [->|Hd]; [simpl; tauto|]). subst d. simpl. tauto.
Qed.

Lemma pretty_starts_with_a_digit (x : N) :
  forall s, (0 < x)%N -> exists c rest, pretty_N_go x s = String c rest /\ leading c.
Proof.
  induction (N.lt_wf_0 x) as [x _ IH]. intros s Hx.
  rewrite pretty_N_go_step by exact Hx.
  destruct (N.eq_dec (x / 10)%N 0%N) as [E|E].
  - rewrite E, pretty_N_go_0. eexists _, _. split; [reflexivity|].
    apply pretty_char_leading.
    assert (x < 10)%N by (apply (N.div_small_iff x 10); [lia | exact E]).
    rewrite N.mod_small by lia. lia.
  - apply IH; [apply N.div_lt; lia | now apply N.neq_0_lt_0].
Qed.

Lemma parseIntStr_unsigned (c : ascii) (rest : string) :
  leading c ->
  parseIntStr (String c rest) None
  = match parseDigits 10 (String c rest) None with
    | Some n => VNum n
    | None => VNaN
    end.
Proof.
  unfold leading. simpl. intros H.
  repeat (destruct H as [<-|H]; [reflexivity|]). destruct H.
Qed.

Lemma parseIntStr_negative (c : ascii) (rest : string) :
  leading c ->
  parseIntStr (String "-" (String c rest)) None
  = match parseDigits 10 (String c rest) None with
    | Some n => VNum (- n)
    | None => VNaN
    end.
Proof.
  unfold leading. simpl. intros H.
  repeat (destruct H as [<-|H]; [reflexivity|]). destruct H.
Qed.

Lemma parseIntStr_pretty_N (x : N) :
  (0 < x)%N ->
  parseIntStr (pretty_N_go x EmptyString) None = VNum (Z.of_N x)
  /\ parseIntStr (String "-" (pretty_N_go x EmptyString)) None = VNum (- Z.of_N x).
Proof.
  intros Hx.
  destruct (pretty_starts_with_a_digit x EmptyString Hx) as (c & rest & E & Hc).
  destruct (parseDigits_pretty x EmptyString None Hx) as [m Hm].
  rewrite E in *. rewrite parseIntStr_unsigned, parseIntStr_negative, Hm by exact Hc.
  simpl. split; reflexivity.
Qed.

(** [parseInt] reads a decimal numeral as the number it denotes. *)
Lemma parseIntStr_pretty (n : Z) : parseIntStr (pretty n) None = VNum n.
Proof.
  destruct n as [|p|p]; [reflexivity | |].
  - change (pretty (Z.pos p)) with (pretty_N_go (N.pos p) EmptyString).
    apply (parseIntStr_pretty_N (N.pos p)). lia.
  - change (pretty (Z.neg p)) with (String "-" (pretty_N_go (N.pos p) EmptyString)).
    apply (parseIntStr_pretty_N (N.pos p)). lia.
Qed.

End NumeralFacts.
Import NumeralFacts.

(** X6.  An integer stored as an int32 and read again comes back as the
    number, whether it was given as a number or as its decimal numeral:
    the round trip turns a numeric string into a number.  The integers
    are those JavaScript represents exactly; [new Int32(n)] is taken to
    keep [n] under [value], as the class of the driver does. *)
Theorem int32_reads_back_the_number (drv : Driver) (encoding : value) (n : Z) :
  (forall v, exists stored, new_Int32 drv v = Ok stored /\ getP stored "value" = v) ->
  Z.abs n <= 2 ^ 53 ->
  (exists stored,
      int32_toDb drv (VStr (pretty n)) encoding = Ok stored
      /\ int32_fromDb stored encoding = Ok (VNum n))
  /\ (exists stored,
      int32_toDb drv (VNum n) encoding = Ok stored
      /\ int32_fromDb stored encoding = Ok (VNum n)).
Proof.
  intros Hdrv Hn.
  destruct (Hdrv (VNum n)) as (stored & Hnew & Hvalue).
  assert (Hread : int32_fromDb stored encoding = Ok (VNum n)).
  { unfold int32_fromDb. destruct stored; simpl in Hvalue; try discriminate;
      simpl; now rewrite <- Hvalue. }
  split; exists stored; (split; [|exact Hread]).
  - unfold int32_toDb, parseInt. now rewrite parseIntStr_pretty.
  - unfold int32_toDb, parseInt.
    assert (Hsmall : (Z.abs n <? 10 ^ 21) = true) by (apply Z.ltb_lt; lia).
    now rewrite Hsmall.
Qed.

Lemma int32_reads_back_the_number_witness :
  exists stored,
    int32_toDb bson1 (VStr "-42") VUndef = Ok stored
    /\ int32_fromDb stored VUndef = Ok (VNum (-42)).
Proof.
  apply (int32_reads_back_the_number bson1 VUndef (-42)).
  - intros v. eexists. split; reflexivity.
  - simpl. lia.
Defined.

Module CaseFacts.

Lemma toLowerCase_app (a b : string) :
  toLowerCase (a ++ b) = (toLowerCase a ++ toLowerCase b)%string.
Proof.
  induction a as [|c a IH]; [reflexivity|].
  rewrite append_cons. simpl. now rewrite IH, append_cons.
Qed.

Lemma startsWith_app (p s : string) : startsWith (p ++ s) p = true.
Proof.
  unfold startsWith. induction p as [|c p IH]; [now destruct s|].
  rewrite append_cons. simpl. rewrite IH.
  now destruct (Ascii.ascii_dec c c).
Qed.

Lemma dropStr_app (p s : string) : dropStr (String.length p) (p ++ s) = s.
Proof.
  induction p as [|c p IH]; [now destruct s|].
  rewrite append_cons. simpl. exact IH.
Qed.

End CaseFacts.
Import CaseFacts.

(** X7.  The int64 writer chooses the radix by the prefix of a string:
    ['0x'] in either case gives radix 16 and ['b'] radix 2, and the
    lower-cased digits after the prefix are what [Long.fromString]
    receives; an upper-case ['B'] is not taken for a prefix, the whole
    lower-cased string is passed with radix 10.  Whatever is not a string
    goes to [Long.fromNumber]. *)
Theorem int64_prefix_selects_the_radix (drv : Driver) (encoding : value) (body : string) :
  int64_toDb drv (VStr ("0x" ++ body)) encoding
  = Long_fromString drv (toLowerCase body) 16
  /\ int64_toDb drv (VStr ("0X" ++ body)) encoding
     = Long_fromString drv (toLowerCase body) 16
  /\ int64_toDb drv (VStr ("b" ++ body)) encoding
     = Long_fromString drv (toLowerCase body) 2
  /\ int64_toDb drv (VStr ("B" ++ body)) encoding
     = Long_fromString drv ("b" ++ toLowerCase body) 10
  /\ (forall data,
         (forall s, data <> VStr s) ->
         int64_toDb drv data encoding = Long_fromNumber drv data).
Proof.
  assert (H0x : forall p, toLowerCase p = "0x" -> String.length p = 2%nat ->
            int64_toDb drv (VStr (p ++ body)) encoding
            = Long_fromString drv (toLowerCase body) 16).
  { intros p Hp Hlen. unfold int64_toDb.
    rewrite toLowerCase_app, Hp, startsWith_app.
    now rewrite (dropStr_app "0x"). }
  split; [now apply (H0x "0x")|]. split; [now apply (H0x "0X")|]. split; [|split].
  - unfold int64_toDb. rewrite toLowerCase_app.
    change (toLowerCase "b") with "b".
    assert (Hx : startsWith ("b" ++ toLowerCase body) "0x" = false) by reflexivity.
    rewrite Hx, startsWith_app. now rewrite (dropStr_app "b").
  - unfold int64_toDb. rewrite toLowerCase_app.
    change (toLowerCase "B") with "b".
    assert (Hx : startsWith ("b" ++ toLowerCase body) "0x" = false) by reflexivity.
    assert (Hb : startsWith ("B" ++ body) "b" = false) by reflexivity.
    now rewrite Hx, Hb.
  - intros data Hdata. destruct data; try reflexivity. now destruct (Hdata s).
Qed.

(** ** The date codec through the transcoder ([types.js], lines 174-178) *)

Module DateFacts.

Lemma setKey_first (k : string) (x : value) : setKey k x [] = [(k, x)].
Proof. unfold setKey. simpl. now destruct (indexOfKey k). Qed.

Lemma dateSchema_node (k : string) :
  getP (getP (dateSchema k) "properties") k = VObj [("mongoType", VStr "date")].
Proof. simpl. now rewrite String.eqb_refl. Qed.

Lemma convertDocument_date_field
    (convertValue : value -> value -> value -> result value) (k : string) (v : value) :
  reservedKey k = false ->
  isLeaf v = true ->
  convertDocument (VObj [(k, v)]) (dateSchema k) convertValue
  = (let* x := convertValue v (VStr "date") VUndef in Ok (VObj [(k, x)])).
Proof.
  intros Hk Hleaf.
  assert (Hcn : ctorName (VObj [(k, v)]) = Ok (VStr "Object")).
  { apply ctorName_plainKeys. simpl. now rewrite Hk. }
  rewrite convertDocument_object, convertElement_object by (reflexivity || exact Hcn).
  change (resolveSchema (dateSchema k) (dateSchema k)) with (Ok (dateSchema k)).
  rewrite bind_Ok. simpl foldM.
  unfold convertField. unfold isLeaf in Hleaf.
  destruct (ctorName v) as [cn|]; [|discriminate]. simpl bind.
  apply negb_true_iff in Hleaf. rewrite Hleaf.
  assert (Htest : truthy (propertyTest (dateSchema k) k) = true).
  { unfold propertyTest, andThen.
    change (truthy (dateSchema k)) with true. cbv iota.
    change (truthy (getP (dateSchema k) "properties")) with true. cbv iota.
    now rewrite dateSchema_node. }
  rewrite Htest, String.eqb_refl. simpl default. simpl getP.
  destruct (convertValue v (VStr "date") VUndef); [|reflexivity].
  simpl. now rewrite setKey_first.
Qed.

End DateFacts.
Import DateFacts.

(** X8.  A date field is stored as [new Date(value)] only when the
    value is truthy.  A value that is falsy ([0], [''], [false], [NaN])
    is stored as the current date, [new Date()]: the date of timestamp 0
    cannot be written.  Read back, a date field is handed over as the
    driver gave it.  The field has any name but [constructor] and
    [__proto__], under which the document would not be the object with
    that one field. *)
Theorem date_field_without_value_is_now (drv : Driver) (k : string) (v : value) :
  reservedKey k = false ->
  isLeaf v = true ->
  (truthy v = false ->
   documentToDbFormat drv (builtins drv) (VObj [(k, v)]) (dateSchema k)
   = Ok (VObj [(k, Date_now drv)]))
  /\ (truthy v = true ->
      documentToDbFormat drv (builtins drv) (VObj [(k, v)]) (dateSchema k)
      = (let* d := new_Date drv v in Ok (VObj [(k, d)])))
  /\ dbFormatToDocument drv (builtins drv) (VObj [(k, v)]) (dateSchema k)
     = Ok (VObj [(k, v)]).
Proof.
  intros Hk Hleaf.
  unfold documentToDbFormat, dbFormatToDocument.
  rewrite !convertDocument_date_field by assumption.
  change (valueToDbFormat drv (builtins drv) v (VStr "date") VUndef)
    with (date_toDb drv v VUndef).
  change (dbFormatToValue drv (builtins drv) v (VStr "date") VUndef)
    with (date_fromDb v VUndef).
  unfold date_toDb, date_fromDb.
  split; [|split].
  - intros Hv. now rewrite Hv.
  - intros Hv. now rewrite Hv.
  - reflexivity.
Qed.

Lemma date_field_without_value_is_now_witness :
  documentToDbFormat bson1 (builtins bson1) (VObj [("createdAt", VNum 0)])
    (dateSchema "createdAt")
  = Ok (VObj [("createdAt", Date_now bson1)]).
Proof.
  apply (proj1 (date_field_without_value_is_now bson1 "createdAt" (VNum 0) eq_refl eq_refl)).
  reflexivity.
Defined.

(** ** The transcoder as a whole ([conversion.js], lines 5-110) *)

Module TranscoderFacts.

Lemma mapM_Forall2 {A B : Type} (g : A -> result B) (xs : list A) :
  forall ys, mapM g xs = Ok ys -> Forall2 (fun x y => g x = Ok y) xs ys.
Proof.
  induction xs as [|x xs IH]; intros ys H.
  - inversion H. constructor.
  - simpl in H. destruct (g x) as [y|] eqn:Hx; [|discriminate]. simpl in H.
    destruct (mapM g xs) as [ys'|]; [|discriminate]. inversion H; subst.
    constructor; [exact Hx | now apply IH].
Qed.

Lemma mapiM_Forall2 {A B : Type} (g : nat -> A -> result B) (xs : list A) :
  forall i ys, mapiM g i xs = Ok ys -> Forall2 (fun x y => exists j, g j x = Ok y) xs ys.
Proof.
  induction xs as [|x xs IH]; intros i ys H.
  - inversion H. constructor.
  - simpl in H. destruct (g i x) as [y|] eqn:Hx; [|discriminate]. simpl in H.
    destruct (mapiM g (S i) xs) as [ys'|] eqn:Hxs; [|discriminate]. inversion H; subst.
    constructor; [now exists i | now apply (IH (S i))].
Qed.

Lemma convertElement_fieldwise
    (convertValue : value -> value -> value -> result value)
    (originalSchema schema0 schema : value) (kvs : list (string * value)) :
  resolveSchema originalSchema schema0 = Ok schema ->
  ctorName (VObj kvs) = Ok (VStr "Object") ->
  enumerationOrder [] (List.map fst kvs) = true ->
  convertElement convertValue originalSchema schema0 (VObj kvs)
  = (let* ys := mapM (fun kv => convertField convertValue originalSchema schema
                                  (fst kv) (snd kv)) kvs in
     Ok (VObj (combine (List.map fst kvs) ys))).
Proof.
  intros Hres Hcn Hord. rewrite convertElement_object, Hres by exact Hcn. simpl bind.
  rewrite (foldM_setKey_ordered fst
             (fun kv => convertField convertValue originalSchema schema (fst kv) (snd kv))
             kvs []) by exact Hord.
  now destruct (mapM _ kvs).
Qed.

Lemma regular_plainKeys (kvs : list (string * value)) :
  regular (VObj kvs) = true -> plainKeys kvs = true.
Proof.
  simpl. unfold plainKeys. induction kvs as [|[k v] kvs IH]; [reflexivity|].
  simpl. intros H. apply andb_prop in H. destruct H as [Hkv Hrest].
  apply andb_prop in Hkv. destruct Hkv as [Hk _]. now rewrite Hk, IH.
Qed.

Lemma isLeaf_not_composite (v : value) (cn : value) :
  ctorName v = Ok cn -> isComposite cn = false -> isLeaf v = true.
Proof. intros H1 H2. unfold isLeaf. now rewrite H1, H2. Qed.

End TranscoderFacts.
Import TranscoderFacts.

(** X9.  Whenever [convertElement] returns for a regular document, what
    it returns is the data with its leaves rewritten and nothing else
    changed: an object comes back as an object with the same keys in the
    same order, an array as an array of the same length, at every depth,
    and each leaf is what [convertValue] answered for the leaf at the
    same place.  Regular means that no object of the document has a
    field named [constructor] or [__proto__]. *)
Theorem transcoder_rewrites_leaves_only
    (convertValue : value -> value -> value -> result value) (originalSchema : value)
    (data : value) :
  orderedKeys data = true ->
  regular data = true ->
  forall schema out,
    convertElement convertValue originalSchema schema data = Ok out ->
    rewritesLeaves convertValue data out.
Proof.
  induction data as [| |b|n| |s|xs IH|kvs IH|t|bs|cls fields IH] using value_nested_ind;
    intros Hord Hreg schema out Hout;
    try (simpl in Hout;
         destruct (resolveSchema originalSchema schema); simpl in Hout; discriminate).
  - (* arrays *)
    rewrite convertElement_array in Hout.
    destruct (resolveSchema originalSchema schema) as [sc|]; [|discriminate].
    simpl bind in Hout.
    destruct (mapiM _ _ xs) as [ys|] eqn:Hys; [|discriminate].
    simpl in Hout. inversion Hout; subst out. clear Hout.
    apply rewrites_array. apply mapiM_Forall2 in Hys.
    simpl in Hord, Hreg. revert ys Hys.
    induction IH as [|x xs Hx _ IHxs]; intros ys Hys.
    + inversion Hys. constructor.
    + inversion Hys as [|? y ? ys' [j Hj] Hrest]; subst.
      simpl in Hord. apply andb_prop in Hord. destruct Hord as [Hox Hoxs].
      simpl in Hreg. apply andb_prop in Hreg. destruct Hreg as [Hrx Hrxs].
      constructor; [|now apply IHxs].
      unfold convertItem in Hj.
      destruct (ctorName x) as [cn|] eqn:Hcn; [|discriminate]. simpl in Hj.
      destruct (isComposite cn) eqn:Hc.
      * exact (Hx Hox Hrx (itemSchema sc j) y Hj).
      * eapply rewrites_leaf; [now apply (isLeaf_not_composite x cn) | exact Hj].
  - (* objects *)
    simpl in Hord. apply andb_prop in Hord. destruct Hord as [Hkeys Hvals].
    pose proof (ctorName_plainKeys kvs (regular_plainKeys kvs Hreg)) as Hobj.
    destruct (resolveSchema originalSchema schema) as [sc|] eqn:Hres.
    2:{ rewrite convertElement_object, Hres in Hout by exact Hobj. discriminate. }
    rewrite (convertElement_fieldwise _ _ _ sc kvs Hres Hobj Hkeys) in Hout.
    destruct (mapM _ kvs) as [ys|] eqn:Hys; [|discriminate].
    simpl in Hout. inversion Hout; subst out. clear Hout.
    apply rewrites_object. apply mapM_Forall2 in Hys. clear Hkeys Hobj.
    simpl in Hreg. revert ys Hys.
    induction IH as [|[k x] kvs Hx _ IHkvs]; intros ys Hys.
    + inversion Hys. constructor.
    + inversion Hys as [|? y ? ys' Hy Hrest]; subst.
      simpl in Hvals. apply andb_prop in Hvals. destruct Hvals as [Hox Hokvs].
      simpl in Hreg. apply andb_prop in Hreg. destruct Hreg as [Hrx Hrkvs].
      apply andb_prop in Hrx. destruct Hrx as [_ Hrx].
      simpl. constructor; [|now apply IHkvs].
      simpl in Hy, Hx. unfold convertField in Hy.
      destruct (ctorName x) as [cn|] eqn:Hcn; [|discriminate]. simpl in Hy.
      destruct (isComposite cn) eqn:Hc.
      * exact (Hx Hox Hrx _ y Hy).
      * eapply rewrites_leaf; [now apply (isLeaf_not_composite x cn) | exact Hy].
  - (* instances of a class *)
    rewrite convertElement_leaf in Hout by exact Hreg.
    destruct (resolveSchema originalSchema schema); discriminate.
Qed.

Lemma transcoder_rewrites_leaves_only_witness :
  rewritesLeaves (valueToDbFormat bson1 (builtins bson1)) tagged
    (VObj [("id", VInst "Decimal128"
                    [("_bsontype", VStr "Decimal128");
                     ("bytes", VBuffer [Byte.x2b; Byte.x1a])]);
           ("n", VInst "Int32" [("_bsontype", VStr "Int32"); ("value", VNum 42)])]).
Proof.
  apply (transcoder_rewrites_leaves_only _ taggedSchema tagged eq_refl eq_refl taggedSchema).
  vm_compute. reflexivity.
Defined.

(** X10.  A list of documents is converted document by document:
    [convertDocument] on the list answers the list of what it answers on
    each element, and fails where the first of them fails.  The elements
    are truthy and none answers ['Array'] for the name of its
    constructor; where the constructor of an element cannot be read, the
    [$ref] of the schema, if any, resolves, for in a list that is looked
    at before the element is. *)
Theorem batch_is_converted_document_by_document
    (convertValue : value -> value -> value -> result value)
    (schema : value) (docs : list value) :
  Forall (fun d => truthy d = true /\ ctorName d <> Ok (VStr "Array")
                   /\ (isErr (ctorName d) = true -> truthy schema = true ->
                       isOk (resolveSchema schema schema) = true)) docs ->
  convertDocument (VArr docs) schema convertValue
  = (let* ret := mapM (fun d => convertDocument d schema convertValue) docs in
     Ok (VArr ret)).
Proof.
  intros Hdocs. unfold convertDocument at 1.
  destruct (truthy schema) eqn:Hs; simpl.
  - assert (Hstep : forall d,
               truthy d = true -> ctorName d <> Ok (VStr "Array") ->
               (isErr (ctorName d) = true -> truthy schema = true ->
                isOk (resolveSchema schema schema) = true) ->
               convertDocument d schema convertValue
               = convertElement convertValue schema schema d).
    { intros d Hd Hne Hres. destruct (ctorName d) as [cn|e] eqn:Hcn.
      - apply (convertDocument_single _ _ d cn Hs Hd Hcn). congruence.
      - specialize (Hres eq_refl Hs).
        destruct (resolveSchema schema schema) as [sc|] eqn:Hsc; [|discriminate].
        unfold convertDocument. rewrite Hs, Hd, Hcn.
        destruct d; simpl; rewrite Hsc; simpl; simpl in Hcn; rewrite ?Hcn;
          try reflexivity; discriminate. }
    f_equal.
    induction Hdocs as [|d docs (Hd & Hne & Hres) _ IH]; [reflexivity|].
    simpl. now rewrite (Hstep d Hd Hne (fun He _ => Hres He eq_refl)), IH.
  - assert (Hid : mapM (fun d => convertDocument d schema convertValue) docs = Ok docs).
    { clear Hdocs. induction docs as [|d docs IH]; [reflexivity|].
      simpl. unfold convertDocument at 1. rewrite Hs. simpl. now rewrite IH. }
    now rewrite Hid.
Qed.

Lemma batch_is_converted_document_by_document_witness :
  convertDocument (VArr [tagged; tagged]) taggedSchema (valueToDbFormat bson1 (builtins bson1))
  = (let* ret := mapM (fun d => convertDocument d taggedSchema
                                  (valueToDbFormat bson1 (builtins bson1)))
                      [tagged; tagged] in
     Ok (VArr ret)).
Proof.
  apply (batch_is_converted_document_by_document _ taggedSchema [tagged; tagged]).
  repeat constructor; discriminate.
Defined.



Module UndescribedFacts.

Section Undescribed.

Variable convertValue : value -> value -> value -> result value.
Variable fields : list (string * value).
Hypothesis Href : truthy (getP (VObj fields) "$ref") = false.
Hypothesis Hprops : truthy (getP (VObj fields) "properties") = false.

Lemma resolveSchema_no_ref (originalSchema : value) :
  resolveSchema originalSchema (VObj fields) = Ok (VObj fields).
Proof.
  unfold resolveSchema.
  change (getProp (VObj fields) "$ref") with (Ok (getP (VObj fields) "$ref")).
  rewrite bind_Ok. now rewrite Href.
Qed.

Lemma propertyTest_no_properties (k : string) :
  truthy (propertyTest (VObj fields) k) = false.
Proof.
  unfold propertyTest, andThen.
  change (truthy (VObj fields)) with true. cbv iota. now rewrite Hprops.
Qed.

Lemma convertField_undescribed_leaf (originalSchema : value) (k : string) (dv : value) :
  isLeaf dv = true ->
  convertField convertValue originalSchema (VObj fields) k dv
  = convertValue dv (VStr EmptyString) (VStr EmptyString).
Proof.
  intros Hleaf. unfold convertField, isLeaf in *.
  destruct (ctorName dv) as [cn|]; [|discriminate]. simpl.
  apply negb_true_iff in Hleaf. rewrite Hleaf.
  now rewrite propertyTest_no_properties.
Qed.

Lemma convertField_undescribed_other (originalSchema : value) (k : string) (dv : value) :
  isLeaf dv = false ->
  isErr (convertField convertValue originalSchema (VObj fields) k dv) = true.
Proof.
  intros Hleaf. unfold convertField, isLeaf in *.
  destruct (ctorName dv) as [cn|]; [|reflexivity]. simpl.
  apply negb_false_iff in Hleaf. rewrite Hleaf.
  now rewrite propertyTest_no_properties, convertElement_null_schema.
Qed.

Lemma mapM_fails_at {A B : Type} (g : A -> result B) (xs : list A) :
  existsb (fun x => isErr (g x)) xs = true -> isErr (mapM g xs) = true.
Proof.
  induction xs as [|x xs IH]; [discriminate|].
  simpl. destruct (g x) as [y|e]; [|reflexivity]. simpl. intros H.
  apply IH in H. now destruct (mapM g xs).
Qed.

Lemma mapM_all_ok {A B : Type} (g : A -> result B) (h : A -> B) (xs : list A) :
  Forall (fun x => g x = Ok (h x)) xs -> mapM g xs = Ok (List.map h xs).
Proof.
  induction 1 as [|x xs Hx _ IH]; [reflexivity|]. simpl. now rewrite Hx, IH.
Qed.

Lemma combine_fst_snd {A B : Type} (l : list (A * B)) :
  combine (List.map fst l) (List.map snd l) = l.
Proof. induction l as [|[a b] l IH]; [reflexivity|]. simpl. now rewrite IH. Qed.

Lemma undescribed_leaves (kvs : list (string * value)) :
  (forall v, convertValue v (VStr EmptyString) (VStr EmptyString) = Ok v) ->
  plainKeys kvs = true ->
  enumerationOrder [] (List.map fst kvs) = true ->
  forallb (fun kv => isLeaf (snd kv)) kvs = true ->
  convertDocument (VObj kvs) (VObj fields) convertValue = Ok (VObj kvs).
Proof.
  intros Hcv Hplain Hord Hleaves.
  pose proof (ctorName_plainKeys kvs Hplain) as Hobj.
  rewrite convertDocument_object by (reflexivity || exact Hobj).
  rewrite (convertElement_fieldwise _ _ _ (VObj fields) kvs
             (resolveSchema_no_ref _) Hobj Hord).
  rewrite (mapM_all_ok _ snd).
  - simpl. now rewrite combine_fst_snd.
  - apply List.Forall_forall. intros [k dv] Hin. simpl.
    rewrite forallb_forall in Hleaves. specialize (Hleaves _ Hin). simpl in Hleaves.
    now rewrite convertField_undescribed_leaf.
Qed.

Lemma undescribed_other (kvs : list (string * value)) :
  plainKeys kvs = true ->
  enumerationOrder [] (List.map fst kvs) = true ->
  forallb (fun kv => isLeaf (snd kv)) kvs = false ->
  isErr (convertDocument (VObj kvs) (VObj fields) convertValue) = true.
Proof.
  intros Hplain Hord Hleaves.
  pose proof (ctorName_plainKeys kvs Hplain) as Hobj.
  rewrite convertDocument_object by (reflexivity || exact Hobj).
  rewrite (convertElement_fieldwise _ _ _ (VObj fields) kvs
             (resolveSchema_no_ref _) Hobj Hord).
  apply isErr_bind. apply mapM_fails_at. clear Hord Hobj Hplain.
  induction kvs as [|[k dv] kvs IH]; [discriminate|].
  simpl in Hleaves. simpl. destruct (isLeaf dv) eqn:Hl.
  - simpl in Hleaves. rewrite (IH Hleaves). apply orb_true_r.
  - now rewrite convertField_undescribed_other.
Qed.

End Undescribed.

End UndescribedFacts.
Import UndescribedFacts.

(** X12.  Against a schema that declares no [properties] (and has no
    [$ref]), such as the [{}] a Collection without schema works with,
    both directions hand a document of leaves back unchanged, with the
    built-in registry; and both throw as soon as one field is [null],
    [undefined], an object or an array.  The document has no field named
    [constructor] or [__proto__]. *)
Theorem schema_without_properties_converts_nothing (drv : Driver)
    (fields kvs : list (string * value)) :
  truthy (getP (VObj fields) "$ref") = false ->
  truthy (getP (VObj fields) "properties") = false ->
  plainKeys kvs = true ->
  enumerationOrder [] (List.map fst kvs) = true ->
  (forallb (fun kv => isLeaf (snd kv)) kvs = true ->
   documentToDbFormat drv (builtins drv) (VObj kvs) (VObj fields) = Ok (VObj kvs)
   /\ dbFormatToDocument drv (builtins drv) (VObj kvs) (VObj fields) = Ok (VObj kvs))
  /\ (forallb (fun kv => isLeaf (snd kv)) kvs = false ->
      isErr (documentToDbFormat drv (builtins drv) (VObj kvs) (VObj fields)) = true
      /\ isErr (dbFormatToDocument drv (builtins drv) (VObj kvs) (VObj fields)) = true).
Proof.
  intros Href Hprops Hplain Hord. split.
  - intros Hleaves. split.
    + apply undescribed_leaves; try assumption. intros v. reflexivity.
    + apply undescribed_leaves; try assumption. intros v. reflexivity.
  - intros Hother. split; now apply undescribed_other.
Qed.

Lemma schema_without_properties_converts_nothing_witness :
  documentToDbFormat bson1 (builtins bson1)
    (VObj [("id", VStr "0x1a2b"); ("n", VStr "42")]) (VObj [])
  = Ok (VObj [("id", VStr "0x1a2b"); ("n", VStr "42")])
  /\ isErr (dbFormatToDocument bson1 (builtins bson1) taggedWithExtra (VObj [])) = true.
Proof.
  split.
  - apply (schema_without_properties_converts_nothing bson1 []
             [("id", VStr "0x1a2b"); ("n", VStr "42")] eq_refl eq_refl eq_refl eq_refl).
    reflexivity.
  - apply (schema_without_properties_converts_nothing bson1 []
             [("id", VStr "0x1a2b"); ("n", VStr "42"); ("meta", VObj [("note", VStr "x")])]
             eq_refl eq_refl eq_refl eq_refl).
    reflexivity.
Defined.

(** ** [clone] ([Collection/validateDocument.js], lines 7-41) *)

Module CloneFacts.

Lemma clone_plain (v : value) : plainData v = true -> clone v = v.
Proof.
  induction v as [| |b|n| |s|xs IH|kvs IH|t|bs|cls fields IH] using value_nested_ind;
    intros Hp; try reflexivity; try discriminate.
  - simpl in Hp. simpl. f_equal.
    induction IH as [|x xs Hx _ IHxs]; [reflexivity|].
    simpl in Hp. apply andb_prop in Hp. destruct Hp as [Hpx Hpxs].
    simpl. now rewrite Hx, IHxs.
  - simpl in Hp. apply andb_prop in Hp. destruct Hp as [Hord Hall].
    rewrite clone_fields, (fold_setKey_ordered cloneEntry kvs []) by exact Hord.
    simpl. f_equal. clear Hord.
    induction IH as [|[k x] kvs Hx _ IHkvs]; [reflexivity|].
    simpl in Hall. apply andb_prop in Hall. destruct Hall as [Hpx Hpkvs].
    simpl. unfold cloneEntry at 1. simpl in *. now rewrite (Hx Hpx), IHkvs.
Qed.

End CloneFacts.
Import CloneFacts.

(** X13.  The copy [clone] makes of plain data (primitives, dates,
    arrays and objects of them) is equal to the original, at every
    depth.  An instance of a class is copied as the plain object of its
    own fields: the copy has lost the class. *)
Theorem clone_copies_plain_data (v : value) :
  (plainData v = true -> clone v = v)
  /\ (forall cls fields, v = VInst cls fields -> clone v = clone (VObj fields)).
Proof.
  split; [apply clone_plain|].
  intros cls fields ->. reflexivity.
Qed.

Lemma clone_copies_plain_data_witness :
  clone taggedSchema = taggedSchema
  /\ clone (mkLong 7) = VObj [("_bsontype", VStr "Long"); ("low_", VNum 7); ("high_", VNum 0)].
Proof.
  split.
  - apply (clone_copies_plain_data taggedSchema). reflexivity.
  - rewrite (proj2 (clone_copies_plain_data (mkLong 7)) "Long"
               [("_bsontype", VStr "Long"); ("low_", VNum 7); ("high_", VNum 0)] eq_refl).
    apply (clone_copies_plain_data
             (VObj [("_bsontype", VStr "Long"); ("low_", VNum 7); ("high_", VNum 0)])).
    reflexivity.
Defined.

(** ** The reach of the derivation ([Collection/validateDocument.js], lines 101-284) *)

Module Termination.

Lemma depth_assoc (k : string) (kvs : list (string * value)) (x : value) :
  assoc k kvs = Some x ->
  (depth x <= fold_right (fun kv d => Nat.max (depth (snd kv)) d) 0 kvs)%nat.
Proof.
  induction kvs as [|[k' v'] kvs IH]; [discriminate|].
  simpl. destruct (String.eqb k k').
  - intros H. inversion H. lia.
  - intros H. apply IH in H. lia.
Qed.

Lemma depth_lookup (i : nat) (xs : list value) (x : value) :
  xs !! i = Some x ->
  (depth x <= fold_right (fun x d => Nat.max (depth x) d) 0 xs)%nat.
Proof.
  revert i. induction xs as [|y xs IH]; intros i; [discriminate|].
  destruct i as [|i]; simpl.
  - intros H. inversion H. lia.
  - intros H. apply IH in H. lia.
Qed.

Lemma depth_element (xs : list value) (x : value) :
  In x xs -> (depth x < depth (VArr xs))%nat.
Proof.
  intros Hin. apply list_elem_of_In, list_elem_of_lookup in Hin. destruct Hin as [i Hi].
  apply depth_lookup in Hi. simpl. lia.
Qed.

(** Reading a property leads to a value that is nested no deeper, and
    less deep when it is read from an object or an array. *)
Lemma depth_getP (v : value) (k : string) :
  (depth (getP v k) <= depth v)%nat
  /\ (instanceofArray v = true \/ (exists kvs, v = VObj kvs) \/ (exists c kvs, v = VInst c kvs) ->
      depth (getP v k) < depth v)%nat.
Proof.
  destruct v as [| |b|n| |s|xs|kvs|t|bs|cls fields]; simpl;
    try (split; [lia | intros [H|[[? H]|[? [? H]]]]; discriminate]).
  - destruct (String.eqb k "length"); simpl.
    + split; [lia | intros [H|[[? H]|[? [? H]]]]; discriminate].
    + destruct (indexOfKey k) as [i|]; simpl;
        [|split; [lia | intros [H|[[? H]|[? [? H]]]]; discriminate]].
      destruct (charsOf s !! i); simpl;
        split; try lia; intros [H|[[? H]|[? [? H]]]]; discriminate.
  - assert (H : (depth (if String.eqb k "length" then lengthOf xs
                        else default VUndef (i ← indexOfKey k; xs !! i))
                 < S (fold_right (fun x d => Nat.max (depth x) d) 0 xs))%nat).
    { destruct (String.eqb k "length"); simpl; [lia|].
      destruct (indexOfKey k) as [i|]; simpl; [|lia].
      destruct (xs !! i) as [x|] eqn:E; simpl; [|lia].
      apply depth_lookup in E. lia. }
    split; [lia | intros _; exact H].
  - assert (H : (depth (default VUndef (assoc k kvs))
                 < S (fold_right (fun kv d => Nat.max (depth (snd kv)) d) 0 kvs))%nat).
    { destruct (assoc k kvs) as [x|] eqn:E; simpl; [|lia].
      apply depth_assoc in E. lia. }
    split; [lia | intros _; exact H].
  - destruct (String.eqb k "length"); simpl.
    + split; [lia | intros [H|[[? H]|[? [? H]]]]; discriminate].
    + destruct (indexOfKey k) as [i|]; simpl;
        [|split; [lia | intros [H|[[? H]|[? [? H]]]]; discriminate]].
      destruct (bs !! i); simpl;
        split; try lia; intros [H|[[? H]|[? [? H]]]]; discriminate.
  - assert (H : (depth (default VUndef (assoc k fields))
                 < S (fold_right (fun kv d => Nat.max (depth (snd kv)) d) 0 fields))%nat).
    { destruct (assoc k fields) as [x|] eqn:E; simpl; [|lia].
      apply depth_assoc in E. lia. }
    split; [lia | intros _; exact H].
Qed.

Lemma refFree_assoc (k : string) (kvs : list (string * value)) (x : value) :
  forallb (fun kv => negb (String.eqb (fst kv) "$ref") && refFree (snd kv)) kvs = true ->
  assoc k kvs = Some x -> refFree x = true.
Proof.
  induction kvs as [|[k' v'] kvs IH]; [discriminate|].
  simpl. intros H. apply andb_prop in H. destruct H as [H1 H2].
  apply andb_prop in H1. destruct H1 as [_ H1].
  destruct (String.eqb k k'); [intros E; now inversion E; subst | now apply IH].
Qed.

Lemma absent_key (r : string) (P : value -> bool) (kvs : list (string * value)) :
  forallb (fun kv => negb (String.eqb (fst kv) r) && P (snd kv)) kvs = true ->
  assoc r kvs = None.
Proof.
  induction kvs as [|[k' v'] kvs IH]; [reflexivity|].
  simpl. intros H. apply andb_prop in H. destruct H as [H1 H2].
  apply andb_prop in H1. destruct H1 as [H1 _].
  apply negb_true_iff in H1. rewrite String.eqb_sym in H1. rewrite H1. now apply IH.
Qed.

Lemma refFree_no_ref (kvs : list (string * value)) :
  forallb (fun kv => negb (String.eqb (fst kv) "$ref") && refFree (snd kv)) kvs = true ->
  assoc "$ref" kvs = None.
Proof. apply (absent_key "$ref" refFree). Qed.

Lemma refFree_lookup (i : nat) (xs : list value) (x : value) :
  forallb refFree xs = true -> xs !! i = Some x -> refFree x = true.
Proof.
  intros H Hi. rewrite forallb_forall in H. apply H.
  apply list_elem_of_In, list_elem_of_lookup. now exists i.
Qed.

Lemma refFree_getP (v : value) (k : string) :
  refFree v = true -> refFree (getP v k) = true.
Proof.
  destruct v as [| |b|n| |s|xs|kvs|t|bs|cls fields]; simpl; intros H; try reflexivity.
  - destruct (String.eqb k "length"); [reflexivity|].
    destruct (indexOfKey k) as [i|]; [|reflexivity]. simpl.
    now destruct (charsOf s !! i).
  - destruct (String.eqb k "length"); [reflexivity|].
    destruct (indexOfKey k) as [i|]; [|reflexivity]. simpl.
    destruct (xs !! i) eqn:E; [|reflexivity]. simpl. now apply (refFree_lookup i xs).
  - destruct (assoc k kvs) eqn:E; [|reflexivity]. simpl. now apply (refFree_assoc k kvs).
  - destruct (String.eqb k "length"); [reflexivity|].
    destruct (indexOfKey k) as [i|]; [|reflexivity]. simpl.
    now destruct (bs !! i).
  - destruct (assoc k fields) eqn:E; [|reflexivity]. simpl. now apply (refFree_assoc k fields).
Qed.

Lemma resolveRef_refFree (root schema : value) :
  refFree schema = true ->
  resolveRef root schema = Ok schema
  \/ exists what, resolveRef root schema = Err (TypeError what).
Proof.
  intros H. unfold resolveRef.
  destruct schema as [| |b|n| |s|xs|kvs|t|bs|cls fields];
    try (now left); try (right; eexists; reflexivity).
  - left. simpl. simpl in H. now rewrite (refFree_no_ref kvs H).
  - left. simpl. simpl in H. now rewrite (refFree_no_ref fields H).
Qed.

Lemma own_keys_depth (v : value) (k : string) : In k (ownKeys v) -> (1 <= depth v)%nat.
Proof. destruct v; simpl; try (intros []); intros _; lia. Qed.

Lemma subnode_depth (v : value) (k p : string) :
  (1 <= depth v)%nat -> k = "properties" \/ k = "items" ->
  (depth (getP v k) < depth v)%nat /\ (depth (getP (getP v k) p) < depth v)%nat.
Proof.
  intros Hd Hk.
  assert (Hstrict : (depth (getP v k) < depth v)%nat).
  { destruct v as [| |b|n| |s|xs|kvs|t|bs|cls fields]; try (simpl in Hd; lia).
    - destruct Hk as [-> | ->]; simpl; lia.
    - apply depth_getP. now left.
    - apply depth_getP. right. left. now exists kvs.
    - destruct Hk as [-> | ->]; simpl; lia.
    - apply depth_getP. right. right. now exists cls, fields. }
  split; [exact Hstrict|].
  pose proof (proj1 (depth_getP (getP v k) p)). lia.
Qed.

Lemma bind_final {A B : Type} (m : result A) (k : A -> result B) :
  m <> Err OutOfFuel -> (forall a, m = Ok a -> k a <> Err OutOfFuel) ->
  bind m k <> Err OutOfFuel.
Proof.
  intros Hm Hk. destruct m as [a|e]; [now apply Hk|].
  simpl. intros H. apply Hm. now inversion H.
Qed.

Lemma foldM_final {A B : Type} (f : B -> A -> result B) (xs : list A) :
  (forall acc x, In x xs -> f acc x <> Err OutOfFuel) ->
  forall acc, foldM f xs acc <> Err OutOfFuel.
Proof.
  induction xs as [|x xs IH]; intros Hf acc; [discriminate|].
  simpl. apply bind_final; [apply Hf; now left|].
  intros acc' _. apply IH. intros a y Hy. apply Hf. now right.
Qed.

Lemma mapiM_final {A B : Type} (f : nat -> A -> result B) (xs : list A) :
  (forall i x, In x xs -> f i x <> Err OutOfFuel) ->
  forall i, mapiM f i xs <> Err OutOfFuel.
Proof.
  induction xs as [|x xs IH]; intros Hf i; [discriminate|].
  simpl. apply bind_final; [apply Hf; now left|].
  intros y _. apply bind_final; [|discriminate].
  apply IH. intros j z Hz. apply Hf. now right.
Qed.

Lemma throwMongolError_final {A : Type} (msg : string) :
  @throwMongolError A (VStr msg) <> Err OutOfFuel.
Proof. discriminate. Qed.

Lemma workingProperties_final (mode : string) (schema : value)
    (required : option (list value)) (path : string) :
  workingProperties mode schema required path <> Err OutOfFuel.
Proof.
  unfold workingProperties.
  destruct (truthy (getP schema "properties")); [|discriminate].
  destruct (truthy (getP schema "unmodifiableProperties")); [|discriminate].
  apply bind_final.
  - unfold checkRequired. destruct required as [rs|]; [|discriminate].
    destruct (List.find _ rs); [apply throwMongolError_final | discriminate].
  - intros _ _. destruct (strict_eq _ _); [discriminate | apply throwMongolError_final].
Qed.

Lemma updateSubSchema_final (root : value) (mode : string) (fuel : nat) :
  forall schema path,
    refFree schema = true -> (depth schema < fuel)%nat ->
    updateSubSchema fuel root mode schema path <> Err OutOfFuel.
Proof.
  induction fuel as [|fuel IH]; intros schema path Hfree Hdepth; [lia|].
  rewrite updateSubSchema_unfold.
  destruct (resolveRef_refFree root schema Hfree) as [Hres|[what Hres]];
    rewrite Hres; [|discriminate].
  simpl bind.
  apply bind_final; [apply workingProperties_final|]. intros props _.
  apply bind_final; [|discriminate].
  apply foldM_final. intros acc key Hkey.
  apply own_keys_depth in Hkey.
  unfold deriveKey.
  destruct (String.eqb key "properties") eqn:Ep.
  { apply bind_final; [|discriminate].
    apply foldM_final. intros props' p _.
    destruct (existsb _ _); [|discriminate].
    apply bind_final; [|discriminate].
    apply IH.
    - now apply refFree_getP, refFree_getP.
    - pose proof (proj2 (subnode_depth schema "properties" p Hkey (or_introl eq_refl))). lia. }
  destruct (String.eqb key "items") eqn:Ei.
  { pose proof (proj1 (subnode_depth schema "items" "" Hkey (or_intror eq_refl))) as Hd.
    pose proof (refFree_getP schema "items" Hfree) as Hf.
    destruct (getP schema "items") as [| |b|n| |s|xs|kvs|t|bs|cls fields] eqn:E;
      simpl instanceofArray; cbv iota;
      try (apply bind_final; [apply IH; [exact Hf | lia] | discriminate]).
    apply bind_final; [|discriminate].
    apply mapiM_final. intros i item Hitem.
    apply IH.
    - simpl in Hf. rewrite forallb_forall in Hf. now apply Hf.
    - apply depth_element in Hitem. simpl depth in Hd, Hitem. lia. }
  destruct (String.eqb key "required"); [destruct (requiredFor mode schema); discriminate|].
  destruct (_ || _); discriminate.
Qed.

End Termination.
Import Termination.

(** X14.  On a schema without [$ref] the derivation terminates: it
    makes no more nested calls than the schema is deep, so with a budget
    above the depth the answer of [getSchema], a schema or an error, is
    never that the budget is spent, and it is the answer for every larger
    budget; the same holds for [getValidationData]. *)
Theorem derivation_terminates_without_references
    (compile : value -> result validator) (schema : value) (mode : string) (fuel : nat) :
  refFree schema = true -> (depth schema < fuel)%nat ->
  getSchema fuel schema mode <> Err OutOfFuel
  /\ getSchema fuel schema mode = getSchema (S (depth schema)) schema mode
  /\ getValidationData compile fuel schema
     = getValidationData compile (S (depth schema)) schema.
Proof.
  intros Hfree Hdepth.
  assert (Hsame : forall m, getSchema fuel schema m = getSchema (S (depth schema)) schema m).
  { intros m. unfold getSchema.
    destruct (updateSubSchema_budget (S (depth schema)) fuel schema m schema "schema")
      as [E|E]; [lia | | now symmetry].
    exfalso. revert E. apply updateSubSchema_final; [exact Hfree | lia]. }
  split; [|split].
  - apply updateSubSchema_final; assumption.
  - apply Hsame.
  - unfold getValidationData. now rewrite !Hsame.
Qed.

Lemma derivation_terminates_without_references_witness :
  getSchema 9 unmodifiableAndRequired "update"
  = getSchema (S (depth unmodifiableAndRequired)) unmodifiableAndRequired "update".
Proof.
  apply (derivation_terminates_without_references compileAny unmodifiableAndRequired
           "update" 9 eq_refl).
  simpl. lia.
Defined.

Module Cycles.

Lemma isOk_budget (fuel : nat) (root : value) (mode : string) (schema : value)
    (path : string) :
  isOk (updateSubSchema (S fuel) root mode schema path) = false ->
  isOk (updateSubSchema fuel root mode schema path) = false.
Proof.
  intros H. destruct (updateSubSchema_step fuel root mode schema path) as [E|E].
  - now rewrite E.
  - now rewrite E.
Qed.

(** A node whose derivation fails within a budget makes every
    derivation that visits it fail within that budget. *)
Lemma failure_surfaces_within (root : value) (mode : string) (a b : value) :
  visits root mode a b ->
  forall fuel,
    (forall path, isOk (updateSubSchema fuel root mode b path) = false) ->
    forall path, isOk (updateSubSchema fuel root mode a path) = false.
Proof.
  induction 1 as [a | a s b p Hres Hkey Hp Hret _ IH
                  | a s b item Hres Hkey Hitem _ IH
                  | a s b Hres Hkey Hitems _ IH]; intros fuel Hb path.
  - apply Hb.
  - destruct fuel as [|fuel]; [reflexivity|].
    assert (Hb' : forall path, isOk (updateSubSchema fuel root mode b path) = false)
      by (intros q; apply isOk_budget, Hb).
    rewrite updateSubSchema_unfold, Hres. simpl bind.
    apply isOk_bind_false. intros props Hprops.
    apply workingProperties_retained in Hprops. subst props.
    apply isOk_bind_stop.
    apply (foldM_fails _ _ "properties" Hkey). intros acc.
    unfold deriveKey. simpl String.eqb. cbv iota.
    apply isOk_bind_stop.
    apply (foldM_fails _ _ p Hp). intros acc'. rewrite Hret.
    apply isOk_bind_stop. apply (IH fuel Hb').
  - destruct fuel as [|fuel]; [reflexivity|].
    assert (Hb' : forall path, isOk (updateSubSchema fuel root mode b path) = false)
      by (intros q; apply isOk_budget, Hb).
    rewrite updateSubSchema_unfold, Hres. simpl bind.
    apply isOk_bind_false. intros props _.
    apply isOk_bind_stop.
    apply (foldM_fails _ _ "items" Hkey). intros acc.
    unfold deriveKey. simpl String.eqb. cbv iota.
    destruct (getP s "items") as [| | | | | |xs| | | |] eqn:E; try (now destruct Hitem).
    simpl instanceofArray. cbv iota.
    apply isOk_bind_stop.
    apply (mapiM_fails _ _ item Hitem). intros i. apply (IH fuel Hb').
  - destruct fuel as [|fuel]; [reflexivity|].
    assert (Hb' : forall path, isOk (updateSubSchema fuel root mode b path) = false)
      by (intros q; apply isOk_budget, Hb).
    rewrite updateSubSchema_unfold, Hres. simpl bind.
    apply isOk_bind_false. intros props _.
    apply isOk_bind_stop.
    apply (foldM_fails _ _ "items" Hkey). intros acc.
    unfold deriveKey. simpl String.eqb. cbv iota. rewrite Hitems.
    apply isOk_bind_stop. apply (IH fuel Hb').
Qed.

End Cycles.
Import Cycles.

(** X15.  A recursive schema is never derived.  When a node, once its
    [$ref] is resolved, has a retained property from which the derivation
    comes back to the node, the derivation of the node returns no schema
    for any budget: it throws or it goes on for ever.  When the
    derivation of the master schema visits such a node, [getSchema] and
    [getValidationData] return nothing either. *)
Theorem recursive_schema_is_never_derived
    (root : value) (mode : string) (node s : value) (p : string) :
  resolveRef root node = Ok s ->
  In "properties" (ownKeys s) ->
  In p (ownKeys (getP s "properties")) ->
  existsb (String.eqb p) (retainedProperties mode s) = true ->
  visits root mode (getP (getP s "properties") p) node ->
  (forall fuel path, isOk (updateSubSchema fuel root mode node path) = false)
  /\ (visits root mode root node ->
      forall compile fuel,
        isOk (getSchema fuel root mode) = false
        /\ (mode = "insert" \/ mode = "update" ->
            isOk (getValidationData compile fuel root) = false)).
Proof.
  intros Hres Hkey Hp Hret Hback.
  assert (Hnode : forall fuel path, isOk (updateSubSchema fuel root mode node path) = false).
  { induction fuel as [|fuel IH]; intros path; [reflexivity|].
    rewrite updateSubSchema_unfold, Hres. simpl bind.
    apply isOk_bind_false. intros props Hprops.
    apply workingProperties_retained in Hprops. subst props.
    apply isOk_bind_stop.
    apply (foldM_fails _ _ "properties" Hkey). intros acc.
    unfold deriveKey. simpl String.eqb. cbv iota.
    apply isOk_bind_stop.
    apply (foldM_fails _ _ p Hp). intros acc'. rewrite Hret.
    apply isOk_bind_stop.
    apply (failure_surfaces_within root mode _ node Hback fuel IH). }
  split; [exact Hnode|].
  intros Hroot compile fuel.
  assert (Hschema : isOk (getSchema fuel root mode) = false).
  { unfold getSchema. apply (failure_surfaces root mode root node Hroot Hnode). }
  split; [exact Hschema|].
  intros [-> | ->]; unfold getValidationData.
  - now apply isOk_bind_stop.
  - apply isOk_bind_false. intros insertSchema _. now apply isOk_bind_stop.
Qed.

Lemma recursive_schema_is_never_derived_witness :
  isOk (getSchema 1 linkedList "insert") = false
  /\ forall fuel, isOk (getValidationData compileAny fuel linkedList) = false.
Proof.
  split; [reflexivity|]. intros fuel.
  eapply (recursive_schema_is_never_derived linkedList "insert"
            (VObj [("$ref", VStr "#/definitions/node")]) _ "next").
  - vm_compute. reflexivity.
  - right; left; reflexivity.
  - right; left; reflexivity.
  - reflexivity.
  - apply visits_self.
  - eapply (visits_property linkedList "insert" linkedList _ _ "next").
    + vm_compute. reflexivity.
    + right; right; left; reflexivity.
    + right; left; reflexivity.
    + reflexivity.
    + apply visits_self.
  - now left.
Defined.

Module DanglingFacts.

Lemma spread_nothing (fields : list (string * value)) (other : value) :
  enumerationOrder [] (List.map fst fields) = true ->
  ownEntries other = [] ->
  spread (VObj fields) other = fields.
Proof.
  intros Hord Hnone. unfold spread. rewrite Hnone, app_nil_r.
  change (ownEntries (VObj fields)) with fields.
  rewrite (fold_setKey_ordered (fun kv => kv) fields []).
  - now rewrite map_id.
  - exact Hord.
Qed.

End DanglingFacts.
Import DanglingFacts.

(** X16.  A [$ref] that leads nowhere is dropped without an error.  When
    the walk along the [$ref] of a node of plain data ends at a value
    without own properties ([undefined] for a name the master schema does
    not have), the node resolves to itself without its [$ref], and its
    derivation is that of the node without the [$ref] key, for every mode,
    path and budget. *)
Theorem dangling_ref_is_dropped (root : value) (fields : list (string * value))
    (ref : string) :
  plainData (VObj fields) = true ->
  getP (VObj fields) "$ref" = VStr ref -> ref <> EmptyString ->
  ownEntries (followRef root ref) = [] ->
  resolveRef root (VObj fields) = Ok (VObj (deleteKey "$ref" fields))
  /\ forall fuel mode path,
       updateSubSchema fuel root mode (VObj fields) path
       = updateSubSchema fuel root mode (VObj (deleteKey "$ref" fields)) path.
Proof.
  intros Hplain Href Hne Hnone.
  assert (Hres : resolveRef root (VObj fields) = Ok (VObj (deleteKey "$ref" fields))).
  { unfold resolveRef.
    change (getProp (VObj fields) "$ref") with (Ok (getP (VObj fields) "$ref")).
    rewrite bind_Ok, Href.
    assert (Ht : truthy (VStr ref) = true).
    { simpl. apply negb_true_iff. now apply String.eqb_neq. }
    rewrite Ht, (clone_plain _ Hplain), Href. simpl bind.
    rewrite spread_nothing; [reflexivity | | exact Hnone].
    simpl in Hplain. now apply andb_prop in Hplain. }
  split; [exact Hres|].
  intros fuel mode path. destruct fuel as [|fuel]; [reflexivity|].
  rewrite !updateSubSchema_unfold, Hres.
  assert (Hres' : resolveRef root (VObj (deleteKey "$ref" fields))
                  = Ok (VObj (deleteKey "$ref" fields))).
  { unfold resolveRef.
    change (getProp (VObj (deleteKey "$ref" fields)) "$ref")
      with (Ok (getP (VObj (deleteKey "$ref" fields)) "$ref")).
    rewrite bind_Ok. simpl getP. now rewrite assoc_deleteKey, String.eqb_refl. }
  now rewrite Hres'.
Qed.

Lemma dangling_ref_is_dropped_witness :
  getSchema 3 danglingNode "insert" = Ok (VObj [("type", VStr "string")]).
Proof.
  unfold getSchema.
  rewrite (proj2 (dangling_ref_is_dropped danglingNode
                    [("type", VStr "string"); ("$ref", VStr "#/definitions/missing")]
                    "#/definitions/missing" eq_refl eq_refl ltac:(discriminate) eq_refl)).
  reflexivity.
Defined.

Module PlainSchemas.

Lemma mapiM_same {A : Type} (f : nat -> A -> result A) (xs : list A) :
  (forall i x, In x xs -> f i x = Ok x) -> forall i, mapiM f i xs = Ok xs.
Proof.
  induction xs as [|x xs IH]; intros Hf i; [reflexivity|].
  simpl. rewrite (Hf i x (or_introl eq_refl)). simpl.
  rewrite IH; [reflexivity|]. intros j y Hy. apply Hf. now right.
Qed.

Lemma depth_entry (k : string) (x : value) (kvs : list (string * value)) :
  In (k, x) kvs -> (depth x < depth (VObj kvs))%nat.
Proof.
  intros Hin. simpl.
  induction kvs as [|[k0 x0] kvs IH]; [destruct Hin|].
  simpl. destruct Hin as [E|Hin]; [inversion E; subst; lia|].
  apply IH in Hin. lia.
Qed.

Lemma plainSchema_node (kvs : list (string * value)) :
  plainSchema (VObj kvs)
  = enumerationOrder [] (List.map fst kvs) && forallb plainEntry kvs.
Proof. reflexivity. Qed.

Lemma extensionKey_cases (k : string) :
  extensionKey k = true -> k = "$ref" \/ k = "definitions" \/ k = "unmodifiableProperties".
Proof.
  unfold extensionKey. intros H.
  apply orb_prop in H. destruct H as [H|H]; [apply orb_prop in H; destruct H as [H|H]|];
    apply String.eqb_eq in H; auto.
Qed.

Lemma plain_no_extension (kvs : list (string * value)) (k : string) :
  forallb plainEntry kvs = true -> extensionKey k = true -> assoc k kvs = None.
Proof.
  intros Hall Hk. destruct (assoc k kvs) as [x|] eqn:E; [|reflexivity].
  apply assoc_Some_in in E. rewrite forallb_forall in Hall.
  specialize (Hall _ E). unfold plainEntry in Hall. simpl in Hall.
  destruct (extensionKey_cases k Hk) as [->|[->| ->]]; simpl in Hall; discriminate.
Qed.

Section Node.

Variables (root : value) (mode : string) (fuel : nat) (kvs : list (string * value))
  (path : string).
Hypothesis Hord : enumerationOrder [] (List.map fst kvs) = true.
Hypothesis Hall : forallb plainEntry kvs = true.
Hypothesis Hdepth : (depth (VObj kvs) <= fuel)%nat.
Hypothesis IH : forall s p, plainSchema s = true -> (depth s < fuel)%nat ->
                            updateSubSchema fuel root mode s p = Ok s.

Lemma node_distinct : List.NoDup (List.map fst kvs).
Proof. exact (proj1 (enumerationOrder_distinct _ _ Hord)). Qed.

Lemma node_getP (k : string) (x : value) : In (k, x) kvs -> getP (VObj kvs) k = x.
Proof. intros Hin. simpl. now rewrite (assoc_of_entry k x kvs node_distinct Hin). Qed.

Lemma node_absent (k : string) : extensionKey k = true -> getP (VObj kvs) k = VUndef.
Proof. intros Hk. simpl. now rewrite (plain_no_extension kvs k Hall Hk). Qed.

Lemma node_entry (k : string) (x : value) : In (k, x) kvs -> plainEntry (k, x) = true.
Proof. intros Hin. rewrite forallb_forall in Hall. now apply Hall. Qed.

Lemma node_resolveRef : resolveRef root (VObj kvs) = Ok (VObj kvs).
Proof.
  unfold resolveRef.
  change (getProp (VObj kvs) "$ref") with (Ok (getP (VObj kvs) "$ref")).
  rewrite bind_Ok, (node_absent "$ref" eq_refl). reflexivity.
Qed.

Lemma node_required :
  requiredFor mode (VObj kvs)
  = match assoc "required" kvs with
    | Some (VArr names) => Some names
    | _ => None
    end.
Proof.
  unfold requiredFor.
  change (getP (VObj kvs) "required") with (default VUndef (assoc "required" kvs)).
  destruct (assoc "required" kvs) as [x|] eqn:E; [|reflexivity].
  apply assoc_Some_in, node_entry in E. unfold plainEntry in E. simpl in E.
  destruct x; try discriminate. reflexivity.
Qed.

Lemma node_workingProperties :
  workingProperties mode (VObj kvs) (requiredFor mode (VObj kvs)) path
  = Ok (match assoc "properties" kvs with
        | Some ps => ownKeys ps
        | None => []
        end).
Proof.
  unfold workingProperties.
  rewrite (node_absent "unmodifiableProperties" eq_refl).
  change (getP (VObj kvs) "properties") with (default VUndef (assoc "properties" kvs)).
  destruct (assoc "properties" kvs) as [x|] eqn:E; [|reflexivity].
  apply assoc_Some_in, node_entry in E. unfold plainEntry in E. simpl in E.
  destruct x; try discriminate. reflexivity.
Qed.

Lemma node_deriveKey (k : string) (x : value) (ret : list (string * value)) :
  In (k, x) kvs ->
  deriveKey (updateSubSchema fuel root mode) (VObj kvs) path
    (requiredFor mode (VObj kvs))
    (match assoc "properties" kvs with
     | Some ps => ownKeys ps
     | None => []
     end) ret k
  = Ok (setKey k x ret).
Proof.
  intros Hin.
  pose proof (node_entry k x Hin) as He.
  pose proof (node_getP k x Hin) as Hget.
  pose proof (depth_entry k x kvs Hin) as Hdx.
  unfold plainEntry in He. simpl fst in He. simpl snd in He.
  unfold deriveKey.
  destruct (String.eqb k "properties") eqn:Ep.
  { apply String.eqb_eq in Ep. subst k.
    destruct x as [| | | | | | |ps| | |]; try discriminate.
    apply andb_prop in He. destruct He as [Hpord Hpall].
    rewrite (assoc_of_entry _ _ kvs node_distinct Hin), Hget.
    change (ownKeys (VObj ps)) with (List.map fst ps).
    rewrite (foldM_assigns _ ps).
    - reflexivity.
    - intros p q Hq props.
      assert (Hp : existsb (String.eqb p) (List.map fst ps) = true).
      { apply existsb_eqb_In. apply in_map_iff. now exists (p, q). }
      rewrite Hp.
      assert (Hgq : getP (VObj ps) p = q).
      { simpl. now rewrite (assoc_of_entry p q ps
                              (proj1 (enumerationOrder_distinct _ _ Hpord)) Hq). }
      rewrite Hgq, IH.
      + reflexivity.
      + rewrite forallb_forall in Hpall. now apply (Hpall (p, q)).
      + pose proof (depth_entry p q ps Hq). lia.
    - exact Hpord. }
  destruct (String.eqb k "items") eqn:Ei.
  { apply String.eqb_eq in Ei. subst k. rewrite Hget.
    destruct x as [| | | | | |xs|fields| | |]; try discriminate.
    - simpl instanceofArray. cbv iota.
      change (elementsOf (VArr xs)) with xs.
      rewrite mapiM_same; [reflexivity|].
      intros i item Hitem. apply IH.
      + rewrite forallb_forall in He. now apply He.
      + apply depth_element in Hitem. lia.
    - simpl instanceofArray. cbv iota. rewrite IH; [reflexivity | exact He | lia]. }
  destruct (String.eqb k "required") eqn:Er.
  { apply String.eqb_eq in Er. subst k.
    rewrite node_required, (assoc_of_entry _ _ kvs node_distinct Hin).
    destruct x; try discriminate. reflexivity. }
  apply andb_prop in He. destruct He as [Hext Hplain].
  apply negb_true_iff in Hext. unfold extensionKey in Hext.
  apply orb_false_elim in Hext. destruct Hext as [Hext Hu].
  apply orb_false_elim in Hext. destruct Hext as [_ Hd].
  rewrite Hd, Hu. simpl orb. cbv iota.
  now rewrite Hget, clone_plain.
Qed.

End Node.

Lemma updateSubSchema_plain (root : value) (mode : string) (fuel : nat) :
  forall s path,
    plainSchema s = true -> (depth s < fuel)%nat ->
    updateSubSchema fuel root mode s path = Ok s.
Proof.
  induction fuel as [|fuel IH]; intros s path Hplain Hdepth; [lia|].
  destruct s as [| | | | | | |kvs| | |]; try discriminate.
  rewrite plainSchema_node in Hplain. apply andb_prop in Hplain.
  destruct Hplain as [Hord Hall].
  rewrite updateSubSchema_unfold, node_resolveRef by assumption. simpl bind.
  rewrite node_workingProperties by assumption. simpl bind.
  change (ownKeys (VObj kvs)) with (List.map fst kvs).
  rewrite (foldM_assigns _ kvs).
  - reflexivity.
  - intros k x Hin ret.
    apply node_deriveKey; try assumption. lia.
  - exact Hord.
Qed.

End PlainSchemas.
Import PlainSchemas.

(** X17.  A schema that uses none of the extensions ([$ref],
    [definitions], [unmodifiableProperties], a [required] that is not a
    list) is derived unchanged: the insert schema and the update schema
    are both the schema itself, and that is what [ajv.compile] is given
    twice.  A boolean subschema is no such schema: whichever boolean it
    is, a node that is [true] or [false] derives to [{}]. *)
Theorem plain_schema_is_derived_unchanged
    (compile : value -> result validator) (s : value) (fuel : nat) :
  plainSchema s = true -> (depth s < fuel)%nat ->
  (forall mode, getSchema fuel s mode = Ok s)
  /\ getValidationData compile fuel s
     = (let* vi := compile s in
        let* vu := compile s in
        Ok {| insert := {| schema := s; validator_of := vi |};
              update := {| schema := s; validator_of := vu |} |})
  /\ (forall root mode path (b : bool),
         updateSubSchema fuel root mode (VBool b) path = Ok (VObj [])).
Proof.
  intros Hplain Hdepth.
  assert (Hmode : forall mode, getSchema fuel s mode = Ok s).
  { intros mode. unfold getSchema. now apply updateSubSchema_plain. }
  split; [exact Hmode|]. split.
  - unfold getValidationData. now rewrite !Hmode.
  - intros root mode path b. destruct fuel as [|fuel']; [lia|]. reflexivity.
Qed.

Lemma plain_schema_is_derived_unchanged_witness :
  getSchema 5 taggedSchema "insert" = Ok taggedSchema
  /\ getSchema 5 taggedSchema "update" = Ok taggedSchema.
Proof.
  destruct (plain_schema_is_derived_unchanged compileAny taggedSchema 5 eq_refl)
    as (Hmode & _).
  - simpl. lia.
  - split; apply Hmode.
Defined.

(** [derived_node] (X18) applies: the node [unmodifiableAndRequired]
    derives for update mode. *)
Lemma derived_node_witness :
  getP (VObj [("type", VStr "object");
              ("properties", VObj [("name", VObj [("type", VStr "string")])]);
              ("required", VArr [VStr "name"]);
              ("additionalProperties", VBool false)]) "unmodifiableProperties"
  = VUndef
  /\ getP unmodifiableAndRequired "additionalProperties" = VBool false.
Proof.
  destruct (derived_node 1 unmodifiableAndRequired "update"
              unmodifiableAndRequired unmodifiableAndRequired
              (VObj [("type", VStr "object");
                     ("properties", VObj [("name", VObj [("type", VStr "string")])]);
                     ("required", VArr [VStr "name"]);
                     ("additionalProperties", VBool false)])
              "schema" eq_refl eq_refl) as (_ & Hunmod & _ & Hnode).
  split; [exact Hunmod|].
  now destruct (Hnode eq_refl eq_refl) as (_ & _ & Hadd).
Defined.

(** [unmodifiable_needs_required] (X19) applies: the node
    [unmodifiableOnly] has no [required]. *)
Lemma unmodifiable_needs_required_witness :
  updateSubSchema 1 unmodifiableOnly "insert" unmodifiableOnly "schema"
  = Err (TypeError "Cannot read property 'map' of undefined").
Proof.
  apply (unmodifiable_needs_required 0 unmodifiableOnly "insert" unmodifiableOnly
           unmodifiableOnly "schema"); reflexivity.
Defined.

(** ** [MongolError] ([errors.js]) *)

Module ErrorFacts.

Lemma MongolError_object (fields : list (string * value)) :
  ctorName (VObj fields) = Ok (VStr "Object") ->
  MongolError (VObj fields)
  = Ok (VInst "MongolError"
          (fold_left (fun acc kv => setKey (fst kv) (snd kv) acc) fields
                     [("errorType", VStr "MongolError")])).
Proof. intros Hcn. unfold MongolError. now rewrite Hcn. Qed.

End ErrorFacts.
Import ErrorFacts.

(** X20.  A MongolError built from a plain object carries the fields
    of the object: each is an own property of the error with the value
    it has on the object (so a field named [errorType] replaces the
    tag), [errorType] is ['MongolError'] otherwise, and the error has no
    other own property but [stack].  The object has no field named
    [constructor] or [__proto__].  Built from anything else that answers
    a name for its constructor, the error holds the value under [error],
    which is also what wrapping the value in [{error: ...}] gives.  Built
    from a value whose constructor cannot be read, [null] and [undefined]
    among them, the constructor throws the TypeError of that read. *)
Theorem MongolError_carries_the_fields (error : value) :
  (forall fields,
      error = VObj fields -> plainKeys fields = true ->
      List.NoDup (List.map fst fields) ->
      exists own,
        MongolError error = Ok (VInst "MongolError" own)
        /\ ctorName (VInst "MongolError" own) = Ok (VStr "MongolError")
        /\ forall p,
             p <> "stack" ->
             assoc p own
             = if existsb (String.eqb p) (List.map fst fields) then assoc p fields
               else if String.eqb p "errorType" then Some (VStr "MongolError")
               else None)
  /\ (forall cn,
      ctorName error = Ok cn -> cn <> VStr "Object" ->
      MongolError error
      = Ok (VInst "MongolError" [("errorType", VStr "MongolError"); ("error", error)])
      /\ MongolError error = MongolError (VObj [("error", error)]))
  /\ (forall e, ctorName error = Err e -> MongolError error = Err e)
  /\ (nullish error = true -> isErr (MongolError error) = true).
Proof.
  split; [|split; [|split]].
  - intros fields -> Hplain Hnd.
    assert (Hown : forall p,
               assoc p (fold_left (fun acc kv => setKey (fst kv) (snd kv) acc) fields
                                  [("errorType", VStr "MongolError")])
               = if existsb (String.eqb p) (List.map fst fields) then assoc p fields
                 else if String.eqb p "errorType" then Some (VStr "MongolError")
                 else None).
    { intros p. rewrite assoc_fold_setKey, assoc_rev by exact Hnd.
      destruct (existsb (String.eqb p) (List.map fst fields)) eqn:E.
      - apply existsb_eqb_In, assoc_in_keys in E.
        destruct (assoc p fields); [reflexivity | now destruct E].
      - rewrite assoc_None_notin.
        + simpl. now destruct (String.eqb p "errorType").
        + intros Hin. apply existsb_eqb_In in Hin. congruence. }
    eexists. split; [apply MongolError_object; now apply ctorName_plainKeys|].
    split; [|intros p _; apply Hown].
    destruct (assoc_plainKeys fields Hplain) as [Hc _].
    assert (Hnot : existsb (String.eqb "constructor") (List.map fst fields) = false).
    { destruct (existsb _ _) eqn:E; [|reflexivity].
      apply existsb_eqb_In, assoc_in_keys in E. now destruct E. }
    simpl. rewrite (Hown "constructor"), Hnot. reflexivity.
  - intros cn Hcn Hne. unfold MongolError. rewrite Hcn. simpl.
    rewrite (named_neq cn "Object" Hne). split; reflexivity.
  - intros e He. unfold MongolError. now rewrite He.
  - intros Hn. destruct error; try discriminate; reflexivity.
Qed.

Lemma MongolError_carries_the_fields_witness :
  exists own,
    MongolError (VObj [("error", VStr "required"); ("index", VNum 1)])
    = Ok (VInst "MongolError" own)
    /\ assoc "index" own = Some (VNum 1)
    /\ assoc "errorType" own = Some (VStr "MongolError").
Proof.
  destruct (proj1 (MongolError_carries_the_fields
                     (VObj [("error", VStr "required"); ("index", VNum 1)]))
              [("error", VStr "required"); ("index", VNum 1)] eq_refl eq_refl)
    as (own & He & _ & Hget).
  - repeat constructor; simpl; intuition discriminate.
  - exists own. split; [exact He|]. split.
    + now rewrite (Hget "index") by discriminate.
    + now rewrite (Hget "errorType") by discriminate.
Defined.

(** ** The connection ([connexion.js]) *)

Module ConnexionFacts.

Section Invariant.

Context {World : Type}.
Variable drv : Connexion.Client World.

Lemma settled_loaded (w : World) : settled (Connexion.loaded drv w).
Proof. repeat split; discriminate. Qed.

Lemma settled_serve (st : Connexion.State World) (r : request) :
  settled st -> settled (serve drv st r).
Proof.
  intros Hst. pose proof Hst as (Hlast & Hdef & Hnull).
  destruct r as [url options|]; simpl.
  - unfold Connexion.connect.
    destruct (Connexion.client_connect drv _ (Connexion.world st)) as [[r|e] w]; simpl.
    + repeat split; simpl; [now rewrite last_last | discriminate | discriminate].
    + repeat split; simpl; [exact Hlast | discriminate | discriminate].
  - unfold Connexion.disconnect.
    destruct (Connexion.client st) eqn:Ec; try exact Hst;
      destruct (Connexion.client_close drv _ (Connexion.world st)) as [[r|e] w]; simpl;
      repeat split; simpl;
      try (now rewrite last_last); try discriminate; try exact Hlast;
      rewrite Ec; discriminate.
Qed.

Lemma settled_reached (requests : list request) (w : World) :
  settled (reached drv requests w).
Proof.
  unfold reached. generalize (settled_loaded w).
  generalize (Connexion.loaded drv w) as st.
  induction requests as [|r requests IH]; intros st Hst; [exact Hst|].
  simpl. apply IH. now apply settled_serve.
Qed.

End Invariant.

End ConnexionFacts.
Import ConnexionFacts.

(** X21.  After any sequence of [connect] and [disconnect] calls, each
    awaited before the next, [getConnectionStatus()] is the last event
    the module emitted (['connected'] or ['disconnected'], [''] when
    there was none).  When [getClient()] is [null] the status is
    ['disconnected'], and a further [disconnect] rejects with a TypeError
    and changes nothing.  A [connect] that fails leaves the status as it
    was, yet the client it created is what [getClient()] answers from
    then on: the status can say ['connected'] of a client that never
    connected. *)
Theorem connection_status_is_the_last_event {World : Type}
    (drv : Connexion.Client World) (requests : list request) (w : World) :
  Connexion.getConnectionStatus (reached drv requests w)
  = List.last (Connexion.emitted (reached drv requests w)) EmptyString
  /\ (Connexion.getClient (reached drv requests w) = VNull ->
      Connexion.getConnectionStatus (reached drv requests w) = "disconnected"
      /\ Connexion.disconnect drv (reached drv requests w)
         = (Err (TypeError "Cannot read property 'close' of null"),
            reached drv requests w))
  /\ (forall url options e w',
      Connexion.client_connect drv
        (VInst "MongoClient" (Connexion.new_MongoClient drv url options))
        (Connexion.world (reached drv requests w)) = (Err e, w') ->
      Connexion.getConnectionStatus (reached drv (requests ++ [Connect url options]) w)
      = Connexion.getConnectionStatus (reached drv requests w)
      /\ Connexion.getClient (reached drv (requests ++ [Connect url options]) w)
         = VInst "MongoClient" (Connexion.new_MongoClient drv url options)).
Proof.
  destruct (settled_reached drv requests w) as (Hlast & Hdef & Hnull).
  split; [exact Hlast|]. split.
  - intros Hc. split; [now apply Hnull|].
    unfold Connexion.getClient in Hc. unfold Connexion.disconnect. now rewrite Hc.
  - intros url options e w' Hfail.
    unfold reached. rewrite fold_left_app. simpl.
    fold (reached drv requests w). unfold Connexion.connect. rewrite Hfail.
    split; reflexivity.
Qed.

(** ** The method [validateDocument] ([Collection.js], lines 216-218) *)

(** X22.  The method validates with the validator of the mode:
    ['insert'] takes the insert validator, ['update'] and a call without
    mode take the update validator.  Any other mode makes the method
    throw a TypeError before a document is looked at, except the names
    every object inherits (['constructor'], ['toString'], ...): under
    such a mode the front end is called without a validator, so nothing
    is validated, and a document that answers a name other than
    ['Array'] for its constructor passes. *)
Theorem validateDocument_mode_selects_the_validator
    (vd : validationData) (data : value) :
  Collection.validateDocument vd data None
  = ValidateDocument.validateDocument data (Some (validator_of (update vd)))
  /\ Collection.validateDocument vd data (Some "update")
     = ValidateDocument.validateDocument data (Some (validator_of (update vd)))
  /\ Collection.validateDocument vd data (Some "insert")
     = ValidateDocument.validateDocument data (Some (validator_of (insert vd)))
  /\ (forall mode,
         In mode Collection.inheritedKeys ->
         Collection.validateDocument vd data (Some mode)
         = ValidateDocument.validateDocument data None
         /\ forall cn,
              ctorName data = Ok cn -> cn <> VStr "Array" ->
              Collection.validateDocument vd data (Some mode) = Ok VUndef)
  /\ (forall mode,
         mode <> "insert" -> mode <> "update" -> ~ In mode Collection.inheritedKeys ->
         Collection.validateDocument vd data (Some mode)
         = Err (TypeError "Cannot read property 'validator' of undefined")).
Proof.
  split; [reflexivity|]. split; [reflexivity|]. split; [reflexivity|]. split.
  - intros mode Hin.
    assert (Hv : Collection.validatorFor vd mode = Ok None).
    { simpl in Hin.
      repeat (destruct Hin as [<-|Hin]; [reflexivity|]). destruct Hin. }
    split.
    + unfold Collection.validateDocument. simpl default. now rewrite Hv.
    + intros cn Hcn Hne. unfold Collection.validateDocument. simpl default.
      rewrite Hv. simpl bind. unfold validateDocument.
      rewrite Hcn. simpl bind. now rewrite (named_neq cn "Array" Hne).
  - intros mode Hi Hu Hin.
    unfold Collection.validateDocument, Collection.validatorFor. simpl default.
    apply String.eqb_neq in Hi, Hu. rewrite Hi, Hu.
    destruct (existsb (String.eqb mode) Collection.inheritedKeys) eqn:E; [|reflexivity].
    exfalso. apply Hin. now apply existsb_eqb_In.
Qed.

